(** * Skeletonizer: graph orientation, validation and growth

    A shallow embedding of [bin/skeletonize.py], the program that turns the
    skeleton of an Amiramesh file into a BBPSDK morphology.

    - Python floats are the kernel's binary64 floats; comparisons, sums and
      square roots are those of the source, in its order of evaluation.
    - Dictionaries keyed by node ids are [gmap]s; a read of a [defaultdict]
      is a lookup with a default.
    - A Python set of node ids is the list of its elements, in the order in
      which they were added; [add] appends an absent element.  CPython
      iterates a set in the order of its hash table, which may be another
      one: the statements on [create_directed_graph] and on the growth are
      proved for every node graph and every directed graph, whatever the
      order of their lists.
    - The dictionary [nodes], keyed by position tuples, is the list of its
      assignments, latest first, read with the equality of floats.
    - The BBPSDK objects are handles (the soma, or a numbered section) and the
      morphology is the log of the calls it receives.
    - A raised exception is a value of [result].  The loop of
      [create_directed_graph] takes fuel, and the theorems give a fuel that
      suffices.  The recursion of [grow_segments] takes the number of nested
      calls that the recursion limit of the interpreter leaves room for: a
      call beyond it raises [RuntimeError] (maximum recursion depth
      exceeded), as in the source. *)

From Stdlib Require Import ZArith Floats Lia.
From stdpp Require Import gmap list.

Local Open Scope float_scope.

(** ** Vector helpers *)

Record vec3 := V3 { vx : float; vy : float; vz : float }.

Definition square (x : float) : float := x * x.

(** [sum(map(lambda x, y: square(x - y), v1, v2))]: [sum] starts from 0. *)
Definition distance_squared (v1 v2 : vec3) : float :=
  0 + square (vx v1 - vx v2) + square (vy v1 - vy v2) + square (vz v1 - vz v2).

Definition distance (v1 v2 : vec3) : float := sqrt (distance_squared v1 v2).

Definition vlength (v : vec3) : float :=
  sqrt (0 + square (vx v) + square (vy v) + square (vz v)).

Definition vmuls3 (v : vec3) (x : float) : vec3 := V3 (vx v * x) (vy v * x) (vz v * x).
Definition vdivs3 (v : vec3) (x : float) : vec3 := V3 (vx v / x) (vy v / x) (vz v / x).
Definition vadds3 (v : vec3) (x : float) : vec3 := V3 (vx v + x) (vy v + x) (vz v + x).
Definition vsubs3 (v : vec3) (x : float) : vec3 := V3 (vx v - x) (vy v - x) (vz v - x).
Definition vadd3 (v1 v2 : vec3) : vec3 := V3 (vx v1 + vx v2) (vy v1 + vy v2) (vz v1 + vz v2).
Definition vsub3 (v1 v2 : vec3) : vec3 := V3 (vx v1 - vx v2) (vy v1 - vy v2) (vz v1 - vz v2).

(** Python's two-argument [min] and [max] keep the first argument unless the
    second one is strictly smaller (resp. larger). *)
Definition fmin (a b : float) : float := if b <? a then b else a.
Definition fmax (a b : float) : float := if a <? b then b else a.

Definition vmin3 (v1 v2 : vec3) : vec3 :=
  V3 (fmin (vx v1) (vx v2)) (fmin (vy v1) (vy v2)) (fmin (vz v1) (vz v2)).
Definition vmax3 (v1 v2 : vec3) : vec3 :=
  V3 (fmax (vx v1) (vx v2)) (fmax (vy v1) (vy v2)) (fmax (vz v1) (vz v2)).

(** [vnormalize3] asserts a non-zero length: [None] is the failed assertion. *)
Definition vnormalize3 (v : vec3) : option vec3 :=
  let m := vlength v in
  if negb (m =? 0) then Some (vdivs3 v m) else None.

Definition vnormalize_zero3 (v : vec3) : vec3 :=
  let m := vlength v in
  if negb (m =? 0) then default v (vnormalize3 v) else v.

(** An axis aligned bounding box is the pair (min corner, max corner). *)
Record aabb := AABB { aabb_min : vec3; aabb_max : vec3 }.

Definition v3_to_aabb (v1 v2 : vec3) : aabb := AABB (vmin3 v1 v2) (vmax3 v1 v2).

Definition adjust_aabb (bb : aabb) (n : float) : aabb :=
  v3_to_aabb (vsubs3 (aabb_min bb) n) (vadds3 (aabb_max bb) n).

Definition inside_aabb (bb : aabb) (v : vec3) : bool :=
  let inside_min :=
    (vx (aabb_min bb) <? vx v) && (vy (aabb_min bb) <? vy v) && (vz (aabb_min bb) <? vz v) in
  let inside_max :=
    (vx v <? vx (aabb_max bb)) && (vy v <? vy (aabb_max bb)) && (vz v <? vz (aabb_max bb)) in
  inside_min && inside_max.

Definition vadjust_offset_length3 (v centre : vec3) (min_length : float) : vec3 :=
  let nv := vsub3 v centre in
  let m := vlength nv in
  if min_length <? m then nv else vmuls3 (vnormalize_zero3 nv) min_length.

(** [options.k_CUTPOINT_AABB] is [None] or an AABB; a pair is always truthy. *)
Definition is_cut_point (pos : vec3) (bb : option aabb) : bool :=
  match bb with
  | None => false
  | Some b => negb (inside_aabb b pos)
  end.

(** A position lies on a face of the box when one of its coordinates compares
    equal to the matching coordinate of the min or of the max corner. *)
Definition on_face (b : aabb) (pos : vec3) : bool :=
  (vx pos =? vx (aabb_min b)) || (vy pos =? vy (aabb_min b)) || (vz pos =? vz (aabb_min b))
  || (vx pos =? vx (aabb_max b)) || (vy pos =? vy (aabb_max b)) || (vz pos =? vz (aabb_max b)).

(** ** Data model *)

(** A sample of a segment: [ndata.position()] and [ndata.diameter]. *)
Record point := Point { position : vec3; diameter : float }.

(** A segment of the skeleton; [end_] is the attribute [end]. *)
Record segment := Segment { start : nat; end_ : nat; points : list point }.

(** [morph_statistics.warn_counts] has one counter per key
    ([k_WARN_UNCONNECTED_SEGMENTS], [k_WARN_IGNORED_EDGES],
    [k_WARN_MAX_GROW_DEPTH_REACHED], [k_WARN_CUT_NODES_FOUND],
    [k_INFO_IGNORED_POSITIONS]). *)
Record warn_counts := WarnCounts {
  unconnected_segments : nat;
  ignored_edges : nat;
  max_grow_depth_reached : nat;
  cut_nodes_found : nat;
  ignored_positions : nat }.

Definition no_warnings : warn_counts := WarnCounts 0 0 0 0 0.

Definition incr_unconnected_segments (w : warn_counts) : warn_counts :=
  WarnCounts (S (unconnected_segments w)) (ignored_edges w) (max_grow_depth_reached w)
             (cut_nodes_found w) (ignored_positions w).
Definition incr_ignored_edges (w : warn_counts) : warn_counts :=
  WarnCounts (unconnected_segments w) (S (ignored_edges w)) (max_grow_depth_reached w)
             (cut_nodes_found w) (ignored_positions w).
Definition incr_max_grow_depth_reached (w : warn_counts) : warn_counts :=
  WarnCounts (unconnected_segments w) (ignored_edges w) (S (max_grow_depth_reached w))
             (cut_nodes_found w) (ignored_positions w).
Definition incr_cut_nodes_found (w : warn_counts) : warn_counts :=
  WarnCounts (unconnected_segments w) (ignored_edges w) (max_grow_depth_reached w)
             (S (cut_nodes_found w)) (ignored_positions w).
Definition incr_ignored_positions (w : warn_counts) : warn_counts :=
  WarnCounts (unconnected_segments w) (ignored_edges w) (max_grow_depth_reached w)
             (cut_nodes_found w) (S (ignored_positions w)).

(** The class [morph_options] of [create_morphology]. *)
Record morph_options := MorphOptions {
  k_ALLOW_CYCLES : bool;
  k_CONNECT_SOMA_SOMA : bool;
  k_SEGMENT_THRESHOLD_SQR : float;
  k_CLIP_INSIDE_SOMA : bool;
  k_INFLATE_SOMA : bool;
  k_SCALING_FACTOR : float;
  k_CUTPOINT_AABB : option aabb }.

(** Levels of the [logging] module. *)
Definition NOTSET : Z := 0.
Definition DEBUG : Z := 10.
Definition INFO : Z := 20.

(** ** Sets of node ids and graphs *)

(** [s.add(x)] on a set kept as the list of its elements, in the order of
    their insertion; the order in which CPython iterates the set is that of
    its hash table and may differ. *)
Definition set_add (x : nat) (s : list nat) : list nat :=
  if bool_decide (x ∈ s) then s else s ++ [x].

(** [g[a].add(b)] where [g] is a [defaultdict] of sets, or a dictionary in
    which [a] is known to be a key. *)
Definition graph_add (a b : nat) (g : gmap nat (list nat)) : gmap nat (list nat) :=
  <[a := set_add b (default [] (g !! a))]> g.

(** [g[n]] on a [defaultdict(lambda: set())]. *)
Definition neighbours_of (g : gmap nat (list nat)) (n : nat) : list nat :=
  default [] (g !! n).

Definition create_node_graph (segments : list segment) : gmap nat (list nat) :=
  fold_left (fun edges segm =>
               graph_add (end_ segm) (start segm) (graph_add (start segm) (end_ segm) edges))
            segments ∅.

(** ** create_directed_graph *)

Record cdg_state := CdgState {
  cdg_edges : gmap nat (list nat);
  cdg_visited : list nat;
  cdg_frontier : list nat;
  cdg_warn : warn_counts }.

(** One round of [for nn in neighbours] for the popped node [n]. *)
Definition cdg_neighbour (options : morph_options) (somanodes : list nat) (n : nat)
    (st : cdg_state) (nn : nat) : cdg_state :=
  let is_visited := bool_decide (nn ∈ cdg_visited st) in
  let frontier := if is_visited then cdg_frontier st else cdg_frontier st ++ [nn] in
  if (k_CONNECT_SOMA_SOMA options || negb (bool_decide (nn ∈ somanodes)))
     && (k_ALLOW_CYCLES options || negb is_visited)
  then CdgState (graph_add n nn (cdg_edges st)) (cdg_visited st) frontier (cdg_warn st)
  else CdgState (cdg_edges st) (cdg_visited st) frontier (incr_ignored_edges (cdg_warn st)).

(** The body of [while frontier] for [n = frontier[0]]; [rest] is the frontier
    after [frontier.remove(n)], which deletes the first occurrence: the head. *)
Definition cdg_step (options : morph_options) (somanodes : list nat)
    (nodesgraph : gmap nat (list nat)) (n : nat) (rest : list nat) (st : cdg_state) : cdg_state :=
  let neighbours := neighbours_of nodesgraph n in
  let visited := cdg_visited st ++ [n] in
  let edges := if bool_decide (is_Some (cdg_edges st !! n)) then cdg_edges st
               else <[n := []]> (cdg_edges st) in
  fold_left (cdg_neighbour options somanodes n) neighbours
            (CdgState edges visited rest (cdg_warn st)).

Fixpoint cdg_loop (fuel : nat) (options : morph_options) (somanodes : list nat)
    (nodesgraph : gmap nat (list nat)) (st : cdg_state) : option cdg_state :=
  match cdg_frontier st with
  | [] => Some st
  | n :: rest =>
      match fuel with
      | O => None
      | S fuel' =>
          cdg_loop fuel' options somanodes nodesgraph (cdg_step options somanodes nodesgraph n rest st)
      end
  end.

Definition cdg_init (somanodes : list nat) (stats : warn_counts) : cdg_state :=
  CdgState ∅ [] somanodes stats.

(** Returns the directed graph and the updated statistics; [None] when the
    fuel runs out before the frontier is empty. *)
Definition create_directed_graph (fuel : nat) (somanodes : list nat)
    (nodesgraph : gmap nat (list nat)) (options : morph_options) (stats : warn_counts)
    : option (gmap nat (list nat) * warn_counts) :=
  match cdg_loop fuel options somanodes nodesgraph (cdg_init somanodes stats) with
  | Some st => Some (cdg_edges st, cdg_warn st)
  | None => None
  end.

(** ** create_node_segments_dict *)

(** [a in dgraph and b in dgraph[a]]. *)
Definition has_edge (dgraph : gmap nat (list nat)) (a b : nat) : bool :=
  match dgraph !! a with
  | Some cnodes => bool_decide (b ∈ cnodes)
  | None => false
  end.

(** The deep copy [r] of [s] with swapped ends and reversed points. *)
Definition reversed_segment (s : segment) : segment :=
  Segment (end_ s) (start s) (rev (points s)).

(** [nodesegments[k].append(s)] on a [defaultdict(lambda: [])]. *)
Definition segments_append (k : nat) (s : segment) (nodesegments : gmap nat (list segment))
    : gmap nat (list segment) :=
  <[k := default [] (nodesegments !! k) ++ [s]]> nodesegments.

(** The body of [for s in segments]. *)
Definition cnsd_step (dgraph : gmap nat (list nat))
    (acc : gmap nat (list segment) * warn_counts) (s : segment)
    : gmap nat (list segment) * warn_counts :=
  let '(nodesegments, stats) := acc in
  let connected := false in
  let '(nodesegments, connected) :=
    if has_edge dgraph (start s) (end_ s)
    then (segments_append (start s) s nodesegments, true)
    else (nodesegments, connected) in
  let '(nodesegments, connected) :=
    if has_edge dgraph (end_ s) (start s)
    then let r := reversed_segment s in (segments_append (start r) r nodesegments, true)
    else (nodesegments, connected) in
  if negb connected then (nodesegments, incr_unconnected_segments stats)
  else (nodesegments, stats).

Definition create_node_segments_dict (segments : list segment) (dgraph : gmap nat (list nat))
    (stats : warn_counts) : gmap nat (list segment) * warn_counts :=
  fold_left (cnsd_step dgraph) segments (∅, stats).

(** ** Exceptions *)

(** The exceptions that the program can raise; [RuntimeError] is the one of
    the interpreter when the recursion limit is exceeded. *)
Inductive exn :=
  AssertionError | KeyError | IndexError | TypeError | ValueError | RuntimeError.

(** The outcome of a call: a value, a raised exception, or no more fuel for
    the loop of the model. *)
Inductive result (A : Type) : Type :=
  | Ok (a : A)
  | Raise (e : exn)
  | OutOfFuel.
Arguments Ok {A} a.
Arguments Raise {A} e.
Arguments OutOfFuel {A}.

#[global] Instance result_ret : MRet result := fun A a => Ok a.
#[global] Instance result_bind : MBind result := fun A B f m =>
  match m with
  | Ok a => f a
  | Raise e => Raise e
  | OutOfFuel => OutOfFuel
  end.

#[global] Instance result_fmap : FMap result := fun A B f m =>
  match m with
  | Ok a => Ok (f a)
  | Raise e => Raise e
  | OutOfFuel => OutOfFuel
  end.

(** A [for] loop whose body may raise. *)
Fixpoint foldM {A S : Type} (f : S -> A -> result S) (l : list A) (s : S) : result S :=
  match l with
  | [] => Ok s
  | a :: l' => s' ← f s a; foldM f l' s'
  end.

Definition assert (b : bool) : result unit :=
  if b then Ok tt else Raise AssertionError.

(** ** validate_graph_segments *)

(** Truth value of the optional list [somanodes]: [None] and [[]] are false. *)
Definition truthy {A : Type} (l : option (list A)) : bool :=
  match l with
  | Some (_ :: _) => true
  | _ => false
  end.

Definition is_nil {A : Type} (l : list A) : bool :=
  match l with [] => true | _ => false end.

(** The body of the first loop, over the items [(nidx, cnodes)] of [dgraph].
    Reading [nodesegments[nidx]] on the [defaultdict] adds the key when it is
    absent. *)
Definition validate_dag_node (somanodes : option (list nat))
    (nodesegments : gmap nat (list segment)) (item : nat * list nat)
    : result (gmap nat (list segment)) :=
  let '(nidx, cnodes) := item in
  _ ← assert ((is_nil cnodes || bool_decide (is_Some (nodesegments !! nidx)))
              || (truthy somanodes
                  && forallb (fun c => bool_decide (c ∈ default [] somanodes)) cnodes));
  let csegms := default [] (nodesegments !! nidx) in
  let nodesegments := match nodesegments !! nidx with
                      | Some _ => nodesegments
                      | None => <[nidx := []]> nodesegments
                      end in
  let nsendidxs := end_ <$> csegms in
  _ ← assert (forallb (fun cidx => bool_decide (cidx ∈ nsendidxs)) cnodes);
  Ok nodesegments.

(** The body of the second loop, over the items of [nodesegments].  When the
    assertion on the start ids fails, its message builds [set([nsstartidxs])],
    a set holding a list, and that raises [TypeError]. *)
Definition validate_node_segments (dgraph : gmap nat (list nat)) (_ : unit)
    (item : nat * list segment) : result unit :=
  let '(nidx, csegms) := item in
  _ ← assert (bool_decide (is_Some (dgraph !! nidx)));
  let nsstartidxs := start <$> csegms in
  let nsendidxs := end_ <$> csegms in
  _ ← (if is_nil nsstartidxs || forallb (fun i => bool_decide (i = nidx)) nsstartidxs
       then Ok tt
       else Raise TypeError);
  assert (forallb (fun cidx => bool_decide (is_Some (dgraph !! cidx))) nsendidxs).

(** Returns the segments dictionary as the reads of the first loop leave it. *)
Definition validate_graph_segments (dgraph : gmap nat (list nat))
    (nodesegments : gmap nat (list segment)) (somanodes : option (list nat))
    : result (gmap nat (list segment)) :=
  nodesegments ← foldM (validate_dag_node somanodes) (map_to_list dgraph) nodesegments;
  _ ← foldM (validate_node_segments dgraph) (map_to_list nodesegments) tt;
  Ok nodesegments.

(** ** The morphology sink *)

(** A growth origin: the soma or a section of the morphology. *)
Inductive handle := HSoma | HSection (id : nat).

#[global] Instance handle_eq_dec : EqDecision handle.
Proof. solve_decision. Defined.

(** The calls made to the BBPSDK objects, in order. *)
Inductive sink_call :=
  | DebugSoma (radius : float)
      (* debug_soma(soma, radius): the axis and outline sections *)
  | SurfaceInsert (p : vec3)
      (* soma_spoints.insert(Vector3f(p)) *)
  | GrowSection (parent : handle) (p : vec3) (d : float) (child : handle)
      (* child = parent.grow(p[0], p[1], p[2], d, Section_Type.DENDRITE) *)
  | GrowPoint (section : handle) (p : vec3) (d : float)
      (* section.grow(p[0], p[1], p[2], d) *)
  | MovePoint (section : handle) (i : nat) (p : vec3)
      (* section.move_point(i, Vector3f(p)) *)
  | MarkCutPoint (h : handle).
      (* morphology.mark_cut_point(h) *)

(** The morphology: the calls received so far, latest first, and the number
    of sections created, which names the next one. *)
Record morph := Morph { calls : list sink_call; next_section : nat }.

Definition empty_morph : morph := Morph [] 0.

Definition sink (c : sink_call) (m : morph) : morph := Morph (c :: calls m) (next_section m).

(** [parent.grow(p, d, Section_Type.DENDRITE)]: the new section and the
    morphology after the call. *)
Definition grow_section (parent : handle) (p : vec3) (d : float) (m : morph) : handle * morph :=
  let child := HSection (next_section m) in
  (child, Morph (GrowSection parent p d child :: calls m) (S (next_section m))).

(** ** The table of grown nodes *)

(** Equality of two position tuples, coordinate by coordinate.  (For a NaN
    coordinate Python also looks at the identity of the objects, which the
    model does not.) *)
Definition veqb (p q : vec3) : bool :=
  (vx p =? vx q) && (vy p =? vy q) && (vz p =? vz q).

(** The dictionary [nodes], from positions to handles, kept as the list of its
    assignments, latest first: a lookup returns the latest binding of a key. *)
Definition dict_set (k : vec3) (h : handle) (nodes : list (vec3 * handle)) : list (vec3 * handle) :=
  (k, h) :: nodes.

Fixpoint dict_get (k : vec3) (nodes : list (vec3 * handle)) : option handle :=
  match nodes with
  | [] => None
  | (k', h) :: nodes' => if veqb k k' then Some h else dict_get k nodes'
  end.

(** [k in nodes]. *)
Definition dict_mem (k : vec3) (nodes : list (vec3 * handle)) : bool :=
  match dict_get k nodes with Some _ => true | None => false end.

(** ** Growth *)

(** What the growth stage mutates: the table [nodes], the list [visited], the
    morphology, the warning counters and [node_grow_stats], the latter kept as
    the list of its appends [(node, position)], latest first. *)
Record gstate := GState {
  nodes : list (vec3 * handle);
  visited : list nat;
  morphology : morph;
  stats : warn_counts;
  node_grow_stats : list (handle * vec3) }.

Definition empty_gstate (w : warn_counts) : gstate := GState [] [] empty_morph w [].

Definition debug_scale_cut_point_diameter (scaled_diameter scale : float) : float :=
  fmax (2 * scale) (scaled_diameter * 5).

(** The body of [for segm in segments] in [grow_soma], for the root
    [snode_idx]; [loglevel] is the effective level of the root logger. *)
Definition grow_soma_segment (loglevel : Z) (scentre : vec3) (sradius : float)
    (options : morph_options) (snode_idx : nat) (st : gstate) (segm : segment) : result gstate :=
  let scale := k_SCALING_FACTOR options in
  _ ← assert (bool_decide (start segm = snode_idx));
  match points segm with
  | [] => Raise IndexError
  | ndata :: _ =>
      let npos := position ndata in
      let snpos := vadjust_offset_length3 npos scentre sradius in
      if k_INFLATE_SOMA options then
        let spos := vmuls3 snpos scale in
        Ok (GState (dict_set npos HSoma (nodes st)) (visited st)
                   (sink (SurfaceInsert spos) (morphology st)) (stats st) (node_grow_stats st))
      else
        let snpos := if (loglevel <? DEBUG)%Z then vadjust_offset_length3 npos scentre 0
                     else snpos in
        let spos := vmuls3 snpos scale in
        let sdiameter := diameter ndata * scale in
        let '(node, m) := grow_section HSoma spos sdiameter (morphology st) in
        Ok (GState (dict_set npos node (nodes st)) (visited st)
                   (sink (MovePoint node 0 spos) m) (stats st)
                   ((HSoma, snpos) :: node_grow_stats st))
  end.

Definition grow_soma (loglevel : Z) (somanodes : list nat)
    (nodesegments : gmap nat (list segment)) (scentre : vec3) (sradius : float)
    (options : morph_options) (st : gstate) : result gstate :=
  let scale := k_SCALING_FACTOR options in
  let st := if (loglevel <=? DEBUG)%Z
            then GState (nodes st) (visited st)
                        (sink (DebugSoma (sradius * scale)) (morphology st))
                        (stats st) (node_grow_stats st)
            else st in
  foldM (fun st snode_idx =>
           foldM (grow_soma_segment loglevel scentre sradius options snode_idx)
                 (default [] (nodesegments !! snode_idx)) st)
        somanodes st.

Definition with_nodes (n : list (vec3 * handle)) (st : gstate) : gstate :=
  GState n (visited st) (morphology st) (stats st) (node_grow_stats st).
Definition with_visited (v : list nat) (st : gstate) : gstate :=
  GState (nodes st) v (morphology st) (stats st) (node_grow_stats st).
Definition with_morphology (m : morph) (st : gstate) : gstate :=
  GState (nodes st) (visited st) m (stats st) (node_grow_stats st).
Definition with_stats (w : warn_counts) (st : gstate) : gstate :=
  GState (nodes st) (visited st) (morphology st) w (node_grow_stats st).
Definition grow_stats_append (h : handle) (p : vec3) (st : gstate) : gstate :=
  GState (nodes st) (visited st) (morphology st) (stats st) ((h, p) :: node_grow_stats st).

Section Growth.

(** The arguments that [grow_segments] passes unchanged to its recursive
    calls, and the effective level of the root logger. *)
Variable loglevel : Z.
Variable dagnodes : gmap nat (list nat).
Variable nodesegments : gmap nat (list segment).
Variable scentre : vec3.
Variable sradius : float.
Variable options : morph_options.

(** The growth of one interior sample [pt]: the [if section: ... elif ...]
    of the loop body, with [is_cut] as updated for this sample.  [section]
    is [None] or the section being grown together with [prev_pos], which
    is assigned whenever [section] is. *)
Definition grow_interior_point (node : handle) (pt : point) (is_cut : bool)
    (section : option (handle * vec3)) (st : gstate) : option (handle * vec3) * gstate :=
  let scale := k_SCALING_FACTOR options in
  let pos := vadjust_offset_length3 (position pt) scentre 0 in
  let spos := vmuls3 pos scale in
  let sdiameter := diameter pt * scale in
  let sdiameter := if is_cut && (loglevel <=? DEBUG)%Z
                   then debug_scale_cut_point_diameter sdiameter scale
                   else sdiameter in
  match section with
  | Some (sec, prev_pos) =>
      if k_SEGMENT_THRESHOLD_SQR options <=? distance_squared pos prev_pos then
        let m := sink (GrowPoint sec spos sdiameter) (morphology st) in
        let m := if is_cut then sink (MarkCutPoint sec) m else m in
        (Some (sec, pos), with_morphology m st)
      else
        (section, with_stats (incr_ignored_positions (stats st)) st)
  | None =>
      if negb (k_CLIP_INSIDE_SOMA options) || (sradius + diameter pt <? vlength pos) then
        let '(sec, m) := grow_section node spos sdiameter (morphology st) in
        (Some (sec, pos), grow_stats_append node pos (with_morphology m st))
      else
        (None, st)
  end.

(** [for pt in segm.points[1:-1]], with its [break]. *)
Fixpoint walk_interior (node : handle) (pts : list point)
    (section : option (handle * vec3)) (is_cut : bool) (st : gstate)
    : option (handle * vec3) * bool * gstate :=
  match pts with
  | [] => (section, is_cut, st)
  | pt :: pts' =>
      let is_cut := is_cut || is_cut_point (position pt) (k_CUTPOINT_AABB options) in
      let '(section, st) := grow_interior_point node pt is_cut section st in
      if is_cut
      then (section, is_cut, with_stats (incr_cut_nodes_found (stats st)) st)
      else walk_interior node pts' section is_cut st
  end.

(** The end node of a segment: [ndata = segm.points[-1]]. *)
Definition grow_end_node (node : handle) (ndata : point) (section : option handle)
    (is_cut : bool) (st : gstate) : gstate :=
  let scale := k_SCALING_FACTOR options in
  let npos := position ndata in
  let nposadj := vadjust_offset_length3 npos scentre (fmax 0 (sradius - diameter ndata)) in
  let is_cut := is_cut || is_cut_point npos (k_CUTPOINT_AABB options) in
  let st := if is_cut then with_stats (incr_cut_nodes_found (stats st)) st else st in
  let section :=
    match section with
    | Some _ => section
    | None => if negb (k_CLIP_INSIDE_SOMA options)
                 || (sradius + diameter ndata <=? vlength nposadj)
              then Some node else None
    end in
  if dict_mem npos (nodes st) then st
  else
    match section with
    | Some sec =>
        let spos := vmuls3 nposadj scale in
        let sdiameter := diameter ndata * scale in
        let sdiameter := if is_cut && (loglevel <=? DEBUG)%Z
                         then debug_scale_cut_point_diameter sdiameter scale
                         else sdiameter in
        let '(grown, m) := grow_section sec spos sdiameter (morphology st) in
        let m := if is_cut then sink (MarkCutPoint grown) m else m in
        grow_stats_append sec nposadj
          (with_morphology m (with_nodes (dict_set npos grown (nodes st)) st))
    | None =>
        with_nodes (dict_set npos node (nodes st)) st
    end.

(** [for segm in segments] of [grow_segments]; the result carries
    [is_parent_cut], which is true exactly when the loop left by [break]. *)
Fixpoint grow_node_segments (pnode_idx : nat) (segments : list segment)
    (is_parent_cut : bool) (st : gstate) : result (bool * gstate) :=
  match segments with
  | [] => Ok (is_parent_cut, st)
  | segm :: segments' =>
      _ ← assert (bool_decide (start segm = pnode_idx));
      match points segm with
      | ndata :: (p1 :: tl) =>
          let npos := position ndata in
          match dict_get npos (nodes st) with
          | None => Raise AssertionError
          | Some node =>
              let is_parent_cut :=
                is_parent_cut || is_cut_point npos (k_CUTPOINT_AABB options) in
              if is_parent_cut then Ok (is_parent_cut, st)
              else
                let is_cut := is_parent_cut in
                let '(section, is_cut, st) :=
                  walk_interior node (removelast (p1 :: tl)) None is_cut st in
                let st := grow_end_node node (List.last (p1 :: tl) p1) (fst <$> section)
                                        is_cut st in
                grow_node_segments pnode_idx segments' is_parent_cut st
          end
      | _ =>
          (* len(segm.points) < 2 *)
          grow_node_segments pnode_idx segments' is_parent_cut st
      end
  end.

(** [frames] is the number of nested calls of [grow_segments] that the
    recursion limit of the interpreter leaves room for: the function calls
    itself once per level of the directed graph, and a call for which no
    room is left raises [RuntimeError]. *)
Fixpoint grow_segments (frames : nat) (pnode_idx : nat) (depth : Z) (st : gstate)
    : result gstate :=
  match frames with
  | O => Raise RuntimeError
  | S frames' =>
      if (depth =? 0)%Z
      then Ok (with_stats (incr_max_grow_depth_reached (stats st)) st)
      else if bool_decide (pnode_idx ∈ visited st) then Ok st
      else
        let st := with_visited (visited st ++ [pnode_idx]) st in
        r ← grow_node_segments pnode_idx (default [] (nodesegments !! pnode_idx)) false st;
        let '(is_parent_cut, st) := (r : bool * gstate) in
        if is_parent_cut then Ok st
        else
          match dagnodes !! pnode_idx with
          | None => Raise KeyError
          | Some children =>
              foldM (fun st cn_idx =>
                       grow_segments frames' cn_idx
                                     (if (0 <? depth)%Z then depth - 1 else -1)%Z st)
                    children st
          end
  end.

(** The growth part of [create_morphology]: [grow_soma] from the empty
    table, then [grow_segments] from every soma node with a shared
    [visited] list. *)
Definition grow_morphology (frames : nat) (soma_node_idxs : list nat) (depth : Z)
    (w : warn_counts) : result gstate :=
  st ← grow_soma loglevel soma_node_idxs nodesegments scentre sradius options
                 (empty_gstate w);
  foldM (fun st snidx => grow_segments frames snidx depth st) soma_node_idxs st.

End Growth.

(** ** create_morphology *)

(** The skeleton read from the source file: the items of [skel.nodes] in
    their iteration order, and [skel.segments]. *)
Record skeleton := Skeleton { skel_nodes : list (nat * point); skel_segments : list segment }.

(** [data['soma']]. *)
Record soma_data := SomaData { centre : vec3; radius : float }.

(** The fields of the class [options] that [create_morphology] reads. *)
Record options := Options {
  verbosity_level : Z;
  threshold_segment_length : float;
  scaling_factor : float;
  allow_cycles : bool;
  graph_depth : Z;
  stack_AABB : option aabb }.

Definition make_morph_options (o : options) : morph_options :=
  MorphOptions (allow_cycles o)
               (verbosity_level o <=? NOTSET)%Z
               (threshold_segment_length o)
               (NOTSET <? verbosity_level o)%Z
               (NOTSET <? verbosity_level o)%Z
               (scaling_factor o)
               (stack_AABB o).

Definition collect_soma_nodes (pos : vec3) (radius : float) (nodes : list (nat * point))
    : list nat :=
  let rsqr := square radius in
  fst <$> filter (fun item => (distance_squared pos (position (snd item)) <=? rsqr) = true) nodes.

Definition collect_node_positions (nodes : list (nat * point)) : list vec3 :=
  (fun item => position (snd item)) <$> nodes.

(** [show_node_pos_stats] only logs, but [min] of an empty list raises
    [ValueError], and [inside_aabb(None, v)] raises [TypeError]. *)
Definition show_node_pos_stats (nodepositions : list vec3) (bb : option aabb) : result unit :=
  match nodepositions, bb with
  | [], _ => Raise ValueError
  | _ :: _, None => Raise TypeError
  | _ :: _, Some _ => Ok tt
  end.

(** [show_grow_stats] only logs, but [min(bcnts)] raises [ValueError] when
    something was grown and no handle has more than one position grown from
    it. *)
Definition show_grow_stats (grow_stats : list (handle * vec3)) : result unit :=
  let gcnts := (fun item => length (filter (fun item' => fst item' = fst item) grow_stats))
                 <$> grow_stats in
  if is_nil gcnts then Ok tt
  else if is_nil (filter (fun i => (1 < i)%nat) gcnts) then Raise ValueError
  else Ok tt.

(** The list of soma nodes handed to [validate_graph_segments]. *)
Definition validate_somanodes (morph : morph_options) (soma_node_idxs : list nat)
    : option (list nat) :=
  if k_CONNECT_SOMA_SOMA morph then Some soma_node_idxs else None.

(** [fuel] bounds the iterations of the traversal, and [frames] is the room
    that the recursion limit leaves to [grow_segments].  [show_graph_stats]
    and [show_warning_stats] log and never raise; they are left out. *)
Definition create_morphology (fuel frames : nat) (skel : skeleton) (soma : soma_data)
    (o : options) : result gstate :=
  let morph := make_morph_options o in
  let depth := graph_depth o in
  let soma_centre := centre soma in
  let soma_radius := radius soma in
  let soma_node_idxs := collect_soma_nodes soma_centre soma_radius (skel_nodes skel) in
  let npositions := collect_node_positions (skel_nodes skel) in
  _ ← show_node_pos_stats npositions (stack_AABB o);
  let node_idx_graph := create_node_graph (skel_segments skel) in
  match create_directed_graph fuel soma_node_idxs node_idx_graph morph no_warnings with
  | None => OutOfFuel
  | Some (dag_nodes, w) =>
      let '(node_segments, w) := create_node_segments_dict (skel_segments skel) dag_nodes w in
      node_segments ← validate_graph_segments dag_nodes node_segments
                                              (validate_somanodes morph soma_node_idxs);
      st ← grow_morphology (verbosity_level o) dag_nodes node_segments soma_centre soma_radius
                           morph frames soma_node_idxs depth w;
      _ ← show_grow_stats (node_grow_stats st);
      Ok st
  end.

Local Close Scope float_scope.

(** * Definitions for the statements *)

(** ** create_directed_graph *)

(** The test that accepts the edge to the neighbour [nn]. *)
Definition cdg_accept (options : morph_options) (somanodes visited : list nat) (nn : nat)
    : bool :=
  (k_CONNECT_SOMA_SOMA options || negb (bool_decide (nn ∈ somanodes)))
  && (k_ALLOW_CYCLES options || negb (bool_decide (nn ∈ visited))).

(** [k] more ignored edges. *)
Definition add_ignored_edges (k : nat) (w : warn_counts) : warn_counts :=
  WarnCounts (unconnected_segments w) (k + ignored_edges w) (max_grow_depth_reached w)
             (cut_nodes_found w) (ignored_positions w).

(** [if n not in edges: edges[n] = set()]. *)
Definition cdg_edges_init (n : nat) (E : gmap nat (list nat)) : gmap nat (list nat) :=
  if bool_decide (is_Some (E !! n)) then E else <[n := []]> E.

(** A node is reachable when it is a soma node or a neighbour of a reachable
    node. *)
Inductive reachable (nodesgraph : gmap nat (list nat)) (somanodes : list nat) : nat -> Prop :=
  | reachable_root (r : nat) : r ∈ somanodes -> reachable nodesgraph somanodes r
  | reachable_step (n nn : nat) :
      reachable nodesgraph somanodes n -> nn ∈ neighbours_of nodesgraph n ->
      reachable nodesgraph somanodes nn.

(** The nodes of a run: the soma nodes and every neighbour in the graph. *)
Definition graph_nodes (nodesgraph : gmap nat (list nat)) (somanodes : list nat) : gset nat :=
  list_to_set somanodes ∪ list_to_set (mjoin (map_to_list nodesgraph).*2).

(** A bound on the number of neighbours of a node. *)
Definition max_degree (nodesgraph : gmap nat (list nat)) : nat :=
  max_list (length <$> (map_to_list nodesgraph).*2).

(** The number of nodes of the run still to visit. *)
Definition unvisited (nodesgraph : gmap nat (list nat)) (somanodes visited : list nat) : nat :=
  size (graph_nodes nodesgraph somanodes ∖ list_to_set visited).

(** The weight of a frontier entry: with [u] nodes still to visit and
    [b = max_degree + 1], an entry of a visited node weighs [b ^ (2u + 1)] and
    an entry of a node to visit weighs [b ^ (2u)].  An iteration removes one
    entry and adds at most [max_degree] entries of nodes to visit, and the
    first entry of a node lowers [u]: the total weight goes down. *)
Definition entry_weight (nodesgraph : gmap nat (list nat)) (somanodes visited : list nat)
    (x : nat) : nat :=
  let b := S (max_degree nodesgraph) in
  let u := unvisited nodesgraph somanodes visited in
  if bool_decide (x ∈ visited) then b ^ (2 * u + 1) else b ^ (2 * u).

(** Fuel that suffices for the loop from the state [st]: the total weight of
    its frontier. *)
Definition cdg_fuel (nodesgraph : gmap nat (list nat)) (somanodes : list nat) (st : cdg_state)
    : nat :=
  sum_list (entry_weight nodesgraph somanodes (cdg_visited st) <$> cdg_frontier st).

(** The entries of the frontier are nodes of the run. *)
Definition frontier_in_graph (nodesgraph : gmap nat (list nat)) (somanodes : list nat)
    (st : cdg_state) : Prop :=
  forall x, x ∈ cdg_frontier st -> x ∈ graph_nodes nodesgraph somanodes.

(** Soma nodes are visited or queued, the neighbours of a visited node are
    visited or queued, and every visited node is a key of the edges. *)
Definition cdg_closed (somanodes : list nat) (nodesgraph : gmap nat (list nat))
    (st : cdg_state) : Prop :=
  (forall r, r ∈ somanodes -> r ∈ cdg_visited st \/ r ∈ cdg_frontier st)
  /\ (forall n nn, n ∈ cdg_visited st -> nn ∈ neighbours_of nodesgraph n ->
                   nn ∈ cdg_visited st \/ nn ∈ cdg_frontier st)
  /\ (forall n, n ∈ cdg_visited st -> is_Some (cdg_edges st !! n)).

(** *** The traversal with a deduplicated worklist

    After the words of the specification: an entry popped from the worklist
    whose node is already visited is dropped. *)
Definition cdg_step_dedup (options : morph_options) (somanodes : list nat)
    (nodesgraph : gmap nat (list nat)) (n : nat) (rest : list nat) (st : cdg_state)
    : cdg_state :=
  if bool_decide (n ∈ cdg_visited st)
  then CdgState (cdg_edges st) (cdg_visited st) rest (cdg_warn st)
  else cdg_step options somanodes nodesgraph n rest st.

Fixpoint cdg_loop_dedup (fuel : nat) (options : morph_options) (somanodes : list nat)
    (nodesgraph : gmap nat (list nat)) (st : cdg_state) : option cdg_state :=
  match cdg_frontier st with
  | [] => Some st
  | n :: rest =>
      match fuel with
      | O => None
      | S fuel' =>
          cdg_loop_dedup fuel' options somanodes nodesgraph
                         (cdg_step_dedup options somanodes nodesgraph n rest st)
      end
  end.

(** The worklist [F'] of the deduplicated traversal is the worklist [F] of
    the source without some entries, each of a node that is visited or that
    has an earlier kept entry; [seen] holds the former and the latter. *)
Inductive frontier_sim : gset nat -> list nat -> list nat -> Prop :=
  | frontier_sim_nil (seen : gset nat) : frontier_sim seen [] []
  | frontier_sim_keep (seen : gset nat) (x : nat) (F F' : list nat) :
      frontier_sim (seen ∪ {[x]}) F F' -> frontier_sim seen (x :: F) (x :: F')
  | frontier_sim_drop (seen : gset nat) (x : nat) (F F' : list nat) :
      x ∈ seen -> frontier_sim seen F F' -> frontier_sim seen (x :: F) F'.

(** The edges of every visited node hold each neighbour that the acceptance
    test lets through. *)
Definition edges_complete (options : morph_options) (somanodes : list nat)
    (nodesgraph : gmap nat (list nat)) (st : cdg_state) : Prop :=
  forall n, n ∈ cdg_visited st ->
    exists l, cdg_edges st !! n = Some l
              /\ forall nn, nn ∈ neighbours_of nodesgraph n ->
                            cdg_accept options somanodes (cdg_visited st) nn = true -> nn ∈ l.

(** The state [st] of the source and the state [st'] of the deduplicated
    traversal agree. *)
Definition dedup_sim (options : morph_options) (somanodes : list nat)
    (nodesgraph : gmap nat (list nat)) (st st' : cdg_state) : Prop :=
  cdg_edges st = cdg_edges st'
  /\ (forall x, x ∈ cdg_visited st <-> x ∈ cdg_visited st')
  /\ frontier_sim (list_to_set (cdg_visited st')) (cdg_frontier st) (cdg_frontier st')
  /\ ignored_edges (cdg_warn st') <= ignored_edges (cdg_warn st)
  /\ NoDup (cdg_visited st')
  /\ edges_complete options somanodes nodesgraph st
  /\ (forall n nn, n ∈ cdg_visited st' -> nn ∈ neighbours_of nodesgraph n ->
                   nn ∈ cdg_visited st' \/ nn ∈ cdg_frontier st').

(** ** create_node_segments_dict *)

(** [nodesegments[k]] read on the [defaultdict]. *)
Definition segments_at (nodesegments : gmap nat (list segment)) (k : nat) : list segment :=
  default [] (nodesegments !! k).

(** What the segment [s] adds to the list of key [k], after the words of the
    specification: [s] itself under its start [a] when the graph has the edge
    a -> b, then its reversed copy under its end [b] when the graph has the
    edge b -> a. *)
Definition oriented_copies (dgraph : gmap nat (list nat)) (k : nat) (s : segment)
    : list segment :=
  (if has_edge dgraph (start s) (end_ s) && bool_decide (k = start s) then [s] else [])
  ++ (if has_edge dgraph (end_ s) (start s) && bool_decide (k = end_ s)
      then [reversed_segment s] else []).

(** Neither direction of [s] is an edge of the graph. *)
Definition unconnected (dgraph : gmap nat (list nat)) (s : segment) : bool :=
  negb (has_edge dgraph (start s) (end_ s)) && negb (has_edge dgraph (end_ s) (start s)).

(** ** Growth *)

(** A call to [grow], with or without a section type. *)
Definition is_grow_call (c : sink_call) : bool :=
  match c with
  | GrowSection _ _ _ _ | GrowPoint _ _ _ => true
  | _ => false
  end.


(** The number of points grown so far: the calls to [grow] received. *)
Definition grown_points (st : gstate) : nat :=
  length (filter (fun c => is_grow_call c = true) (calls (morphology st))).

(** The options with another minimum squared distance. *)
Definition with_threshold (t : float) (o : morph_options) : morph_options :=
  MorphOptions (k_ALLOW_CYCLES o) (k_CONNECT_SOMA_SOMA o) t (k_CLIP_INSIDE_SOMA o)
               (k_INFLATE_SOMA o) (k_SCALING_FACTOR o) (k_CUTPOINT_AABB o).

(** The table [l] comes from the table [old] by assignments to positions
    that were absent when they were assigned. *)
Inductive extends_fresh (old : list (vec3 * handle)) : list (vec3 * handle) -> Prop :=
  | extends_fresh_refl : extends_fresh old old
  | extends_fresh_bind (k : vec3) (h : handle) (l : list (vec3 * handle)) :
      extends_fresh old l -> dict_mem k l = false -> extends_fresh old (dict_set k h l).


(** The sections created by the calls to [grow] with a section type. *)
Fixpoint grown_sections (cs : list sink_call) : list nat :=
  match cs with
  | [] => []
  | GrowSection _ _ _ (HSection i) :: cs' => i :: grown_sections cs'
  | _ :: cs' => grown_sections cs'
  end.

(** No section is created twice, and the next section is a new one. *)
Definition morph_wf (m : morph) : Prop :=
  NoDup (grown_sections (calls m))
  /\ forall i, i ∈ grown_sections (calls m) -> i < next_section m.

(** What a step of the growth keeps: bindings are only added, for absent
    positions; [visited] is left alone; sections stay distinct. *)
Definition grows (st st' : gstate) : Prop :=
  extends_fresh (nodes st) (nodes st')
  /\ visited st' = visited st
  /\ (morph_wf (morphology st) -> morph_wf (morphology st')).

(** What a call of [grow_segments] keeps: as [grows], but [visited] may get
    new nodes, none twice. *)
Definition expands (st st' : gstate) : Prop :=
  extends_fresh (nodes st) (nodes st')
  /\ (forall x, x ∈ visited st -> x ∈ visited st')
  /\ (NoDup (visited st) -> NoDup (visited st'))
  /\ (morph_wf (morphology st) -> morph_wf (morphology st')).

(** The nodes of the directed graph that are not visited yet. *)
Definition pending (dagnodes : gmap nat (list nat)) (st : gstate) : nat :=
  size (dom dagnodes ∖ list_to_set (visited st)).

(** What [grow_soma] keeps from the empty state: nothing is visited and
    sections stay distinct; with [k_INFLATE_SOMA] every binding is to the
    soma. *)
Definition soma_grown (options : morph_options) (st : gstate) : Prop :=
  (k_INFLATE_SOMA options = true -> forall k h, (k, h) ∈ nodes st -> h = HSoma)
  /\ visited st = []
  /\ morph_wf (morphology st).


(** ** The node graph and the directed graph *)

(** The segment [s] joins the node [a] to the node [b], in either direction. *)
Definition joins (s : segment) (a b : nat) : Prop :=
  (start s = a /\ end_ s = b) \/ (end_ s = a /\ start s = b).

(** The edges of the directed graph leave visited nodes along edges of the
    node graph, towards nodes that may be children under the options, and the
    children of a node are listed once. *)
Definition cdg_sound (options : morph_options) (somanodes : list nat)
    (nodesgraph : gmap nat (list nat)) (st : cdg_state) : Prop :=
  forall a l, cdg_edges st !! a = Some l ->
    a ∈ cdg_visited st /\ NoDup l
    /\ forall b, b ∈ l -> b ∈ neighbours_of nodesgraph a
                          /\ (k_CONNECT_SOMA_SOMA options = false -> b ∉ somanodes).

(** The visited and the queued nodes are reachable, and each is a soma node
    or a child of a node of the directed graph. *)
Definition cdg_reached (somanodes : list nat) (nodesgraph : gmap nat (list nat))
    (st : cdg_state) : Prop :=
  forall x, x ∈ cdg_visited st \/ x ∈ cdg_frontier st ->
    reachable nodesgraph somanodes x
    /\ (x ∈ somanodes \/ exists a, has_edge (cdg_edges st) a x = true).

(** The position of the first visit of [x] in the list [V] of visits, or the
    length of [V] when [x] is not visited. *)
Fixpoint visit_rank (x : nat) (V : list nat) : nat :=
  match V with
  | [] => 0
  | y :: V' => if bool_decide (y = x) then 0 else S (visit_rank x V')
  end.

(** Every edge of the directed graph goes from a visited node to a node that
    is first visited later, or not yet. *)
Definition cdg_ranked (st : cdg_state) : Prop :=
  forall a b, has_edge (cdg_edges st) a b = true ->
    a ∈ cdg_visited st /\ visit_rank a (cdg_visited st) < visit_rank b (cdg_visited st).

(** ** The segments dictionary and its validation *)

(** The read [nodesegments[k]] on the [defaultdict]: an absent key is added
    with the empty list. *)
Definition segments_read (k : nat) (nodesegments : gmap nat (list segment))
    : gmap nat (list segment) :=
  match nodesegments !! k with
  | Some _ => nodesegments
  | None => <[k := []]> nodesegments
  end.

(** Every child of a node of the directed graph ends a segment filed under
    the node. *)
Definition dag_covered (dgraph : gmap nat (list nat))
    (nodesegments : gmap nat (list segment)) : Prop :=
  forall nidx c, has_edge dgraph nidx c = true -> c ∈ end_ <$> segments_at nodesegments nidx.

(** Every key of the dictionary is a node of the directed graph, and every
    segment filed under a key starts at the key and ends at a node of the
    graph. *)
Definition segments_rooted (dgraph : gmap nat (list nat))
    (nodesegments : gmap nat (list segment)) : Prop :=
  forall nidx csegms, nodesegments !! nidx = Some csegms ->
    is_Some (dgraph !! nidx)
    /\ forall s, s ∈ csegms -> start s = nidx /\ is_Some (dgraph !! end_ s).

(** The dictionary with every node of the directed graph as a key, with the
    empty list where the key was absent. *)
Definition with_dag_keys (dgraph : gmap nat (list nat))
    (nodesegments : gmap nat (list segment)) : gmap nat (list segment) :=
  nodesegments ∪ ((fun _ : list nat => @nil segment) <$> dgraph).

(** ** The counters of the graph stage *)

(** The growth leaves the counters of the graph stage alone, and the counter
    of the depth limit when [frozen_depth] holds. *)
Definition keeps_graph_counters (frozen_depth : bool) (st st' : gstate) : Prop :=
  unconnected_segments (stats st') = unconnected_segments (stats st)
  /\ ignored_edges (stats st') = ignored_edges (stats st)
  /\ (frozen_depth = true ->
      max_grow_depth_reached (stats st') = max_grow_depth_reached (stats st)).

(** ** The segments that are kept *)

(** The two nodes may be joined by an edge of the directed graph: they
    differ, and neither is a soma node unless soma nodes may be connected. *)
Definition may_connect (options : morph_options) (somanodes : list nat) (a b : nat) : Prop :=
  a <> b /\ (k_CONNECT_SOMA_SOMA options = false -> (a ∉ somanodes) /\ (b ∉ somanodes)).

(** Every edge of the node graph that leaves a visited node and may be kept
    is kept in one direction at least. *)
Definition cdg_oriented (options : morph_options) (somanodes : list nat)
    (nodesgraph : gmap nat (list nat)) (st : cdg_state) : Prop :=
  forall a b, a ∈ cdg_visited st -> b ∈ neighbours_of nodesgraph a ->
    may_connect options somanodes a b ->
    has_edge (cdg_edges st) a b = true \/ has_edge (cdg_edges st) b a = true.

(** ** Clipping inside the soma *)

(** The test of [grow_segments] that lets an interior sample start a
    section: the sample is outside the soma, by more than its diameter. *)
Definition leaves_soma (scentre : vec3) (sradius : float) (pt : point) : bool :=
  (sradius + diameter pt <? vlength (vadjust_offset_length3 (position pt) scentre 0))%float.

(** The test of [grow_segments] that lets an end node be grown from the
    start node when no section was started. *)
Definition end_leaves_soma (scentre : vec3) (sradius : float) (ndata : point) : bool :=
  (sradius + diameter ndata
   <=? vlength (vadjust_offset_length3 (position ndata) scentre
                                       (fmax 0 (sradius - diameter ndata))))%float.

(** * Scenarios *)

(** A sample on the x axis, of diameter 1. *)
Definition sample (x : float) : point := Point (V3 x 0 0) 1.

(** The options of the command line when none is given (verbosity INFO), the
    same with verbosity 0, and the [morph_options] of the former. *)
Definition default_options : options := Options INFO 0 1 false (-1) None.
Definition inflate_options : morph_options := MorphOptions false false 0 true true 1 None.

(** Scenario A: the path graph 1-2-3-4. *)
Definition segments_A : list segment :=
  [Segment 1 2 [sample 1; sample 2]; Segment 2 3 [sample 2; sample 3];
   Segment 3 4 [sample 3; sample 4]].
Definition dag_A : gmap nat (list nat) :=
  <[1 := [2]]> (<[2 := [3]]> (<[3 := [4]]> (<[4 := []]> ∅))).
Definition node_segments_A : gmap nat (list segment) :=
  <[1 := [Segment 1 2 [sample 1; sample 2]]]>
    (<[2 := [Segment 2 3 [sample 2; sample 3]]]>
       (<[3 := [Segment 3 4 [sample 3; sample 4]]]> ∅)).

(** Scenario B: a triangle with the soma node 1. *)
Definition segments_B : list segment :=
  [Segment 1 2 [sample 1; sample 2]; Segment 2 3 [sample 2; sample 3];
   Segment 3 1 [sample 3; sample 1]].
Definition dag_B : gmap nat (list nat) := <[1 := [2; 3]]> (<[2 := [3]]> (<[3 := []]> ∅)).

(** Scenario D: the soma is the unit ball at the origin and the valid volume
    the cube of side 20 around it; the segment from the root 1 to node 2
    leaves the volume at its second sample, and node 2 has the child 3. *)
Definition box_D : aabb := AABB (V3 (-10) (-10) (-10)) (V3 10 10 10).
Definition options_D : morph_options := MorphOptions false false 0 true true 1 (Some box_D).
Definition segments_D : list segment :=
  [Segment 1 2 [sample 0.5; sample 20; sample 5]; Segment 2 3 [sample 5; sample 6]].
Definition dag_D : gmap nat (list nat) := <[1 := [2]]> (<[2 := [3]]> (<[3 := []]> ∅)).
Definition node_segments_D : gmap nat (list segment) :=
  <[1 := [Segment 1 2 [sample 0.5; sample 20; sample 5]]]>
    (<[2 := [Segment 2 3 [sample 5; sample 6]]]> ∅).
Definition growth_D : result gstate :=
  grow_morphology INFO dag_D node_segments_D (V3 0 0 0) 1 options_D 4 [1] (-1) no_warnings.


(** A soma node exactly at the soma centre (1, 2, 3). *)
Definition centre_R : vec3 := V3 1 2 3.
Definition node_segments_R : gmap nat (list segment) :=
  {[ 1 := [Segment 1 2 [Point centre_R 1; Point (V3 9 2 3) 1]] ]}.

(** Interior samples at x = 20, 30, 39, 23: the polyline turns back. *)
Definition zigzag_interior : list point := [sample 20; sample 30; sample 39; sample 23].

(** The interior walk of one segment from the soma (the unit ball at the
    origin), at threshold [t]. *)
Definition interior_walk (t : float) (o : morph_options) (pts : list point) : gstate :=
  (walk_interior INFO (V3 0 0 0) 1 (with_threshold t o) HSoma pts None false
                 (empty_gstate no_warnings)).2.

(** The same samples as the interior of the one segment of a skeleton whose
    root, node 1, lies in the soma, and the growth of that skeleton at
    threshold [t]. *)
Definition zigzag_segment : segment :=
  Segment 1 2 (sample 0.5 :: zigzag_interior ++ [sample 50]).
Definition zigzag_dag : gmap nat (list nat) := <[1 := [2]]> (<[2 := []]> ∅).
Definition zigzag_node_segments : gmap nat (list segment) := {[ 1 := [zigzag_segment] ]}.
Definition zigzag_growth (t : float) : result gstate :=
  grow_morphology INFO zigzag_dag zigzag_node_segments (V3 0 0 0) 1
                  (with_threshold t inflate_options) 3 [1] (-1) no_warnings.

(** A soma node with two outgoing segments, and its growth with the options
    [o]. *)
Definition segments_fork : list segment :=
  [Segment 1 2 [sample 0.5; sample 5]; Segment 1 3 [sample 0.5; sample (-5)]].

(** Options that allow cycles and keep soma nodes apart. *)
Definition cyclic_options : morph_options := MorphOptions true false 0 true true 1 None.

(** A root at x = 20, outside the box of scenario D, bound to the soma, with
    one segment. *)
Definition node_segments_outside : gmap nat (list segment) :=
  {[ 1 := [Segment 1 2 [sample 20; sample 21]] ]}.
Definition root_outside : gstate :=
  GState [(position (sample 20), HSoma)] [] empty_morph no_warnings [].

(** A skeleton of one segment, from x = 10 to x = 11, far from the soma (the
    unit ball at the origin), and options with the box of scenario D. *)
Definition skel_far : skeleton :=
  Skeleton [(1, sample 10); (2, sample 11)] [Segment 1 2 [sample 10; sample 11]].
Definition soma_unit : soma_data := SomaData (V3 0 0 0) 1.
Definition options_box : options := Options INFO 0 1 false (-1) (Some box_D).

(** The unit cube. *)
Definition unit_box : aabb := AABB (V3 0 0 0) (V3 1 1 1).

(** A skeleton without branches: the path 1-2-3 from the soma. *)
Definition skel_path : skeleton :=
  Skeleton [(1, sample 0.5); (2, sample 2); (3, sample 3)]
           [Segment 1 2 [sample 0.5; sample 2]; Segment 2 3 [sample 2; sample 3]].

(** A segment that stays inside the soma (the unit ball at the origin), and
    a state in which its start is bound to the soma. *)
Definition segment_inside : segment := Segment 1 2 [sample 0.5; sample 0.625; sample 0.75].
Definition root_inside : gstate :=
  GState [(position (sample 0.5), HSoma)] [1] empty_morph no_warnings [].

(** A skeleton with a branch at the soma: the segments of the fork, and its
    nodes. *)
Definition skel_fork : skeleton :=
  Skeleton [(1, sample 0.5); (2, sample 5); (3, sample (-5))] segments_fork.

(** * Properties *)

(* [set_solver] clears hypotheses by name; the warning for a name that is
   not there is of no interest here. *)
#[local] Set Warnings "-clear-no-such-hyp".

(** ** Facts on binary64 comparisons *)

Lemma SFcompare_antisym (a b : spec_float) :
  SFcompare b a = option_map CompOpp (SFcompare a b).
Proof.
  destruct a as [sa|sa| |sa ma ea], b as [sb|sb| |sb mb eb]; simpl; try reflexivity;
    try (destruct sa; reflexivity); try (destruct sb; reflexivity);
    try (destruct sa, sb; reflexivity).
  destruct sa, sb; simpl; try reflexivity.
  - rewrite (Z.compare_antisym ea eb).
    destruct (ea ?= eb)%Z; simpl; try reflexivity.
    rewrite (Pos.compare_cont_antisym _ _ Eq). simpl.
    destruct (Pos.compare_cont Eq ma mb); reflexivity.
  - rewrite (Z.compare_antisym ea eb).
    destruct (ea ?= eb)%Z; simpl; try reflexivity.
    rewrite (Pos.compare_cont_antisym _ _ Eq). simpl. reflexivity.
Qed.

Lemma feqb_sym (x y : float) : (x =? y)%float = (y =? x)%float.
Proof.
  rewrite !FloatAxioms.eqb_spec. unfold SFeqb.
  rewrite (SFcompare_antisym (Prim2SF y) (Prim2SF x)).
  destruct (SFcompare (Prim2SF y) (Prim2SF x)) as [[]|]; reflexivity.
Qed.

Lemma feqb_ltb_false (x y : float) : (x =? y)%float = true -> (x <? y)%float = false.
Proof.
  rewrite FloatAxioms.eqb_spec, FloatAxioms.ltb_spec. unfold SFeqb, SFltb.
  destruct (SFcompare (Prim2SF x) (Prim2SF y)) as [[]|]; congruence.
Qed.

Lemma feqb_gtb_false (x y : float) : (x =? y)%float = true -> (y <? x)%float = false.
Proof. rewrite feqb_sym. apply feqb_ltb_false. Qed.

(** ** is_cut_point *)

(** C10: [is_cut_point] is true exactly when an AABB is configured and the
    position is not strictly inside it; a position that lies on a face of
    the AABB, margin-adjusted or not, is a cut point; with no AABB no position
    is a cut point.  Strictly inside means that each coordinate is strictly
    above that of the min corner and strictly below that of the max corner:
    such a position, and no other, is not a cut point of the AABB. *)
Theorem is_cut_point_classification (pos : vec3) (bb : option aabb) :
  (is_cut_point pos bb = true <-> exists b, bb = Some b /\ inside_aabb b pos = false)
  /\ (forall b, on_face b pos = true -> is_cut_point pos (Some b) = true)
  /\ (forall b n, on_face (adjust_aabb b n) pos = true ->
                  is_cut_point pos (Some (adjust_aabb b n)) = true)
  /\ is_cut_point pos None = false
  /\ (forall b,
        is_cut_point pos (Some b) = false
        <-> ((vx (aabb_min b) <? vx pos)%float = true
             /\ (vy (aabb_min b) <? vy pos)%float = true
             /\ (vz (aabb_min b) <? vz pos)%float = true)
            /\ ((vx pos <? vx (aabb_max b))%float = true
                /\ (vy pos <? vy (aabb_max b))%float = true
                /\ (vz pos <? vz (aabb_max b))%float = true)).
Proof.
  assert (Hface : forall b, on_face b pos = true -> is_cut_point pos (Some b) = true).
  { intros b. unfold on_face, is_cut_point, inside_aabb.
    rewrite !orb_true_iff, negb_true_iff.
    intros [[[[[H|H]|H]|H]|H]|H];
      first [ rewrite (feqb_gtb_false _ _ H) | rewrite (feqb_ltb_false _ _ H) ];
      rewrite ?andb_false_r, ?andb_false_l; reflexivity. }
  split; [|split; [exact Hface|split; [intros b n; apply Hface | split; [reflexivity|]]]].
  - destruct bb as [b|]; simpl.
    + rewrite negb_true_iff. split.
      * intros H. exists b. by split.
      * intros (b' & [= <-] & H). exact H.
    + split; [discriminate|]. intros (b & H & _). discriminate.
  - intros b. unfold is_cut_point, inside_aabb. cbv zeta.
    rewrite negb_false_iff, !andb_true_iff. tauto.
Qed.

(** ** The offset of a soma node *)

(** C8, the code at the failing input: for a soma node that lies exactly at
    the soma centre (1, 2, 3), with radius 5, [vadjust_offset_length3] returns
    the zero vector, whose length 0 is below the radius, and [grow_soma]
    inserts the surface point (0, 0, 0). *)
Theorem root_at_soma_centre_has_zero_offset :
  vadjust_offset_length3 centre_R centre_R 5 = V3 0 0 0
  /\ (vlength (vadjust_offset_length3 centre_R centre_R 5) <? 5)%float = true
  /\ grow_soma INFO [1] node_segments_R centre_R 5 inflate_options (empty_gstate no_warnings)
     = Ok (GState [(centre_R, HSoma)] [] (Morph [SurfaceInsert (V3 0 0 0)] 0) no_warnings []).
Proof. repeat split; vm_compute; reflexivity. Qed.

(** ** The exception monad *)

Lemma bind_Ok {A B : Type} (f : A -> result B) (a : A) : Ok a ≫= f = f a.
Proof. reflexivity. Qed.

Lemma bind_Raise {A B : Type} (f : A -> result B) (e : exn) : Raise e ≫= f = Raise e.
Proof. reflexivity. Qed.

Lemma bind_OutOfFuel {A B : Type} (f : A -> result B) : OutOfFuel ≫= f = OutOfFuel.
Proof. reflexivity. Qed.

Lemma assert_true : assert true = Ok tt.
Proof. reflexivity. Qed.

Lemma assert_false : assert false = Raise AssertionError.
Proof. reflexivity. Qed.

Lemma foldM_cons {A S : Type} (f : S -> A -> result S) (a : A) (l : list A) (s : S) :
  foldM f (a :: l) s = f s a ≫= foldM f l.
Proof. reflexivity. Qed.

Ltac simpl_result :=
  repeat first
    [ rewrite bind_Ok | rewrite bind_Raise | rewrite bind_OutOfFuel
    | rewrite assert_true | rewrite assert_false ].

(** A loop whose body raises only exceptions in [P]. *)
Lemma foldM_raises {A S : Type} (P : exn -> Prop) (f : S -> A -> result S)
    (l : list A) (s : S) :
  (forall s a, a ∈ l -> match f s a with Raise e => P e | _ => True end) ->
  match foldM f l s with Raise e => P e | _ => True end.
Proof.
  revert s. induction l as [|a l IH]; intros s Hf; [done|].
  rewrite foldM_cons. pose proof (Hf s a (list_elem_of_here _ _)) as Ha.
  destruct (f s a) as [s1| |]; simpl_result; [|done..].
  apply IH. intros s' a' Ha'. apply Hf. by apply list_elem_of_further.
Qed.

(** ** create_directed_graph: fuel *)

Lemma cdg_loop_fuel_mono options somanodes nodesgraph (fuel fuel' : nat) st st' :
  cdg_loop fuel options somanodes nodesgraph st = Some st' ->
  (fuel <= fuel')%nat ->
  cdg_loop fuel' options somanodes nodesgraph st = Some st'.
Proof.
  revert fuel' st. induction fuel as [|fuel IH]; intros fuel' st H Hle.
  - destruct fuel'; simpl in *; destruct (cdg_frontier st); congruence.
  - destruct fuel' as [|fuel']; [lia|]. simpl in *.
    destruct (cdg_frontier st); [assumption|]. apply IH; [assumption|lia].
Qed.

Lemma create_directed_graph_fuel_mono options somanodes nodesgraph stats (fuel fuel' : nat) r :
  create_directed_graph fuel somanodes nodesgraph options stats = Some r ->
  (fuel <= fuel')%nat ->
  create_directed_graph fuel' somanodes nodesgraph options stats = Some r.
Proof.
  unfold create_directed_graph. intros H Hle.
  destruct (cdg_loop fuel _ _ _ _) as [st|] eqn:E; [|discriminate].
  by rewrite (cdg_loop_fuel_mono _ _ _ _ _ _ _ E Hle).
Qed.

(** ** create_directed_graph: the loop body *)

Section DirectedGraph.
Variables (options : morph_options) (somanodes : list nat).
Variable nodesgraph : gmap nat (list nat).

Lemma cdg_fold_spec (n : nat) (nbrs : list nat) (st : cdg_state) :
  let r := fold_left (cdg_neighbour options somanodes n) nbrs st in
  cdg_visited r = cdg_visited st
  /\ cdg_frontier r = cdg_frontier st ++ filter (fun nn => nn ∉ cdg_visited st) nbrs
  /\ cdg_edges r
     = fold_left (fun E nn => if cdg_accept options somanodes (cdg_visited st) nn
                              then graph_add n nn E else E) nbrs (cdg_edges st)
  /\ cdg_warn r
     = add_ignored_edges
         (length (filter (fun nn => cdg_accept options somanodes (cdg_visited st) nn = false)
                         nbrs))
         (cdg_warn st).
Proof.
  revert st. induction nbrs as [|nn nbrs IH]; intros st; cbv zeta; cbn [fold_left].
  - rewrite app_nil_r. repeat split. by destruct (cdg_warn st).
  - specialize (IH (cdg_neighbour options somanodes n st nn)). cbv zeta in IH.
    destruct IH as (IHv & IHf & IHe & IHw).
    assert (cdg_visited (cdg_neighbour options somanodes n st nn) = cdg_visited st) as Hv.
    { unfold cdg_neighbour. by destruct (_ && _). }
    rewrite IHv, IHf, IHe, IHw, !Hv. rewrite !filter_cons.
    unfold cdg_neighbour, cdg_accept.
    destruct (decide (nn ∈ cdg_visited st)) as [Hin|Hin].
    + rewrite (bool_decide_eq_true_2 _ Hin). rewrite decide_False by tauto.
      destruct (_ && _) eqn:E; cbn [cdg_frontier cdg_edges cdg_warn cdg_visited].
      * rewrite decide_False by congruence. done.
      * rewrite decide_True by done. repeat split.
        destruct (cdg_warn st). unfold add_ignored_edges, incr_ignored_edges. simpl.
        f_equal. lia.
    + rewrite (bool_decide_eq_false_2 _ Hin). rewrite decide_True by tauto.
      destruct (_ && _) eqn:E; cbn [cdg_frontier cdg_edges cdg_warn cdg_visited].
      * rewrite decide_False by congruence. rewrite <- app_assoc. done.
      * rewrite decide_True by done. rewrite <- app_assoc. repeat split.
        destruct (cdg_warn st). unfold add_ignored_edges, incr_ignored_edges. simpl.
        f_equal. lia.
Qed.

Lemma cdg_step_spec (n : nat) (rest : list nat) (st : cdg_state) :
  let V := cdg_visited st ++ [n] in
  let nbrs := neighbours_of nodesgraph n in
  let r := cdg_step options somanodes nodesgraph n rest st in
  cdg_visited r = V
  /\ cdg_frontier r = rest ++ filter (fun nn => nn ∉ V) nbrs
  /\ cdg_edges r
     = fold_left (fun E nn => if cdg_accept options somanodes V nn
                              then graph_add n nn E else E) nbrs
                 (cdg_edges_init n (cdg_edges st))
  /\ cdg_warn r
     = add_ignored_edges
         (length (filter (fun nn => cdg_accept options somanodes V nn = false) nbrs))
         (cdg_warn st).
Proof.
  exact (cdg_fold_spec n (neighbours_of nodesgraph n)
           (CdgState (cdg_edges_init n (cdg_edges st)) (cdg_visited st ++ [n]) rest
                     (cdg_warn st))).
Qed.

(** *** Termination *)

Lemma sum_list_fmap_app (f : nat -> nat) (l1 l2 : list nat) :
  sum_list (f <$> l1 ++ l2) = (sum_list (f <$> l1) + sum_list (f <$> l2))%nat.
Proof. induction l1 as [|x l1 IH]; csimpl; [done|]. rewrite IH. lia. Qed.

Lemma sum_list_fmap_le (f g : nat -> nat) (l : list nat) :
  (forall x, f x <= g x) -> sum_list (f <$> l) <= sum_list (g <$> l).
Proof.
  intros H. induction l as [|x l IH]; csimpl; [done|]. specialize (H x). lia.
Qed.

Lemma neighbours_in_graph_nodes (n nn : nat) :
  nn ∈ neighbours_of nodesgraph n -> nn ∈ graph_nodes nodesgraph somanodes.
Proof.
  unfold neighbours_of, graph_nodes. intros Hnn.
  destruct (nodesgraph !! n) as [l|] eqn:E; simpl in Hnn; [|by apply elem_of_nil in Hnn].
  apply elem_of_union_r, elem_of_list_to_set, list_elem_of_join.
  exists l. split; [done|]. apply list_elem_of_fmap. exists (n, l).
  split; [done|]. by apply elem_of_map_to_list.
Qed.

Lemma neighbours_length (n : nat) :
  length (neighbours_of nodesgraph n) <= max_degree nodesgraph.
Proof.
  unfold neighbours_of, max_degree.
  destruct (nodesgraph !! n) as [l|] eqn:E; simpl; [|lia].
  apply max_list_elem_of_le, list_elem_of_fmap. exists l. split; [done|].
  apply list_elem_of_fmap. exists (n, l). split; [done|]. by apply elem_of_map_to_list.
Qed.

Lemma unvisited_again (V : list nat) (n : nat) :
  n ∈ V ->
  unvisited nodesgraph somanodes (V ++ [n]) = unvisited nodesgraph somanodes V.
Proof.
  intros Hn. unfold unvisited. f_equal. rewrite list_to_set_app_L. simpl.
  assert (n ∈ (list_to_set V : gset nat)) by (by apply elem_of_list_to_set).
  set_solver.
Qed.

Lemma unvisited_new (V : list nat) (n : nat) :
  n ∉ V -> n ∈ graph_nodes nodesgraph somanodes ->
  unvisited nodesgraph somanodes V = S (unvisited nodesgraph somanodes (V ++ [n])).
Proof.
  intros Hn Hg. unfold unvisited. rewrite list_to_set_app_L. simpl.
  set (U := graph_nodes nodesgraph somanodes) in *.
  set (S0 := list_to_set V : gset nat).
  assert (n ∉ S0) as Hn' by (subst S0; by rewrite elem_of_list_to_set).
  replace (U ∖ S0) with ({[n]} ∪ U ∖ (S0 ∪ ({[n]} ∪ ∅))).
  - rewrite size_union by set_solver. rewrite size_singleton. lia.
  - apply set_eq. intros x. destruct (decide (x = n)); set_solver.
Qed.

Lemma entry_weight_pos (V : list nat) (x : nat) :
  0 < entry_weight nodesgraph somanodes V x.
Proof.
  unfold entry_weight. cbv zeta. destruct (bool_decide _);
    apply Nat.neq_0_lt_0, Nat.pow_nonzero; lia.
Qed.

Lemma cdg_step_fuel (n : nat) (rest : list nat) (st : cdg_state) :
  cdg_frontier st = n :: rest ->
  n ∈ graph_nodes nodesgraph somanodes ->
  cdg_fuel nodesgraph somanodes (cdg_step options somanodes nodesgraph n rest st)
  < cdg_fuel nodesgraph somanodes st.
Proof.
  intros HF Hn. unfold cdg_fuel.
  destruct (cdg_step_spec n rest st) as (Hv & Hf & _). cbv zeta in Hv, Hf.
  rewrite Hv, Hf, HF, sum_list_fmap_app, fmap_cons. cbn [sum_list].
  set (V := cdg_visited st). set (V' := V ++ [n]).
  set (P := filter (fun nn => nn ∉ V') (neighbours_of nodesgraph n)).
  set (b := S (max_degree nodesgraph)).
  set (u' := unvisited nodesgraph somanodes V').
  assert (sum_list (entry_weight nodesgraph somanodes V' <$> P) <= max_degree nodesgraph * b ^ (2 * u'))
    as HP.
  { rewrite (sum_list_fmap_same (b ^ (2 * u'))).
    - apply Nat.mul_le_mono_r. subst P. etrans; [apply length_filter|].
      apply neighbours_length.
    - subst P. apply Forall_forall. intros x Hx.
      apply list_elem_of_filter in Hx as [Hx _].
      unfold entry_weight. cbv zeta. by rewrite bool_decide_eq_false_2. }
  assert (0 < b ^ (2 * u')) as Hpos by (apply Nat.neq_0_lt_0, Nat.pow_nonzero; lia).
  destruct (decide (n ∈ V)) as [Hin|Hin].
  - assert (u' = unvisited nodesgraph somanodes V) as Hu by (by apply unvisited_again).
    assert (forall x, entry_weight nodesgraph somanodes V' x
                      = entry_weight nodesgraph somanodes V x) as Hw.
    { intros x. unfold entry_weight. cbv zeta. fold u'. rewrite <- Hu.
      rewrite (bool_decide_ext (x ∈ V') (x ∈ V)); [done|].
      subst V'. rewrite elem_of_app, list_elem_of_singleton.
      split; [intros [? | ->]; done | auto]. }
    rewrite (list_fmap_ext (entry_weight nodesgraph somanodes V')
               (entry_weight nodesgraph somanodes V) rest) by (intros; apply Hw).
    assert (entry_weight nodesgraph somanodes V n = b ^ (2 * u' + 1)) as ->.
    { unfold entry_weight. cbv zeta. rewrite bool_decide_eq_true_2 by done.
      by rewrite <- Hu. }
    replace (b ^ (2 * u' + 1)) with (b * b ^ (2 * u'))
      by (rewrite Nat.add_1_r, Nat.pow_succ_r'; done).
    generalize dependent (b ^ (2 * u')). intros X HP Hpos.
    generalize dependent (sum_list (entry_weight nodesgraph somanodes V' <$> P)).
    intros sP HP. subst b. unfold id in *. nia.
  - assert (unvisited nodesgraph somanodes V = S u') as Hu by (by apply unvisited_new).
    assert (forall x, entry_weight nodesgraph somanodes V' x
                      <= entry_weight nodesgraph somanodes V x) as Hw.
    { intros x. unfold entry_weight. cbv zeta. fold u'. rewrite Hu.
      replace (2 * S u') with (S (S (2 * u'))) by lia.
      rewrite !Nat.add_1_r, !Nat.pow_succ_r'. fold b.
      assert (forall c, c <= b * c) as Hb by (intros c; subst b; lia).
      pose proof (Hb (b ^ (2 * u'))). pose proof (Hb (b * b ^ (2 * u'))).
      pose proof (Hb (b * (b * b ^ (2 * u')))).
      destruct (bool_decide (x ∈ V')), (bool_decide (x ∈ V)); lia. }
    pose proof (sum_list_fmap_le _ _ rest Hw) as Hrest.
    assert (entry_weight nodesgraph somanodes V n = b ^ (2 * S u')) as ->.
    { unfold entry_weight. cbv zeta. rewrite bool_decide_eq_false_2 by done.
      by rewrite Hu. }
    replace (2 * S u') with (S (S (2 * u'))) by lia.
    rewrite !Nat.pow_succ_r'.
    generalize dependent (b ^ (2 * u')). intros X HP Hpos.
    generalize dependent (sum_list (entry_weight nodesgraph somanodes V' <$> P)).
    intros sP HP. subst b. unfold id in *.
    assert (max_degree nodesgraph * X < S (max_degree nodesgraph) * (S (max_degree nodesgraph) * X))
      by nia.
    lia.
Qed.

Lemma cdg_step_frontier_in_graph (n : nat) (rest : list nat) (st : cdg_state) :
  cdg_frontier st = n :: rest -> frontier_in_graph nodesgraph somanodes st ->
  frontier_in_graph nodesgraph somanodes (cdg_step options somanodes nodesgraph n rest st).
Proof.
  intros HF Hin x. destruct (cdg_step_spec n rest st) as (_ & Hf & _). cbv zeta in Hf.
  rewrite Hf, elem_of_app. intros [Hx|Hx].
  - apply Hin. rewrite HF. by apply list_elem_of_further.
  - apply list_elem_of_filter in Hx as [_ Hx]. by eapply neighbours_in_graph_nodes.
Qed.

Lemma cdg_loop_terminates (fuel : nat) (st : cdg_state) :
  frontier_in_graph nodesgraph somanodes st -> cdg_fuel nodesgraph somanodes st <= fuel ->
  is_Some (cdg_loop fuel options somanodes nodesgraph st).
Proof.
  revert st. induction fuel as [|fuel IH]; intros st Hin Hfuel.
  - destruct (cdg_frontier st) as [|n rest] eqn:HF; simpl; rewrite HF; [eauto|].
    exfalso. unfold cdg_fuel in Hfuel. rewrite HF in Hfuel. simpl in Hfuel.
    pose proof (entry_weight_pos (cdg_visited st) n). lia.
  - destruct (cdg_frontier st) as [|n rest] eqn:HF; simpl; rewrite HF; [eauto|].
    apply IH.
    + by apply cdg_step_frontier_in_graph.
    + assert (n ∈ graph_nodes nodesgraph somanodes) as Hn
        by (apply Hin; rewrite HF; apply list_elem_of_here).
      pose proof (cdg_step_fuel n rest st HF Hn). lia.
Qed.

Lemma cdg_init_frontier_in_graph (stats : warn_counts) :
  frontier_in_graph nodesgraph somanodes (cdg_init somanodes stats).
Proof.
  intros x Hx. simpl in Hx. unfold graph_nodes.
  by apply elem_of_union_l, elem_of_list_to_set.
Qed.

End DirectedGraph.

(** ** create_directed_graph: reachability *)

Lemma graph_add_is_Some (a b k : nat) (E : gmap nat (list nat)) :
  is_Some (E !! k) -> is_Some (graph_add a b E !! k).
Proof.
  unfold graph_add. intros H. destruct (decide (a = k)) as [->|Hne].
  - rewrite lookup_insert_eq. eauto.
  - by rewrite lookup_insert_ne.
Qed.

Lemma cdg_edges_init_is_Some (n k : nat) (E : gmap nat (list nat)) :
  is_Some (cdg_edges_init n E !! k) <-> is_Some (E !! k) \/ k = n.
Proof.
  unfold cdg_edges_init. case_bool_decide as Hn.
  - split; [auto|]. intros [?| ->]; done.
  - destruct (decide (k = n)) as [->|Hne].
    + rewrite lookup_insert_eq. split; eauto.
    + rewrite lookup_insert_ne by congruence. split; [auto|]. intros [?|?]; [done|congruence].
Qed.

Lemma cdg_edges_fold_is_Some (accept : nat -> bool) (n k : nat) (nbrs : list nat)
    (E : gmap nat (list nat)) :
  is_Some (E !! k) ->
  is_Some (fold_left (fun E nn => if accept nn then graph_add n nn E else E) nbrs E !! k).
Proof.
  revert E. induction nbrs as [|nn nbrs IH]; intros E H; simpl; [done|].
  apply IH. destruct (accept nn); [by apply graph_add_is_Some | done].
Qed.

Section Reachability.
Variables (options : morph_options) (somanodes : list nat).
Variable nodesgraph : gmap nat (list nat).

Lemma cdg_init_closed (stats : warn_counts) : cdg_closed somanodes nodesgraph (cdg_init somanodes stats).
Proof.
  repeat split; simpl.
  - auto.
  - intros n nn Hn. by apply elem_of_nil in Hn.
  - intros n Hn. by apply elem_of_nil in Hn.
Qed.

Lemma cdg_step_closed (n : nat) (rest : list nat) (st : cdg_state) :
  cdg_frontier st = n :: rest -> cdg_closed somanodes nodesgraph st ->
  cdg_closed somanodes nodesgraph (cdg_step options somanodes nodesgraph n rest st).
Proof.
  intros HF (Hr & Hc & He).
  destruct (cdg_step_spec options somanodes nodesgraph n rest st) as (Hv & Hf & Hedges & _).
  cbv zeta in Hv, Hf, Hedges. unfold cdg_closed. rewrite Hv, Hf, Hedges.
  assert (forall x, x ∈ cdg_visited st \/ x ∈ cdg_frontier st ->
                    x ∈ cdg_visited st ++ [n] \/
                    x ∈ rest ++ filter (fun nn => nn ∉ cdg_visited st ++ [n])
                                       (neighbours_of nodesgraph n)) as Hstep.
  { intros x. rewrite HF, !elem_of_app, elem_of_cons, list_elem_of_singleton. tauto. }
  split; [|split].
  - intros r Hin. apply Hstep, Hr, Hin.
  - intros m nn Hm Hnn. apply elem_of_app in Hm as [Hm|Hm].
    + apply Hstep. by eapply Hc.
    + apply list_elem_of_singleton in Hm as ->.
      destruct (decide (nn ∈ cdg_visited st ++ [n])) as [Hin|Hin]; [by left|right].
      apply elem_of_app. right. by apply list_elem_of_filter.
  - intros m Hm. apply cdg_edges_fold_is_Some, cdg_edges_init_is_Some.
    apply elem_of_app in Hm as [Hm|Hm]; [left; by apply He|right].
    by apply list_elem_of_singleton in Hm.
Qed.

Lemma cdg_loop_closed (fuel : nat) (st st' : cdg_state) :
  cdg_loop fuel options somanodes nodesgraph st = Some st' ->
  cdg_closed somanodes nodesgraph st -> cdg_closed somanodes nodesgraph st' /\ cdg_frontier st' = [].
Proof.
  revert st. induction fuel as [|fuel IH]; intros st; simpl;
    destruct (cdg_frontier st) as [|n rest] eqn:HF; try discriminate.
  - intros [= <-] H. done.
  - intros [= <-] H. done.
  - intros Hl Hc. apply (IH _ Hl). by apply cdg_step_closed.
Qed.

Lemma cdg_closed_reachable (st : cdg_state) (n : nat) :
  cdg_closed somanodes nodesgraph st -> cdg_frontier st = [] -> reachable nodesgraph somanodes n ->
  n ∈ cdg_visited st.
Proof.
  intros (Hr & Hc & _) HF Hn. induction Hn as [r Hin|n nn _ IH Hnn].
  - destruct (Hr r Hin) as [H|H]; [done|]. rewrite HF in H. by apply elem_of_nil in H.
  - destruct (Hc n nn IH Hnn) as [H|H]; [done|]. rewrite HF in H. by apply elem_of_nil in H.
Qed.

End Reachability.

(** C7: for every graph, list of soma nodes and options,
    [create_directed_graph] returns a result for every fuel from [cdg_fuel]
    on, and every node reachable from a soma node in the graph is a key of
    the returned directed graph. *)
Theorem reachability_preservation (somanodes : list nat) (nodesgraph : gmap nat (list nat))
    (options : morph_options) (stats : warn_counts) :
  exists dag w,
    (forall fuel, cdg_fuel nodesgraph somanodes (cdg_init somanodes stats) <= fuel ->
                  create_directed_graph fuel somanodes nodesgraph options stats
                  = Some (dag, w))
    /\ forall n, reachable nodesgraph somanodes n -> is_Some (dag !! n).
Proof.
  set (fuel0 := cdg_fuel nodesgraph somanodes (cdg_init somanodes stats)).
  destruct (cdg_loop_terminates options somanodes nodesgraph fuel0 (cdg_init somanodes stats))
    as [st Hst]; [apply cdg_init_frontier_in_graph | done |].
  exists (cdg_edges st), (cdg_warn st). split.
  - intros fuel Hfuel. unfold create_directed_graph.
    by rewrite (cdg_loop_fuel_mono _ _ _ _ _ _ _ Hst Hfuel).
  - intros n Hn.
    destruct (cdg_loop_closed options somanodes nodesgraph _ _ _ Hst
                (cdg_init_closed somanodes nodesgraph stats)) as [Hc HF].
    pose proof Hc as (_ & _ & He). apply He.
    by eapply cdg_closed_reachable.
Qed.

(** ** create_directed_graph: duplicates in the worklist *)

Lemma frontier_sim_mono (seen seen' : gset nat) (F F' : list nat) :
  frontier_sim seen F F' -> seen ⊆ seen' -> frontier_sim seen' F F'.
Proof.
  intros H. revert seen'. induction H as [seen|seen x F F' _ IH|seen x F F' Hx _ IH];
    intros seen' Hsub.
  - constructor.
  - constructor. apply IH. set_solver.
  - constructor; [set_solver|]. by apply IH.
Qed.

Lemma frontier_sim_refl (seen : gset nat) (F : list nat) : frontier_sim seen F F.
Proof. revert seen. induction F as [|x F IH]; intros seen; constructor. apply IH. Qed.

Lemma frontier_sim_app (seen : gset nat) (F F' P : list nat) :
  frontier_sim seen F F' -> frontier_sim seen (F ++ P) (F' ++ P).
Proof.
  induction 1 as [seen|seen x F F' _ IH|seen x F F' Hx _ IH]; simpl.
  - apply frontier_sim_refl.
  - by constructor.
  - by constructor.
Qed.

Lemma frontier_sim_app_drop (seen : gset nat) (F F' P : list nat) :
  frontier_sim seen F F' -> (forall p, p ∈ P -> p ∈ seen \/ p ∈ F') ->
  frontier_sim seen (F ++ P) F'.
Proof.
  induction 1 as [seen|seen x F F' _ IH|seen x F F' Hx _ IH]; intros HP; simpl.
  - induction P as [|p P IHP]; [constructor|].
    constructor.
    + destruct (HP p) as [H|H]; [apply list_elem_of_here|done|by apply elem_of_nil in H].
    + apply IHP. intros q Hq. apply HP. by apply list_elem_of_further.
  - constructor. apply IH. intros p Hp. destruct (HP p Hp) as [H|H]; [set_solver|].
    apply elem_of_cons in H as [->|H]; [set_solver|by right].
  - constructor; [done|]. by apply IH.
Qed.

Lemma frontier_sim_nil_inv (seen : gset nat) (F' : list nat) :
  frontier_sim seen [] F' -> F' = [].
Proof. by inversion 1. Qed.

Lemma cdg_loop_dedup_fuel_mono options somanodes nodesgraph (fuel fuel' : nat) st st' :
  cdg_loop_dedup fuel options somanodes nodesgraph st = Some st' ->
  fuel <= fuel' ->
  cdg_loop_dedup fuel' options somanodes nodesgraph st = Some st'.
Proof.
  revert fuel' st. induction fuel as [|fuel IH]; intros fuel' st H Hle.
  - destruct fuel'; simpl in *; destruct (cdg_frontier st); congruence.
  - destruct fuel' as [|fuel']; [lia|]. simpl in *.
    destruct (cdg_frontier st); [assumption|]. apply IH; [assumption|lia].
Qed.

(** The edges of [n] after the loop over its neighbours. *)
Lemma cdg_edges_fold_other (accept : nat -> bool) (n k : nat) (nbrs : list nat)
    (E : gmap nat (list nat)) :
  k <> n ->
  fold_left (fun E nn => if accept nn then graph_add n nn E else E) nbrs E !! k = E !! k.
Proof.
  intros Hk. revert E. induction nbrs as [|nn nbrs IH]; intros E; simpl; [done|].
  rewrite IH. destruct (accept nn); [|done]. unfold graph_add. by rewrite lookup_insert_ne.
Qed.

Lemma elem_of_set_add (x y : nat) (l : list nat) : x ∈ set_add y l <-> x ∈ l \/ x = y.
Proof.
  unfold set_add. case_bool_decide as Hy.
  - split; [auto|]. intros [?| ->]; done.
  - rewrite elem_of_app, list_elem_of_singleton. done.
Qed.

Lemma cdg_edges_fold_self (accept : nat -> bool) (n : nat) (nbrs : list nat)
    (E : gmap nat (list nat)) (l : list nat) :
  E !! n = Some l ->
  exists l', fold_left (fun E nn => if accept nn then graph_add n nn E else E) nbrs E !! n
             = Some l'
             /\ forall x, x ∈ l' <-> x ∈ l \/ (x ∈ nbrs /\ accept x = true).
Proof.
  revert E l. induction nbrs as [|nn nbrs IH]; intros E l HE; simpl.
  - exists l. split; [done|]. intros x. split; [auto|]. intros [?|[H _]]; [done|].
    by apply elem_of_nil in H.
  - destruct (accept nn) eqn:Hacc.
    + destruct (IH (graph_add n nn E) (set_add nn l)) as (l' & Hl' & Hin).
      { unfold graph_add. by rewrite lookup_insert_eq, HE. }
      exists l'. split; [done|]. intros x. rewrite Hin, elem_of_set_add, elem_of_cons.
      split; [|intros [?|[[->|?] ?]]; auto]. intros [[?| ->]|[? ?]]; auto.
    + destruct (IH E l HE) as (l' & Hl' & Hin).
      exists l'. split; [done|]. intros x. rewrite Hin, elem_of_cons.
      split; [intros [?|[? ?]]; auto|]. intros [?|[[->|?] ?]]; auto; congruence.
Qed.

Lemma cdg_edges_fold_id (accept : nat -> bool) (n : nat) (nbrs : list nat)
    (E : gmap nat (list nat)) (l : list nat) :
  E !! n = Some l -> (forall nn, nn ∈ nbrs -> accept nn = true -> nn ∈ l) ->
  fold_left (fun E nn => if accept nn then graph_add n nn E else E) nbrs E = E.
Proof.
  revert E. induction nbrs as [|nn nbrs IH]; intros E HE Hall; simpl; [done|].
  assert ((if accept nn then graph_add n nn E else E) = E) as ->.
  { destruct (accept nn) eqn:Hacc; [|done]. unfold graph_add, set_add. rewrite HE. simpl.
    rewrite bool_decide_eq_true_2 by (apply Hall; [apply list_elem_of_here|done]).
    by apply insert_id. }
  apply IH; [done|]. intros x Hx. apply Hall. by apply list_elem_of_further.
Qed.

Lemma cdg_edges_fold_ext (accept accept' : nat -> bool) (n : nat) (nbrs : list nat)
    (E : gmap nat (list nat)) :
  (forall x, accept x = accept' x) ->
  fold_left (fun E nn => if accept nn then graph_add n nn E else E) nbrs E
  = fold_left (fun E nn => if accept' nn then graph_add n nn E else E) nbrs E.
Proof.
  intros H. revert E. induction nbrs as [|nn nbrs IH]; intros E; simpl; [done|].
  by rewrite H, IH.
Qed.

Lemma cdg_accept_ext options somanodes (V V' : list nat) (x : nat) :
  (forall y, y ∈ V <-> y ∈ V') ->
  cdg_accept options somanodes V x = cdg_accept options somanodes V' x.
Proof. intros H. unfold cdg_accept. by rewrite (bool_decide_ext _ _ (H x)). Qed.

Lemma cdg_accept_anti options somanodes (V V' : list nat) (x : nat) :
  (forall y, y ∈ V -> y ∈ V') ->
  cdg_accept options somanodes V' x = true -> cdg_accept options somanodes V x = true.
Proof.
  intros H. unfold cdg_accept. rewrite !andb_true_iff, !orb_true_iff, !negb_true_iff.
  rewrite !bool_decide_eq_false. intros [H1 [H2|H2]]; split; auto.
Qed.

Section Deduplication.
Variables (options : morph_options) (somanodes : list nat).
Variable nodesgraph : gmap nat (list nat).

(** Processing again an entry of a visited node changes no edge. *)
Lemma cdg_step_again (n : nat) (rest : list nat) (st : cdg_state) :
  n ∈ cdg_visited st -> edges_complete options somanodes nodesgraph st ->
  let r := cdg_step options somanodes nodesgraph n rest st in
  cdg_edges r = cdg_edges st
  /\ (forall x, x ∈ cdg_visited r <-> x ∈ cdg_visited st)
  /\ cdg_frontier r
     = rest ++ filter (fun nn => nn ∉ cdg_visited st ++ [n]) (neighbours_of nodesgraph n)
  /\ ignored_edges (cdg_warn st) <= ignored_edges (cdg_warn r)
  /\ edges_complete options somanodes nodesgraph r.
Proof.
  intros Hn Hc. cbv zeta.
  destruct (cdg_step_spec options somanodes nodesgraph n rest st) as (Hv & Hf & He & Hw).
  cbv zeta in Hv, Hf, He, Hw.
  assert (forall x, x ∈ cdg_visited st ++ [n] <-> x ∈ cdg_visited st) as HV.
  { intros x. rewrite elem_of_app, list_elem_of_singleton.
    split; [intros [?| ->]; done | auto]. }
  destruct (Hc n Hn) as (l & Hl & Hall).
  assert (cdg_edges (cdg_step options somanodes nodesgraph n rest st) = cdg_edges st) as HE.
  { rewrite He. unfold cdg_edges_init.
    rewrite bool_decide_eq_true_2 by (rewrite Hl; eauto).
    apply (cdg_edges_fold_id _ _ _ _ l Hl). intros nn Hnn Hacc. apply Hall; [done|].
    by rewrite <- (cdg_accept_ext options somanodes _ _ nn HV). }
  split; [done|]. split; [by rewrite Hv|]. split; [done|]. split.
  - rewrite Hw. simpl. lia.
  - intros m Hm. rewrite Hv in Hm. apply HV in Hm.
    destruct (Hc m Hm) as (lm & Hlm & Hallm). exists lm. rewrite HE. split; [done|].
    intros nn Hnn Hacc. apply Hallm; [done|].
    rewrite Hv in Hacc. by rewrite <- (cdg_accept_ext options somanodes _ _ nn HV).
Qed.

(** Processing the first entry of a node records all its accepted edges. *)
Lemma cdg_step_first (n : nat) (rest : list nat) (st : cdg_state) :
  n ∉ cdg_visited st -> edges_complete options somanodes nodesgraph st ->
  edges_complete options somanodes nodesgraph (cdg_step options somanodes nodesgraph n rest st).
Proof.
  intros Hn Hc m Hm.
  destruct (cdg_step_spec options somanodes nodesgraph n rest st) as (Hv & _ & He & _).
  cbv zeta in Hv, He. rewrite Hv in Hm. rewrite Hv, He.
  apply elem_of_app in Hm as [Hm|Hm].
  - assert (m <> n) as Hne by (intros ->; done).
    destruct (Hc m Hm) as (lm & Hlm & Hallm). exists lm. split.
    + rewrite cdg_edges_fold_other by done. unfold cdg_edges_init.
      case_bool_decide; [done|]. by rewrite lookup_insert_ne.
    + intros nn Hnn Hacc. apply Hallm; [done|].
      apply (cdg_accept_anti options somanodes _ (cdg_visited st ++ [n])); [|done].
      intros y Hy. apply elem_of_app. by left.
  - apply list_elem_of_singleton in Hm as ->.
    assert (exists l0, cdg_edges_init n (cdg_edges st) !! n = Some l0) as [l0 Hl0].
    { apply (cdg_edges_init_is_Some n n). by right. }
    destruct (cdg_edges_fold_self
                (cdg_accept options somanodes (cdg_visited st ++ [n])) n
                (neighbours_of nodesgraph n) _ l0 Hl0) as (l' & Hl' & Hin).
    exists l'. split; [done|]. intros nn Hnn Hacc. apply Hin. by right.
Qed.

Lemma cdg_step_sim (n : nat) (rest rest' : list nat) (st st' : cdg_state) :
  cdg_edges st = cdg_edges st' ->
  (forall x, x ∈ cdg_visited st <-> x ∈ cdg_visited st') ->
  let r := cdg_step options somanodes nodesgraph n rest st in
  let r' := cdg_step options somanodes nodesgraph n rest' st' in
  cdg_edges r = cdg_edges r'
  /\ (forall x, x ∈ cdg_visited r <-> x ∈ cdg_visited r')
  /\ (exists P, cdg_frontier r = rest ++ P /\ cdg_frontier r' = rest' ++ P
                /\ forall p, p ∈ P <-> p ∈ neighbours_of nodesgraph n
                                       /\ p ∉ cdg_visited st' ++ [n])
  /\ (ignored_edges (cdg_warn r') + ignored_edges (cdg_warn st)
      = ignored_edges (cdg_warn r) + ignored_edges (cdg_warn st')).
Proof.
  intros HE HV. cbv zeta.
  destruct (cdg_step_spec options somanodes nodesgraph n rest st) as (Hv & Hf & He & Hw).
  destruct (cdg_step_spec options somanodes nodesgraph n rest' st') as (Hv' & Hf' & He' & Hw').
  cbv zeta in Hv, Hf, He, Hw, Hv', Hf', He', Hw'.
  assert (forall x, x ∈ cdg_visited st ++ [n] <-> x ∈ cdg_visited st' ++ [n]) as HV1.
  { intros x. rewrite !elem_of_app, HV. done. }
  assert (forall x, cdg_accept options somanodes (cdg_visited st ++ [n]) x
                    = cdg_accept options somanodes (cdg_visited st' ++ [n]) x) as Hacc.
  { intros x. by apply cdg_accept_ext. }
  assert (filter (fun nn => nn ∉ cdg_visited st ++ [n]) (neighbours_of nodesgraph n)
          = filter (fun nn => nn ∉ cdg_visited st' ++ [n]) (neighbours_of nodesgraph n))
    as HP.
  { apply list_filter_iff. intros x. by rewrite HV1. }
  split; [|split; [|split]].
  - rewrite He, He', HE. by apply cdg_edges_fold_ext.
  - by rewrite Hv, Hv'.
  - eexists. split; [exact Hf|]. split; [by rewrite Hf', HP|].
    intros p. rewrite HP, list_elem_of_filter. tauto.
  - rewrite Hw, Hw'. simpl.
    rewrite (list_filter_iff (fun nn => cdg_accept options somanodes (cdg_visited st ++ [n]) nn = false)
               (fun nn => cdg_accept options somanodes (cdg_visited st' ++ [n]) nn = false)).
    + lia.
    + intros x. by rewrite Hacc.
Qed.

Lemma dedup_sim_again (n : nat) (rest : list nat) (st st' : cdg_state) (F' : list nat) :
  dedup_sim options somanodes nodesgraph st st' ->
  cdg_frontier st = n :: rest ->
  n ∈ cdg_visited st' ->
  frontier_sim (list_to_set (cdg_visited st')) rest F' ->
  (forall x, x ∈ cdg_frontier st' -> x = n \/ x ∈ F') ->
  dedup_sim options somanodes nodesgraph
    (cdg_step options somanodes nodesgraph n rest st)
    (CdgState (cdg_edges st') (cdg_visited st') F' (cdg_warn st')).
Proof.
  intros (HE & HV & _ & HW & HND & HC & HF) HFr Hn Hsim Hsub.
  assert (n ∈ cdg_visited st) as Hn0 by (by apply HV).
  destruct (cdg_step_again n rest st Hn0 HC) as (HE1 & HV1 & HF1 & HW1 & HC1).
  cbv zeta in HE1, HV1, HF1, HW1, HC1.
  assert (forall nn, nn ∈ neighbours_of nodesgraph n -> nn ∈ cdg_visited st' \/ nn ∈ F')
    as Hnbrs.
  { intros nn Hnn. destruct (HF n nn Hn Hnn) as [H|H]; [by left|].
    destruct (Hsub nn H) as [->|H']; [by left|by right]. }
  unfold dedup_sim. cbn [cdg_edges cdg_visited cdg_frontier cdg_warn].
  split; [congruence|]. split; [intros x; by rewrite HV1|]. split.
  { rewrite HF1. apply frontier_sim_app_drop; [done|].
    intros p Hp. apply list_elem_of_filter in Hp as [_ Hp].
    destruct (Hnbrs p Hp) as [H|H]; [left; by apply elem_of_list_to_set|by right]. }
  split; [lia|]. split; [done|]. split; [done|].
  intros m nn Hm Hnn. destruct (HF m nn Hm Hnn) as [H|H]; [by left|].
  destruct (Hsub nn H) as [->|H']; [by left|by right].
Qed.

Lemma dedup_sim_first (n : nat) (rest rest' : list nat) (st st' : cdg_state) :
  dedup_sim options somanodes nodesgraph st st' ->
  cdg_frontier st = n :: rest -> cdg_frontier st' = n :: rest' ->
  n ∉ cdg_visited st' ->
  frontier_sim (list_to_set (cdg_visited st') ∪ {[n]}) rest rest' ->
  dedup_sim options somanodes nodesgraph
    (cdg_step options somanodes nodesgraph n rest st)
    (cdg_step options somanodes nodesgraph n rest' st').
Proof.
  intros (HE & HV & _ & HW & HND & HC & HF) HFr HFr' Hn Hsim.
  assert (n ∉ cdg_visited st) as Hn0 by (by rewrite HV).
  destruct (cdg_step_sim n rest rest' st st' HE HV) as (HE1 & HV1 & (P & HP & HP' & HPin) & HW1).
  cbv zeta in HE1, HV1, HP, HP', HW1.
  destruct (cdg_step_spec options somanodes nodesgraph n rest' st') as (Hv' & _).
  cbv zeta in Hv'.
  unfold dedup_sim. split; [done|]. split; [done|]. split.
  { rewrite HP, HP', Hv', list_to_set_app_L. simpl.
    apply frontier_sim_app. eapply frontier_sim_mono; [exact Hsim|]. set_solver. }
  split; [lia|]. split.
  { rewrite Hv'. apply NoDup_app. split; [done|]. split.
    - intros x Hx Hx'. apply list_elem_of_singleton in Hx' as ->. done.
    - apply NoDup_singleton. }
  split; [by apply cdg_step_first|].
  intros m nn Hm Hnn. rewrite Hv' in Hm. rewrite Hv', HP'.
  destruct (decide (nn ∈ cdg_visited st' ++ [n])) as [Hin|Hin]; [by left|right].
  apply elem_of_app in Hm as [Hm|Hm].
  - destruct (HF m nn Hm Hnn) as [H|H].
    + exfalso. apply Hin, elem_of_app. by left.
    + rewrite HFr' in H. apply elem_of_cons in H as [->|H].
      * exfalso. apply Hin, elem_of_app. right. apply list_elem_of_here.
      * apply elem_of_app. by left.
  - apply list_elem_of_singleton in Hm as ->. apply elem_of_app. right. by apply HPin.
Qed.

(** The deduplicated traversal follows the source, entry by entry. *)
Lemma cdg_loop_dedup_sim (fuel : nat) (st st' r : cdg_state) :
  dedup_sim options somanodes nodesgraph st st' ->
  cdg_loop fuel options somanodes nodesgraph st = Some r ->
  exists r', cdg_loop_dedup fuel options somanodes nodesgraph st' = Some r'
             /\ dedup_sim options somanodes nodesgraph r r'.
Proof.
  revert st st'. induction fuel as [|fuel IH]; intros st st' Hsim Hloop.
  - simpl in Hloop. destruct (cdg_frontier st) as [|n rest] eqn:HF; [|discriminate].
    injection Hloop as <-. pose proof Hsim as (_ & _ & Hfs & _). rewrite HF in Hfs.
    apply frontier_sim_nil_inv in Hfs. exists st'. simpl. by rewrite Hfs.
  - simpl in Hloop. destruct (cdg_frontier st) as [|n rest] eqn:HF.
    + injection Hloop as <-. pose proof Hsim as (_ & _ & Hfs & _). rewrite HF in Hfs.
      apply frontier_sim_nil_inv in Hfs. exists st'. simpl. by rewrite Hfs.
    + pose proof Hsim as (HE & HV & Hfs & HW & HND & HC & HFn). rewrite HF in Hfs.
      inversion Hfs as [|seen x F F' Hkeep Hs HFeq HF'eq|seen x F F' Hx Hdrop Hs HFeq HF'eq];
        subst.
      * (* the entry is kept in the deduplicated worklist *)
        symmetry in HF'eq. simpl. rewrite HF'eq. unfold cdg_step_dedup.
        case_bool_decide as Hn.
        -- apply (IH _ _ (dedup_sim_again n rest st st' F' Hsim HF Hn
                            ltac:(eapply frontier_sim_mono; [exact Hkeep|];
                                  assert (n ∈ (list_to_set (cdg_visited st') : gset nat))
                                    by (by apply elem_of_list_to_set);
                                  set_solver)
                            ltac:(intros y Hy; rewrite HF'eq in Hy;
                                  by apply elem_of_cons in Hy)) Hloop).
        -- apply (IH _ _ (dedup_sim_first n rest F' st st' Hsim HF HF'eq Hn Hkeep) Hloop).
      * (* the entry has no counterpart: the deduplicated traversal waits *)
        apply elem_of_list_to_set in Hx.
        assert (dedup_sim options somanodes nodesgraph
                  (cdg_step options somanodes nodesgraph n rest st) st') as Hsim'.
        { replace st' with (CdgState (cdg_edges st') (cdg_visited st') (cdg_frontier st')
                                     (cdg_warn st')) at 2 by (by destruct st').
          apply dedup_sim_again; auto. }
        destruct (IH _ _ Hsim' Hloop) as (r' & Hr' & Hsimr).
        exists r'. split; [|done].
        apply (cdg_loop_dedup_fuel_mono _ _ _ fuel); [done|lia].
Qed.

Lemma dedup_sim_init (stats : warn_counts) :
  dedup_sim options somanodes nodesgraph (cdg_init somanodes stats) (cdg_init somanodes stats).
Proof.
  unfold dedup_sim, cdg_init. cbn [cdg_edges cdg_visited cdg_frontier cdg_warn].
  split; [done|]. split; [done|]. split; [apply frontier_sim_refl|].
  split; [done|]. split; [constructor|]. split.
  - intros n Hn. by apply elem_of_nil in Hn.
  - intros n nn Hn. by apply elem_of_nil in Hn.
Qed.

End Deduplication.

(** C2, counterexample (scenario B): on the triangle 1-2, 2-3, 3-1 with the
    soma node 1, node 3 is queued by node 1 and by node 2 and is appended to
    [visited] twice; the source counts 5 ignored edges, the traversal with
    the deduplicated worklist counts 3, for the same directed graph. *)
Lemma triangle_visits_a_node_twice :
  cdg_visited <$> cdg_loop 4 inflate_options [1] (create_node_graph segments_B)
                           (cdg_init [1] no_warnings)
  = Some [1; 2; 3; 3]
  /\ create_directed_graph 4 [1] (create_node_graph segments_B) inflate_options no_warnings
     = Some (dag_B, WarnCounts 0 5 0 0 0)
  /\ (fun st => (cdg_edges st, cdg_warn st))
       <$> cdg_loop_dedup 4 inflate_options [1] (create_node_graph segments_B)
                          (cdg_init [1] no_warnings)
     = Some (dag_B, WarnCounts 0 3 0 0 0).
Proof. repeat split; vm_compute; reflexivity. Qed.

(** C2, as amended: the worklist loop of [create_directed_graph]
    terminates (it returns for every fuel from [cdg_fuel] on), and so does the
    traversal that drops the worklist entries of visited nodes; both return
    the same directed graph and visit the same nodes; the deduplicated
    traversal appends each node to [visited] once and counts at most as many
    ignored edges as the source. *)
Theorem worklist_deduplication (somanodes : list nat) (nodesgraph : gmap nat (list nat))
    (options : morph_options) (stats : warn_counts) :
  exists st st',
    (forall fuel, cdg_fuel nodesgraph somanodes (cdg_init somanodes stats) <= fuel ->
                  cdg_loop fuel options somanodes nodesgraph (cdg_init somanodes stats)
                  = Some st
                  /\ cdg_loop_dedup fuel options somanodes nodesgraph
                                    (cdg_init somanodes stats) = Some st')
    /\ cdg_edges st' = cdg_edges st
    /\ (forall x, x ∈ cdg_visited st' <-> x ∈ cdg_visited st)
    /\ NoDup (cdg_visited st')
    /\ ignored_edges (cdg_warn st') <= ignored_edges (cdg_warn st).
Proof.
  set (st0 := cdg_init somanodes stats).
  set (fuel0 := cdg_fuel nodesgraph somanodes st0).
  destruct (cdg_loop_terminates options somanodes nodesgraph fuel0 st0)
    as [st Hst]; [apply cdg_init_frontier_in_graph | done |].
  destruct (cdg_loop_dedup_sim options somanodes nodesgraph fuel0 st0 st0 st
              (dedup_sim_init options somanodes nodesgraph stats) Hst)
    as (st' & Hst' & HE & HV & _ & HW & HND & _).
  exists st, st'. split; [|split; [done|split; [|split; [done|done]]]].
  - intros fuel Hfuel. split.
    + by apply (cdg_loop_fuel_mono _ _ _ fuel0).
    + by apply (cdg_loop_dedup_fuel_mono _ _ _ fuel0).
  - intros x. by rewrite HV.
Qed.

(** ** create_node_segments_dict *)

Lemma segments_at_append (k k' : nat) (s : segment) (ns : gmap nat (list segment)) :
  segments_at (segments_append k' s ns) k
  = segments_at ns k ++ (if bool_decide (k = k') then [s] else []).
Proof.
  unfold segments_at, segments_append. case_bool_decide as Hk.
  - subst. by rewrite lookup_insert_eq.
  - rewrite lookup_insert_ne by congruence. by rewrite app_nil_r.
Qed.

Lemma is_Some_segments_append (k k' : nat) (s : segment) (ns : gmap nat (list segment)) :
  is_Some (segments_append k' s ns !! k) <-> is_Some (ns !! k) \/ k = k'.
Proof.
  unfold segments_append. destruct (decide (k = k')) as [->|Hk].
  - rewrite lookup_insert_eq. split; eauto.
  - rewrite lookup_insert_ne by congruence. split; [eauto|]. intros [?|?]; [done|congruence].
Qed.

Lemma cnsd_step_spec (dgraph : gmap nat (list nat))
    (nodesegments : gmap nat (list segment)) (stats : warn_counts) (s : segment) :
  let r := cnsd_step dgraph (nodesegments, stats) s in
  (forall k, segments_at (fst r) k = segments_at nodesegments k ++ oriented_copies dgraph k s)
  /\ (forall k, is_Some (fst r !! k)
                <-> is_Some (nodesegments !! k) \/ oriented_copies dgraph k s <> [])
  /\ snd r = (if unconnected dgraph s then incr_unconnected_segments stats else stats)
  /\ (unconnected dgraph s = true -> fst r = nodesegments).
Proof.
  unfold cnsd_step, oriented_copies, unconnected.
  destruct (has_edge dgraph (start s) (end_ s)) eqn:Hf,
           (has_edge dgraph (end_ s) (start s)) eqn:Hb; simpl;
    (split; [|split; [|split; [reflexivity|try discriminate; done]]]); intros k.
  - rewrite !segments_at_append, <- app_assoc. reflexivity.
  - rewrite !is_Some_segments_append.
    repeat case_bool_decide; simpl; split; intros; try tauto; intuition congruence.
  - rewrite !segments_at_append. by rewrite app_nil_r.
  - rewrite !is_Some_segments_append.
    repeat case_bool_decide; simpl; split; intros; try tauto; intuition congruence.
  - rewrite !segments_at_append. reflexivity.
  - rewrite !is_Some_segments_append.
    repeat case_bool_decide; simpl; split; intros; try tauto; intuition congruence.
  - by rewrite app_nil_r.
  - split; intros; try tauto; intuition congruence.
Qed.

Lemma cnsd_fold_spec (dgraph : gmap nat (list nat)) (segments : list segment)
    (nodesegments : gmap nat (list segment)) (stats : warn_counts) :
  let r := fold_left (cnsd_step dgraph) segments (nodesegments, stats) in
  (forall k, segments_at (fst r) k
             = segments_at nodesegments k ++ flat_map (oriented_copies dgraph k) segments)
  /\ unconnected_segments (snd r)
     = unconnected_segments stats + length (filter (fun s => unconnected dgraph s = true) segments)
  /\ ignored_edges (snd r) = ignored_edges stats
  /\ max_grow_depth_reached (snd r) = max_grow_depth_reached stats
  /\ cut_nodes_found (snd r) = cut_nodes_found stats
  /\ ignored_positions (snd r) = ignored_positions stats.
Proof.
  revert nodesegments stats. induction segments as [|s segments IH]; intros ns w; cbv zeta; cbn [fold_left flat_map fst snd].
  - repeat split; try (simpl; lia). intros k. by rewrite app_nil_r.
  - destruct (cnsd_step dgraph (ns, w) s) as [ns' w'] eqn:E.
    pose proof (cnsd_step_spec dgraph ns w s) as Hs.
    cbv zeta in Hs. rewrite E in Hs. cbn [fst snd] in Hs. destruct Hs as (Hk & _ & Hw & _).
    pose proof (IH ns' w') as IH'; cbv zeta in IH'; destruct IH' as (IHk & IHu & IHi & IHd & IHc & IHp).
    split; [|split; [|split; [|split; [|split]]]].
    + intros k. rewrite IHk, Hk, <- app_assoc. reflexivity.
    + rewrite IHu, Hw, filter_cons.
      destruct (decide (unconnected dgraph s = true)) as [U|U].
      * rewrite U. simpl. lia.
      * apply not_true_is_false in U. rewrite U. lia.
    + rewrite IHi, Hw. by destruct (unconnected dgraph s).
    + rewrite IHd, Hw. by destruct (unconnected dgraph s).
    + rewrite IHc, Hw. by destruct (unconnected dgraph s).
    + rewrite IHp, Hw. by destruct (unconnected dgraph s).
Qed.

(** C6: for every segment [s] with ends (a, b) and every directed graph,
    the loop body of [create_node_segments_dict] appends [s] unchanged to the
    list of [a] exactly when the graph has the edge a -> b, then appends the
    copy with swapped ends and reversed points to the list of [b] exactly when
    the graph has the edge b -> a ([oriented_copies]; both may happen); when
    neither edge exists the unconnected-segment counter goes up by one and the
    dictionary is unchanged.  Over a whole segment list, the list of a key is
    the concatenation of these contributions, and the counter goes up by the
    number of unconnected segments.  The copy starts at [b] and ends at [a],
    and its points are those of [s] in the reverse order: it has as many
    points, and its point of index [i] is the point of [s] of index
    [length - 1 - i], so that its first point is the last point of [s]. *)
Theorem create_node_segments_dict_orients (dgraph : gmap nat (list nat))
    (nodesegments : gmap nat (list segment)) (stats : warn_counts) (s : segment)
    (segments : list segment) :
  let r := cnsd_step dgraph (nodesegments, stats) s in
  let d := create_node_segments_dict segments dgraph stats in
  ((forall k, segments_at (fst r) k = segments_at nodesegments k ++ oriented_copies dgraph k s)
   /\ (forall k, is_Some (fst r !! k)
                 <-> is_Some (nodesegments !! k) \/ oriented_copies dgraph k s <> [])
   /\ snd r = (if unconnected dgraph s then incr_unconnected_segments stats else stats)
   /\ (unconnected dgraph s = true -> fst r = nodesegments))
  /\ ((forall k, segments_at (fst d) k = flat_map (oriented_copies dgraph k) segments)
      /\ unconnected_segments (snd d)
         = unconnected_segments stats
           + length (filter (fun s => unconnected dgraph s = true) segments))
  /\ (start (reversed_segment s) = end_ s
      /\ end_ (reversed_segment s) = start s
      /\ length (points (reversed_segment s)) = length (points s)
      /\ (forall i, i < length (points s) ->
            points (reversed_segment s) !! i = points s !! (length (points s) - S i))
      /\ (forall p tl, points s = tl ++ [p] -> points (reversed_segment s) = p :: rev tl)
      /\ (has_edge dgraph (end_ s) (start s) = true ->
          segments_at (fst r) (end_ s)
          = segments_at nodesegments (end_ s)
            ++ (if has_edge dgraph (start s) (end_ s) && bool_decide (end_ s = start s)
                then [s] else [])
            ++ [Segment (end_ s) (start s) (rev (points s))])).
Proof.
  cbv zeta. split; [exact (cnsd_step_spec dgraph nodesegments stats s)|]. split.
  { destruct (cnsd_fold_spec dgraph segments ∅ stats) as (Hk & Hu & _). split; [|exact Hu].
    intros k. unfold create_node_segments_dict. rewrite Hk. reflexivity. }
  split; [done|]. split; [done|]. split; [apply length_rev|]. split; [|split].
  - intros i Hi. simpl. rewrite rev_alt. by apply (reverse_lookup (points s)).
  - intros p tl Hp. simpl. by rewrite Hp, rev_unit.
  - intros Hb. destruct (cnsd_step_spec dgraph nodesegments stats s) as (Hk & _).
    rewrite (Hk (end_ s)). unfold oriented_copies. rewrite Hb. cbn [andb].
    by rewrite (bool_decide_eq_true_2 (end_ s = end_ s)).
Qed.

(** ** Scenario A: the path graph 1-2-3-4 *)

(** C3, counterexample: on the path graph with soma node 1, cycles
    disallowed and threshold 0, [create_directed_graph] leaves the
    ignored-edge counter at 3, not 0: each of the nodes 2, 3 and 4 rejects
    the edge back to the node it was reached from. *)
Lemma scenario_A_ignored_edges :
  snd <$> create_directed_graph 4 [1] (create_node_graph segments_A)
            (make_morph_options default_options) no_warnings
  = Some (WarnCounts 0 3 0 0 0)
  /\ WarnCounts 0 3 0 0 0 <> no_warnings.
Proof. split; [vm_compute; reflexivity | discriminate]. Qed.

(** C3, as amended: on the path graph 1-2-3-4 with soma node 1, cycles
    disallowed and threshold 0, with any fuel from 4 on,
    [create_directed_graph] returns the graph {1:{2}, 2:{3}, 3:{4}, 4:{}} and
    counts 3 ignored edges; [create_node_segments_dict] then files each of
    the three segments, unchanged, under its start node, and leaves the
    unconnected-segment counter and every other counter at 0. *)
Theorem scenario_A_path_graph (fuel : nat) :
  create_directed_graph (4 + fuel) [1] (create_node_graph segments_A)
    (make_morph_options default_options) no_warnings
  = Some (dag_A, WarnCounts 0 3 0 0 0)
  /\ create_node_segments_dict segments_A dag_A (WarnCounts 0 3 0 0 0)
     = (node_segments_A, WarnCounts 0 3 0 0 0).
Proof.
  split.
  - apply create_directed_graph_fuel_mono with (fuel := 4%nat); [|lia].
    vm_compute. reflexivity.
  - vm_compute. reflexivity.
Qed.

(** ** validate_graph_segments *)

Lemma validate_dag_node_cases (somanodes : option (list nat))
    (ns : gmap nat (list segment)) (nidx : nat) (cnodes : list nat) :
  validate_dag_node somanodes ns (nidx, cnodes) = Raise AssertionError
  \/ (validate_dag_node somanodes ns (nidx, cnodes)
      = Ok (match ns !! nidx with Some _ => ns | None => <[nidx := []]> ns end)
      /\ forallb (fun cidx => bool_decide (cidx ∈ end_ <$> default [] (ns !! nidx))) cnodes
         = true).
Proof.
  unfold validate_dag_node.
  destruct (_ || _ : bool); simpl_result; [|by left].
  destruct (forallb _ cnodes) eqn:E; simpl_result; [right|left]; done.
Qed.

Lemma validate_dag_loop_missing (somanodes : option (list nat)) (nidx : nat)
    (cnodes : list nat) (items : list (nat * list nat)) (ns : gmap nat (list segment)) :
  NoDup items.*1 -> (nidx, cnodes) ∈ items -> cnodes <> [] -> ns !! nidx = None ->
  foldM (validate_dag_node somanodes) items ns = Raise AssertionError.
Proof.
  intros Hnd Hin Hc. revert ns Hnd Hin.
  induction items as [|[k c] items IH]; intros ns Hnd Hin Hn.
  - by apply elem_of_nil in Hin.
  - rewrite foldM_cons. rewrite fmap_cons in Hnd. apply NoDup_cons in Hnd as [Hk Hnd].
    destruct (validate_dag_node_cases somanodes ns k c) as [->|[-> Hall]];
      [reflexivity|]. simpl_result.
    apply elem_of_cons in Hin as [[= <- <-]|Hin].
    + rewrite Hn in Hall. destruct cnodes as [|c0 cnodes]; [done|]. discriminate.
    + apply IH; [done..|].
      assert (k <> nidx) as Hne.
      { intros ->. apply Hk. apply list_elem_of_fmap. by exists (nidx, cnodes). }
      destruct (ns !! k); [done|]. by rewrite lookup_insert_ne.
Qed.

Lemma validate_graph_segments_missing (dgraph : gmap nat (list nat))
    (nodesegments : gmap nat (list segment)) (somanodes : option (list nat))
    (nidx : nat) (cnodes : list nat) :
  dgraph !! nidx = Some cnodes -> cnodes <> [] -> nodesegments !! nidx = None ->
  validate_graph_segments dgraph nodesegments somanodes = Raise AssertionError.
Proof.
  intros Hd Hc Hn. unfold validate_graph_segments.
  rewrite (validate_dag_loop_missing somanodes nidx cnodes); [reflexivity|..|done|done].
  - apply NoDup_fst_map_to_list.
  - by apply elem_of_map_to_list.
Qed.

(** C5, the code at the failing input: with the graph {1: {2}}, no
    segments and the soma list [2], every child of node 1 is a soma node, and
    [validate_graph_segments] still raises [AssertionError]; it does so for
    every graph node that has children and no entry in the segments
    dictionary, whatever the soma list is, because the second assertion of
    the loop body looks each child up in the (empty) list of end ids.  The
    soma list that [create_morphology] passes is [None] unless
    [k_CONNECT_SOMA_SOMA] is set. *)
Theorem validate_graph_segments_soma_children :
  validate_graph_segments {[ 1 := [2] ]} ∅ (Some [2]) = Raise AssertionError
  /\ (forall dgraph nodesegments somanodes nidx cnodes,
        dgraph !! nidx = Some cnodes -> cnodes <> [] -> nodesegments !! nidx = None ->
        validate_graph_segments dgraph nodesegments somanodes = Raise AssertionError)
  /\ (forall morph soma_node_idxs,
        validate_somanodes morph soma_node_idxs
        = if k_CONNECT_SOMA_SOMA morph then Some soma_node_idxs else None).
Proof.
  split; [|split].
  - apply (validate_graph_segments_missing _ _ _ 1 [2]); done.
  - apply validate_graph_segments_missing.
  - reflexivity.
Qed.

(** ** Simplification *)

Lemma grown_points_with_stats (w : warn_counts) (st : gstate) :
  grown_points (with_stats w st) = grown_points st.
Proof. reflexivity. Qed.

(** One interior sample: a section being grown either grows a point or
    drops the sample; without a section, the soma clipping test alone
    decides whether one is created. *)
Lemma grow_interior_point_balance (loglevel : Z) (scentre : vec3) (sradius : float)
    (o : morph_options) (node : handle) (pt : point) (is_cut : bool)
    (section : option (handle * vec3)) (st : gstate) :
  let r := grow_interior_point loglevel scentre sradius o node pt is_cut section st in
  let first := negb (k_CLIP_INSIDE_SOMA o)
               || (sradius + diameter pt <? vlength (vadjust_offset_length3 (position pt) scentre 0))%float in
  (grown_points r.2 + ignored_positions (stats r.2)
   = (if is_Some_dec section then 1 else if first then 1 else 0)
     + (grown_points st + ignored_positions (stats st)))%nat
  /\ (is_Some r.1 <-> is_Some section \/ first = true)
  /\ (ignored_positions (stats st) <= ignored_positions (stats r.2))%nat
  /\ (grown_points st <= grown_points r.2)%nat.
Proof.
  unfold grow_interior_point. destruct section as [[sec prev]|]; cbn zeta.
  - destruct (_ <=? _)%float; cbn [fst snd].
    + destruct is_cut; cbn [andb].
      * unfold grown_points. simpl.
        repeat split; eauto; lia.
      * unfold grown_points. simpl.
        repeat split; eauto; lia.
    + rewrite grown_points_with_stats. simpl. repeat split; eauto; lia.
  - destruct (negb _ || _); cbn [fst snd].
    + unfold grown_points. simpl.
      repeat split; eauto; lia.
    + simpl. repeat split; try lia.
      * intros []; discriminate.
      * intros [[]|]; discriminate.
Qed.

Section Thresholds.
Variables (loglevel : Z) (scentre : vec3) (sradius : float) (o : morph_options).
Variables (t1 t2 : float) (node : handle).

Let walk (t : float) := walk_interior loglevel scentre sradius (with_threshold t o) node.

(** Grown plus dropped points advance alike at both thresholds. *)
Lemma walk_interior_balance (pts : list point) (s1 s2 : option (handle * vec3))
    (is_cut : bool) (st1 st2 : gstate) :
  (is_Some s1 <-> is_Some s2) ->
  let r1 := walk t1 pts s1 is_cut st1 in
  let r2 := walk t2 pts s2 is_cut st2 in
  (grown_points r1.2 + ignored_positions (stats r1.2)
   + (grown_points st2 + ignored_positions (stats st2))
   = grown_points r2.2 + ignored_positions (stats r2.2)
     + (grown_points st1 + ignored_positions (stats st1)))%nat.
Proof.
  revert s1 s2 is_cut st1 st2. induction pts as [|pt pts IH]; intros s1 s2 is_cut st1 st2 Hs.
  - simpl. lia.
  - cbv zeta. unfold walk. cbn [walk_interior].
    cbn [k_SCALING_FACTOR k_CUTPOINT_AABB k_SEGMENT_THRESHOLD_SQR k_CLIP_INSIDE_SOMA with_threshold].
    set (c := is_cut || is_cut_point (position pt) (k_CUTPOINT_AABB o)).
    pose proof (grow_interior_point_balance loglevel scentre sradius (with_threshold t1 o)
                  node pt c s1 st1) as H1.
    pose proof (grow_interior_point_balance loglevel scentre sradius (with_threshold t2 o)
                  node pt c s2 st2) as H2.
    cbv zeta in H1, H2. cbn [k_CLIP_INSIDE_SOMA with_threshold] in H1, H2.
    destruct (grow_interior_point _ _ _ (with_threshold t1 o) _ _ _ s1 st1) as [s1' st1'].
    destruct (grow_interior_point _ _ _ (with_threshold t2 o) _ _ _ s2 st2) as [s2' st2'].
    cbn [fst snd] in H1, H2.
    destruct H1 as (E1 & S1 & _), H2 as (E2 & S2 & _).
    assert (is_Some s1' <-> is_Some s2') as Hs' by tauto.
    assert ((grown_points st1' + ignored_positions (stats st1')
             + (grown_points st2 + ignored_positions (stats st2))
             = grown_points st2' + ignored_positions (stats st2')
               + (grown_points st1 + ignored_positions (stats st1)))%nat) as Hstep.
    { rewrite E1, E2. destruct (is_Some_dec s1) as [I1|I1], (is_Some_dec s2) as [I2|I2];
        try lia; tauto. }
    destruct c; cbn [fst snd].
    + rewrite !grown_points_with_stats. simpl. lia.
    + specialize (IH s1' s2' false st1' st2' Hs'). cbv zeta in IH. unfold walk in IH. lia.
Qed.

Lemma walk_interior_ignored_mono (t : float) (pts : list point)
    (s : option (handle * vec3)) (is_cut : bool) (st : gstate) :
  (ignored_positions (stats st) <= ignored_positions (stats (walk t pts s is_cut st).2))%nat.
Proof.
  revert s is_cut st. induction pts as [|pt pts IH]; intros s is_cut st; [simpl; lia|].
  unfold walk. cbn [walk_interior].
  set (c := is_cut || is_cut_point (position pt) _).
  pose proof (grow_interior_point_balance loglevel scentre sradius (with_threshold t o)
                node pt c s st) as H.
  cbv zeta in H.
  destruct (grow_interior_point _ _ _ _ _ _ _ s st) as [s' st'].
  cbn [fst snd] in H. destruct H as (_ & _ & Hi & _).
  destruct c; cbn [fst snd].
  - simpl. lia.
  - specialize (IH s' false st'). unfold walk in IH. lia.
Qed.

End Thresholds.

(** C9, counterexample: for the interior samples at x = 20, 30, 39, 23 the
    threshold 100 grows two points (20 and 30) and the larger threshold 225
    grows three (20, 39 and 23); with the start and end nodes of the segment,
    [grow_segments] grows 3 and 4 points. *)
Lemma simplification_not_monotone :
  (0 <=? 100)%float = true /\ (100 <=? 225)%float = true
  /\ grown_points (interior_walk 100 inflate_options zigzag_interior) = 2%nat
  /\ grown_points (interior_walk 225 inflate_options zigzag_interior) = 3%nat
  /\ grown_points <$> zigzag_growth 100 = Ok 3%nat
  /\ grown_points <$> zigzag_growth 225 = Ok 4%nat.
Proof. repeat split; vm_compute; reflexivity. Qed.

(** C9, as amended: for the same segment and inputs, the number of
    interior points grown plus the number of samples dropped is the same at
    any two thresholds; so the number grown at [t2] is at most the number
    grown at [t1] whenever the walk at [t1] drops no sample. *)
Theorem simplification_balance (loglevel : Z) (scentre : vec3) (sradius : float)
    (o : morph_options) (node : handle) (pts : list point) (st : gstate) (t1 t2 : float) :
  let r1 := (walk_interior loglevel scentre sradius (with_threshold t1 o) node pts
                           None false st).2 in
  let r2 := (walk_interior loglevel scentre sradius (with_threshold t2 o) node pts
                           None false st).2 in
  (grown_points r2 + ignored_positions (stats r2)
   = grown_points r1 + ignored_positions (stats r1))%nat
  /\ (ignored_positions (stats r1) = ignored_positions (stats st) ->
      (grown_points r2 <= grown_points r1)%nat).
Proof.
  cbv zeta.
  pose proof (walk_interior_balance loglevel scentre sradius o t1 t2 node pts
                None None false st st (reflexivity _)) as H.
  pose proof (walk_interior_ignored_mono loglevel scentre sradius o node t2 pts
                None false st) as Hm.
  cbv zeta in H. split; [lia|]. intros Hz. lia.
Qed.

(** Witness: the zigzag samples at the thresholds 0 and 225. *)
Lemma simplification_balance_witness :
  (grown_points (interior_walk 225 inflate_options zigzag_interior)
   <= grown_points (interior_walk 0 inflate_options zigzag_interior))%nat.
Proof.
  apply (simplification_balance INFO (V3 0 0 0) 1 inflate_options HSoma zigzag_interior
           (empty_gstate no_warnings) 0 225).
  vm_compute. reflexivity.
Defined.

(** ** Cut points *)

(** C4, counterexample (scenario D): the segment from the root 1 to node 2
    leaves the valid volume at its second sample.  After growth the cut-node
    counter is 2, not 1, and the positions of the child 2 and of its own
    child 3 are both in the table of grown nodes. *)
Lemma scenario_D_cut_counted_twice :
  create_directed_graph 3 [1] (create_node_graph segments_D) options_D no_warnings
  = Some (dag_D, WarnCounts 0 2 0 0 0)
  /\ (create_node_segments_dict segments_D dag_D no_warnings).1 = node_segments_D
  /\ is_cut_point (position (sample 0.5)) (Some box_D) = false
  /\ is_cut_point (position (sample 20)) (Some box_D) = true
  /\ (fun st => cut_nodes_found (stats st)) <$> growth_D = Ok 2%nat
  /\ (fun st => dict_mem (position (sample 5)) (nodes st)) <$> growth_D = Ok true
  /\ (fun st => dict_mem (position (sample 6)) (nodes st)) <$> growth_D = Ok true.
Proof. repeat split; vm_compute; reflexivity. Qed.

Lemma grow_interior_point_frame (loglevel : Z) (scentre : vec3) (sradius : float)
    (o : morph_options) (node : handle) (pt : point) (is_cut : bool)
    (section : option (handle * vec3)) (st : gstate) :
  let r := grow_interior_point loglevel scentre sradius o node pt is_cut section st in
  nodes r.2 = nodes st /\ visited r.2 = visited st
  /\ cut_nodes_found (stats r.2) = cut_nodes_found (stats st).
Proof.
  unfold grow_interior_point. destruct section as [[sec prev]|]; cbn zeta.
  - destruct (_ <=? _)%float; done.
  - destruct (negb _ || _); done.
Qed.

Lemma dict_mem_set (k k' : vec3) (h : handle) (nodes : list (vec3 * handle)) :
  dict_mem k (dict_set k' h nodes) = veqb k k' || dict_mem k nodes.
Proof. unfold dict_mem, dict_set. simpl. by destruct (veqb k k'). Qed.

Lemma grow_end_node_spec (loglevel : Z) (scentre : vec3) (sradius : float)
    (o : morph_options) (node : handle) (ndata : point) (section : option handle)
    (is_cut : bool) (st : gstate) :
  let st' := grow_end_node loglevel scentre sradius o node ndata section is_cut st in
  let cut := is_cut || is_cut_point (position ndata) (k_CUTPOINT_AABB o) in
  cut_nodes_found (stats st')
  = ((if cut then 1 else 0) + cut_nodes_found (stats st))%nat
  /\ visited st' = visited st
  /\ dict_mem (position ndata) (nodes st')
     = veqb (position ndata) (position ndata) || dict_mem (position ndata) (nodes st).
Proof.
  unfold grow_end_node. cbv zeta.
  set (cut := is_cut || is_cut_point (position ndata) (k_CUTPOINT_AABB o)).
  set (st1 := if cut then _ else st).
  assert (nodes st1 = nodes st /\ visited st1 = visited st
          /\ cut_nodes_found (stats st1)
             = ((if cut then 1 else 0) + cut_nodes_found (stats st))%nat) as (Hn & Hv & Hc).
  { subst st1. by destruct cut. }
  rewrite Hn. destruct (dict_mem (position ndata) (nodes st)) eqn:Hm.
  - rewrite orb_true_r, Hn, Hm. done.
  - rewrite orb_false_r.
    destruct (match section with Some _ => section | None => _ end); simpl.
    + rewrite dict_mem_set, ?Hn, Hm, orb_false_r. done.
    + rewrite dict_mem_set, ?Hn, Hm, orb_false_r. done.
Qed.

(** The end node, case by case.  A position that is bound already is left
    alone.  An absent one is grown, by one call to [grow], from the section
    of the segment or, when the segment has none, from the start node if the
    end node leaves the soma or nothing is clipped; it is marked when cut.
    Otherwise it is bound to the start node and nothing is grown. *)
Lemma grow_end_node_cases (loglevel : Z) (scentre : vec3) (sradius : float)
    (o : morph_options) (node : handle) (ndata : point) (section : option handle)
    (is_cut : bool) (st : gstate) :
  let npos := position ndata in
  let cut := is_cut || is_cut_point npos (k_CUTPOINT_AABB o) in
  let st1 := if cut then with_stats (incr_cut_nodes_found (stats st)) st else st in
  let grown := HSection (next_section (morphology st)) in
  let st' := grow_end_node loglevel scentre sradius o node ndata section is_cut st in
  if dict_mem npos (nodes st) then st' = st1
  else match section,
             negb (k_CLIP_INSIDE_SOMA o) || end_leaves_soma scentre sradius ndata with
       | None, false => st' = with_nodes (dict_set npos node (nodes st)) st1
       | _, _ =>
           exists p d p',
             st' = GState (dict_set npos grown (nodes st)) (visited st)
                          (Morph ((if cut then [MarkCutPoint grown] else [])
                                  ++ GrowSection (default node section) p d grown
                                  :: calls (morphology st))
                                 (S (next_section (morphology st))))
                          (stats st1) ((default node section, p') :: node_grow_stats st)
       end.
Proof.
  cbv zeta. unfold grow_end_node, end_leaves_soma. cbv zeta.
  set (cut := is_cut || is_cut_point (position ndata) (k_CUTPOINT_AABB o)).
  assert (nodes (if cut then with_stats (incr_cut_nodes_found (stats st)) st else st)
          = nodes st) as -> by (by destruct cut).
  destruct (dict_mem (position ndata) (nodes st)); [done|].
  destruct section as [sec|]; [|destruct (negb _ || _)]; try done;
    destruct cut; simpl; eexists _, _, _; reflexivity.
Qed.

(** An interior sample met while no section is being grown starts one from
    the start node, unless it is clipped inside the soma. *)
Lemma grow_interior_point_start (loglevel : Z) (scentre : vec3) (sradius : float)
    (o : morph_options) (node : handle) (pt : point) (is_cut : bool) (st : gstate) :
  let r := grow_interior_point loglevel scentre sradius o node pt is_cut None st in
  if negb (k_CLIP_INSIDE_SOMA o) || leaves_soma scentre sradius pt
  then fst <$> r.1 = Some (HSection (next_section (morphology st)))
       /\ exists p d, morphology r.2
                      = Morph (GrowSection node p d (HSection (next_section (morphology st)))
                               :: calls (morphology st))
                              (S (next_section (morphology st)))
  else fst <$> r.1 = None /\ morphology r.2 = morphology st.
Proof.
  unfold grow_interior_point, leaves_soma. cbv zeta.
  destruct (negb _ || _); [|done]. simpl. split; [done|]. by eexists _, _.
Qed.

(** A segment whose second sample is the first cut point: the walk handles
    that sample alone, then the end node with the cut flag set, and the loop
    goes on with the next segment. *)
Lemma grow_node_segments_interior_cut (loglevel : Z) (scentre : vec3) (sradius : float)
    (o : morph_options) (pnode_idx : nat) (segm : segment) (rest : list segment)
    (st : gstate) (p0 p1 pn : point) (mid : list point) (node : handle) :
  start segm = pnode_idx ->
  points segm = p0 :: p1 :: mid ++ [pn] ->
  dict_get (position p0) (nodes st) = Some node ->
  is_cut_point (position p0) (k_CUTPOINT_AABB o) = false ->
  is_cut_point (position p1) (k_CUTPOINT_AABB o) = true ->
  grow_node_segments loglevel scentre sradius o pnode_idx (segm :: rest) false st
  = let r := grow_interior_point loglevel scentre sradius o node p1 true None st in
    grow_node_segments loglevel scentre sradius o pnode_idx rest false
      (grow_end_node loglevel scentre sradius o node pn (fst <$> r.1) true
                     (with_stats (incr_cut_nodes_found (stats r.2)) r.2)).
Proof.
  intros Hs Hp Hn H0 H1. cbn [grow_node_segments].
  rewrite Hs, bool_decide_eq_true_2 by done. simpl_result. rewrite Hp.
  rewrite Hn. cbn [orb]. rewrite H0.
  replace (removelast (p1 :: mid ++ [pn])) with (p1 :: mid)
    by (rewrite app_comm_cons, removelast_last; reflexivity).
  replace (List.last (p1 :: mid ++ [pn]) p1) with pn
    by (rewrite app_comm_cons, last_last; reflexivity).
  cbn [walk_interior orb]. rewrite H1. cbv zeta.
  by destruct (grow_interior_point _ _ _ _ _ _ _ None st) as [s1 st1].
Qed.

(** C4, as amended: when the start sample of a segment is inside the AABB
    and its second sample, an interior one, is outside, the walk stops at
    that sample (the later interior samples are not read) and the cut-node
    counter goes up by two: once for the interior sample, once more in the
    end-node handling.  The interior sample starts a section from the start
    node unless it is clipped inside the soma.  The end node is left alone
    when its position is bound already; otherwise it is grown by one call to
    [grow] and marked as a cut point, from the section just started or, when
    there is none and the end node is not clipped, from the start node; an
    end node that is clipped is bound to the handle of the start node and
    nothing is grown.  The loop over the segments of the node goes on with no
    parent cut, and when it ends without one, [grow_segments] calls itself
    on every child of the node. *)
Theorem interior_cut_grows_end_node (loglevel : Z) (scentre : vec3) (sradius : float)
    (o : morph_options) (pnode_idx : nat) (segm : segment) (rest : list segment)
    (st : gstate) (p0 p1 pn : point) (mid : list point) (node : handle) :
  start segm = pnode_idx ->
  points segm = p0 :: p1 :: mid ++ [pn] ->
  dict_get (position p0) (nodes st) = Some node ->
  is_cut_point (position p0) (k_CUTPOINT_AABB o) = false ->
  is_cut_point (position p1) (k_CUTPOINT_AABB o) = true ->
  let started := negb (k_CLIP_INSIDE_SOMA o) || leaves_soma scentre sradius p1 in
  let ends := negb (k_CLIP_INSIDE_SOMA o) || end_leaves_soma scentre sradius pn in
  let s1 := HSection (next_section (morphology st)) in
  exists (st' : gstate) (m1 : morph),
    (forall segm2 mid2,
        start segm2 = pnode_idx -> points segm2 = p0 :: p1 :: mid2 ++ [pn] ->
        grow_node_segments loglevel scentre sradius o pnode_idx (segm2 :: rest) false st
        = grow_node_segments loglevel scentre sradius o pnode_idx rest false st')
    /\ cut_nodes_found (stats st') = (2 + cut_nodes_found (stats st))%nat
    /\ visited st' = visited st
    /\ (if started
        then exists p d, m1 = Morph (GrowSection node p d s1 :: calls (morphology st))
                                    (S (next_section (morphology st)))
        else m1 = morphology st)
    /\ (if dict_mem (position pn) (nodes st)
        then nodes st' = nodes st /\ morphology st' = m1
        else if started || ends
        then nodes st' = dict_set (position pn) (HSection (next_section m1)) (nodes st)
             /\ exists p d,
                  morphology st'
                  = Morph (MarkCutPoint (HSection (next_section m1))
                           :: GrowSection (if started then s1 else node) p d
                                          (HSection (next_section m1))
                           :: calls m1)
                          (S (next_section m1))
        else nodes st' = dict_set (position pn) node (nodes st) /\ morphology st' = m1)
    /\ (veqb (position pn) (position pn) = true ->
        dict_mem (position pn) (nodes st') = true)
    /\ (forall (dagnodes : gmap nat (list nat)) (nodesegments : gmap nat (list segment))
               (frames : nat) (depth : Z) (st0 stn : gstate) (children : list nat),
          st = with_visited (visited st0 ++ [pnode_idx]) st0 ->
          depth <> 0%Z -> pnode_idx ∉ visited st0 ->
          nodesegments !! pnode_idx = Some (segm :: rest) ->
          dagnodes !! pnode_idx = Some children ->
          grow_node_segments loglevel scentre sradius o pnode_idx rest false st'
          = Ok (false, stn) ->
          grow_segments loglevel dagnodes nodesegments scentre sradius o
                        (S frames) pnode_idx depth st0
          = foldM (fun s cn_idx =>
                     grow_segments loglevel dagnodes nodesegments scentre sradius o
                                   frames cn_idx
                                   (if (0 <? depth)%Z then depth - 1 else -1)%Z s)
                  children stn).
Proof.
  intros Hs Hp Hn H0 H1. cbv zeta.
  set (r := grow_interior_point loglevel scentre sradius o node p1 true None st).
  set (st2 := with_stats (incr_cut_nodes_found (stats r.2)) r.2).
  set (st' := grow_end_node loglevel scentre sradius o node pn (fst <$> r.1) true st2).
  assert (forall segm2 mid2,
             start segm2 = pnode_idx -> points segm2 = p0 :: p1 :: mid2 ++ [pn] ->
             grow_node_segments loglevel scentre sradius o pnode_idx (segm2 :: rest) false st
             = grow_node_segments loglevel scentre sradius o pnode_idx rest false st')
    as Hloop.
  { intros segm2 mid2 Hs2 Hp2.
    by rewrite (grow_node_segments_interior_cut loglevel scentre sradius o pnode_idx segm2
                  rest st p0 p1 pn mid2 node). }
  exists st', (morphology r.2).
  pose proof (grow_interior_point_frame loglevel scentre sradius o node p1 true None st)
    as (Hf1 & Hf2 & Hf3). fold r in Hf1, Hf2, Hf3.
  pose proof (grow_end_node_spec loglevel scentre sradius o node pn (fst <$> r.1) true st2)
    as (He1 & He2 & He3). fold st' in He1, He2, He3. cbn [orb] in He1.
  pose proof (grow_end_node_cases loglevel scentre sradius o node pn (fst <$> r.1) true st2)
    as Hc. cbv zeta in Hc. fold st' in Hc. cbn [orb] in Hc.
  assert (nodes st2 = nodes st) as Hn2 by (subst st2; simpl; exact Hf1).
  assert (morphology st2 = morphology r.2) as Hm2 by reflexivity.
  rewrite Hn2, Hm2 in Hc.
  pose proof (grow_interior_point_start loglevel scentre sradius o node p1 true st) as Hr.
  cbv zeta in Hr. fold r in Hr.
  split; [exact Hloop|]. split; [|split; [|split; [|split; [|split]]]].
  - rewrite He1. subst st2. simpl. rewrite Hf3. lia.
  - rewrite He2. subst st2. simpl. exact Hf2.
  - destruct (negb (k_CLIP_INSIDE_SOMA o) || leaves_soma scentre sradius p1); tauto.
  - destruct (dict_mem (position pn) (nodes st)); [by rewrite Hc|].
    destruct (negb (k_CLIP_INSIDE_SOMA o) || leaves_soma scentre sradius p1).
    + destruct Hr as [Hsec _]. rewrite Hsec in Hc. destruct Hc as (p & d & p' & ->).
      cbn [orb]. split; [done|]. by exists p, d.
    + destruct Hr as [Hsec _]. rewrite Hsec in Hc. cbn [orb].
      destruct (negb (k_CLIP_INSIDE_SOMA o) || end_leaves_soma scentre sradius pn).
      * destruct Hc as (p & d & p' & ->). split; [done|]. by exists p, d.
      * by rewrite Hc.
  - intros Hr'. rewrite He3, Hr'. reflexivity.
  - intros dagnodes nodesegments frames depth st0 stn children Hst Hd Hv Hsegs Hch Hrest.
    cbn [grow_segments]. apply Z.eqb_neq in Hd. rewrite Hd.
    rewrite bool_decide_eq_false_2 by done. rewrite Hsegs.
    change (default [] (Some (segm :: rest))) with (segm :: rest).
    rewrite <- Hst, (Hloop segm mid Hs Hp), Hrest. simpl_result. by rewrite Hch.
Qed.

(** Witness: the first segment of scenario D.  The sample at x = 20 starts
    section 0 from the soma; the end node at x = 5 is grown from it as
    section 1 and marked; then [grow_segments] calls itself on the child 2. *)
Lemma interior_cut_grows_end_node_witness :
  exists st',
    grow_node_segments INFO (V3 0 0 0) 1 options_D 1
      [Segment 1 2 [sample 0.5; sample 20; sample 5]] false
      (GState [(position (sample 0.5), HSoma)] [1] empty_morph no_warnings [])
    = Ok (false, st')
    /\ cut_nodes_found (stats st') = 2%nat
    /\ nodes st' = [(position (sample 5), HSection 1); (position (sample 0.5), HSoma)]
    /\ (exists p d p' d',
          calls (morphology st')
          = [MarkCutPoint (HSection 1); GrowSection (HSection 0) p d (HSection 1);
             GrowSection HSoma p' d' (HSection 0)])
    /\ grow_segments INFO dag_D node_segments_D (V3 0 0 0) 1 options_D 3 1 (-1)
         (GState [(position (sample 0.5), HSoma)] [] empty_morph no_warnings [])
       = foldM (fun s cn_idx =>
                  grow_segments INFO dag_D node_segments_D (V3 0 0 0) 1 options_D 2 cn_idx
                                (-1) s)
               [2] st'.
Proof.
  destruct (interior_cut_grows_end_node INFO (V3 0 0 0) 1 options_D 1
              (Segment 1 2 [sample 0.5; sample 20; sample 5]) []
              (GState [(position (sample 0.5), HSoma)] [1] empty_morph no_warnings [])
              (sample 0.5) (sample 20) (sample 5) [] HSoma)
    as (st' & m1 & Hloop & Hcut & _ & Hm1 & Hend & _ & Hrec);
    [vm_compute; reflexivity..|].
  exists st'.
  split; [exact (Hloop (Segment 1 2 [sample 0.5; sample 20; sample 5]) [] eq_refl eq_refl)|].
  split; [exact Hcut|].
  vm_compute in Hm1. destruct Hm1 as (p' & d' & ->).
  vm_compute in Hend. destruct Hend as (Hnodes & p & d & Hm).
  split; [exact Hnodes|]. split; [exists p, d, p', d'; exact (f_equal calls Hm)|].
  apply (Hrec dag_D node_segments_D 2 (-1)%Z
              (GState [(position (sample 0.5), HSoma)] [] empty_morph no_warnings []) st' [2]);
    [reflexivity|discriminate|apply not_elem_of_nil|reflexivity|reflexivity|reflexivity].
Defined.

(** The same segment in a soma of radius 100: the interior sample and the
    end node are clipped, the end node is bound to the soma handle of the
    start node and nothing is grown; the cut is still counted twice. *)
Lemma interior_cut_inside_soma :
  is_cut_point (position (sample 0.5)) (Some box_D) = false
  /\ is_cut_point (position (sample 20)) (Some box_D) = true
  /\ grow_node_segments INFO (V3 0 0 0) 100 options_D 1
       [Segment 1 2 [sample 0.5; sample 20; sample 5]] false
       (GState [(position (sample 0.5), HSoma)] [1] empty_morph no_warnings [])
     = Ok (false, GState [(position (sample 5), HSoma); (position (sample 0.5), HSoma)] [1]
                         empty_morph (WarnCounts 0 0 0 2 0) []).
Proof. repeat split; vm_compute; reflexivity. Qed.

(** ** Growth: every node is grown once *)

Lemma extends_fresh_trans (l1 l2 l3 : list (vec3 * handle)) :
  extends_fresh l1 l2 -> extends_fresh l2 l3 -> extends_fresh l1 l3.
Proof. intros H12 H23. induction H23; [done|]. by constructor. Qed.

Lemma morph_wf_sink (c : sink_call) (m : morph) :
  is_grow_call c = false \/ (exists s p d, c = GrowPoint s p d) ->
  morph_wf m -> morph_wf (sink c m).
Proof.
  intros Hc [Hnd Hlt]. unfold morph_wf, sink. simpl.
  destruct c as [| |parent p d child| | |]; try done.
  destruct Hc as [Hc|(s & p' & d' & Hc)]; discriminate.
Qed.

Lemma morph_wf_grow_section (parent : handle) (p : vec3) (d : float) (m : morph) :
  morph_wf m -> morph_wf (grow_section parent p d m).2.
Proof.
  intros [Hnd Hlt]. unfold morph_wf, grow_section. simpl. split.
  - constructor; [|done]. intros Hin. apply Hlt in Hin. lia.
  - intros i Hi. apply elem_of_cons in Hi as [->|Hi]; [lia|]. apply Hlt in Hi. lia.
Qed.

Lemma grows_refl (st : gstate) : grows st st.
Proof. split; [constructor|done]. Qed.

Lemma grows_same_nodes (st st' : gstate) :
  nodes st' = nodes st -> visited st' = visited st ->
  (morph_wf (morphology st) -> morph_wf (morphology st')) -> grows st st'.
Proof. intros Hn Hv Hm. split; [rewrite Hn; constructor|done]. Qed.

Lemma grows_trans (st1 st2 st3 : gstate) : grows st1 st2 -> grows st2 st3 -> grows st1 st3.
Proof.
  intros (H1 & H2 & H3) (H1' & H2' & H3'). split; [|split].
  - by eapply extends_fresh_trans.
  - congruence.
  - auto.
Qed.




Section SingleGrowth.
Variables (loglevel : Z) (dagnodes : gmap nat (list nat)).
Variables (nodesegments : gmap nat (list segment)) (scentre : vec3) (sradius : float).
Variable options : morph_options.

Lemma grow_interior_point_grows (node : handle) (pt : point) (is_cut : bool)
    (section : option (handle * vec3)) (st : gstate) :
  grows st (grow_interior_point loglevel scentre sradius options node pt is_cut section st).2.
Proof.
  unfold grow_interior_point. destruct section as [[sec prev]|]; cbn zeta.
  - destruct (_ <=? _)%float; cbn [snd]; apply grows_same_nodes; try done.
    simpl. intros Hwf.
    destruct is_cut; repeat (apply morph_wf_sink; [eauto|]); done.
  - destruct (negb _ || _); cbn [snd]; apply grows_same_nodes; try done.
    simpl. intros Hwf. by apply (morph_wf_grow_section node).
Qed.

Lemma walk_interior_grows (node : handle) (pts : list point)
    (section : option (handle * vec3)) (is_cut : bool) (st : gstate) :
  grows st (walk_interior loglevel scentre sradius options node pts section is_cut st).2.
Proof.
  revert section is_cut st. induction pts as [|pt pts IH]; intros section is_cut st;
    [apply grows_refl|].
  cbn [walk_interior].
  set (c := is_cut || _).
  pose proof (grow_interior_point_grows node pt c section st) as H.
  destruct (grow_interior_point _ _ _ _ _ _ _ section st) as [s' st']. cbn [snd] in H.
  destruct c; cbn [snd].
  - eapply grows_trans; [exact H|]. by apply grows_same_nodes.
  - eapply grows_trans; [exact H|]. apply IH.
Qed.

Lemma grow_end_node_grows (node : handle) (ndata : point) (section : option handle)
    (is_cut : bool) (st : gstate) :
  grows st (grow_end_node loglevel scentre sradius options node ndata section is_cut st).
Proof.
  unfold grow_end_node. cbv zeta.
  set (cut := is_cut || _).
  set (st1 := if cut then _ else st).
  assert (grows st st1) as H1 by (subst st1; destruct cut; by apply grows_same_nodes).
  eapply grows_trans; [exact H1|].
  destruct (dict_mem (position ndata) (nodes st1)) eqn:Hm; [apply grows_refl|].
  destruct (match section with Some _ => section | None => _ end) as [sec|].
  - split; [|split; [done|]].
    + simpl. by apply extends_fresh_bind; [constructor|].
    + simpl. intros Hwf. destruct cut.
      * apply morph_wf_sink; [eauto|]. by apply (morph_wf_grow_section sec).
      * by apply (morph_wf_grow_section sec).
  - split; [|split; done]. simpl. by apply extends_fresh_bind; [constructor|].
Qed.

Lemma grow_node_segments_grows (pnode_idx : nat) (segments : list segment)
    (is_parent_cut : bool) (st : gstate) :
  match grow_node_segments loglevel scentre sradius options pnode_idx segments
                           is_parent_cut st with
  | Ok (_, st') => grows st st'
  | Raise e => e = AssertionError
  | OutOfFuel => False
  end.
Proof.
  revert is_parent_cut st. induction segments as [|segm segments IH];
    intros is_parent_cut st; cbn [grow_node_segments]; [apply grows_refl|].
  destruct (bool_decide (start segm = pnode_idx)); simpl_result; [|done].
  destruct (points segm) as [|ndata [|p1 tl]]; [apply IH..|].
  destruct (dict_get (position ndata) (nodes st)) as [node|]; [|done].
  destruct (is_parent_cut || _); [apply grows_refl|].
  pose proof (walk_interior_grows node (removelast (p1 :: tl)) None false st) as Hw.
  destruct (walk_interior _ _ _ _ _ _ None false st) as [[section is_cut] st1].
  cbn [snd] in Hw.
  pose proof (grow_end_node_grows node (List.last (p1 :: tl) p1) (fst <$> section)
                is_cut st1) as He.
  specialize (IH false (grow_end_node loglevel scentre sradius options node
                          (List.last (p1 :: tl) p1) (fst <$> section) is_cut st1)).
  destruct (grow_node_segments _ _ _ _ _ _ _ _) as [[b st']| |]; [|done|done].
  eapply grows_trans; [exact Hw|]. eapply grows_trans; [exact He|]. exact IH.
Qed.

Lemma pending_mono (st st' : gstate) :
  (forall x, x ∈ visited st -> x ∈ visited st') -> pending dagnodes st' <= pending dagnodes st.
Proof.
  intros H. unfold pending. apply subseteq_size. intros x.
  rewrite !elem_of_difference, !elem_of_list_to_set. intros [Hd Hv]. split; [done|]. auto.
Qed.

Lemma pending_visit (st : gstate) (n : nat) :
  n ∉ visited st -> is_Some (dagnodes !! n) ->
  pending dagnodes (with_visited (visited st ++ [n]) st) < pending dagnodes st.
Proof.
  intros Hn Hd. unfold pending. simpl. apply subset_size. split.
  - intros x. rewrite !elem_of_difference, !elem_of_list_to_set, elem_of_app.
    intros [Hx Hv]. split; [done|]. auto.
  - intros Hsub. specialize (Hsub n).
    rewrite !elem_of_difference, !elem_of_list_to_set, elem_of_app in Hsub.
    destruct Hsub as [_ Hsub].
    + split; [by apply elem_of_dom|done].
    + apply Hsub. right. apply list_elem_of_here.
Qed.

Lemma expands_trans (st1 st2 st3 : gstate) :
  expands st1 st2 -> expands st2 st3 -> expands st1 st3.
Proof.
  intros (E1 & E2 & E3 & E4) (F1 & F2 & F3 & F4).
  split; [by eapply extends_fresh_trans|]. split; [auto|]. split; auto.
Qed.

Lemma grows_expands (st st' : gstate) : grows st st' -> expands st st'.
Proof. intros (B1 & B2 & B3). split; [done|]. rewrite B2. auto. Qed.

(** A loop of calls that each keep the table, and that find room for their
    nested calls when [frames] exceeds the number of nodes still to visit. *)
Lemma foldM_children (f : gstate -> nat -> result gstate) (frames : nat)
    (children : list nat) (st : gstate) :
  (forall s c, match f s c with
               | Ok s' => expands s s'
               | Raise _ => True
               | OutOfFuel => False
               end) ->
  (forall s c, pending dagnodes s < frames -> f s c <> Raise RuntimeError) ->
  match foldM f children st with
  | Ok st' => expands st st'
  | Raise _ => True
  | OutOfFuel => False
  end
  /\ (pending dagnodes st < frames -> foldM f children st <> Raise RuntimeError).
Proof.
  intros Hexp Hroom. revert st. induction children as [|c children IH]; intros st.
  - simpl. split; [|done]. split; [constructor|done].
  - rewrite foldM_cons. specialize (Hexp st c). specialize (Hroom st c).
    destruct (f st c) as [s'|e|]; simpl_result; [|done|done].
    destruct (IH s') as [IH1 IH2]. split.
    + destruct (foldM f children s') as [st'| |]; [|done..].
      by eapply expands_trans.
    + intros Hb. apply IH2. destruct Hexp as (_ & E2 & _).
      pose proof (pending_mono st s' E2). lia.
Qed.

(** A call of [grow_segments] keeps the table, and it finds room for its
    nested calls when [frames] exceeds the number of nodes of the directed
    graph that are still to visit: every nested call visits a new node. *)
Lemma grow_segments_expands (frames : nat) (pnode_idx : nat) (depth : Z) (st : gstate) :
  match grow_segments loglevel dagnodes nodesegments scentre sradius options
                      frames pnode_idx depth st with
  | Ok st' => expands st st'
  | Raise _ => True
  | OutOfFuel => False
  end
  /\ (pending dagnodes st < frames ->
      grow_segments loglevel dagnodes nodesegments scentre sradius options
                    frames pnode_idx depth st <> Raise RuntimeError).
Proof.
  revert pnode_idx depth st. induction frames as [|frames IH]; intros pnode_idx depth st.
  { simpl. split; [done|lia]. }
  cbn [grow_segments].
  destruct (depth =? 0)%Z.
  { split; [|done]. split; [constructor|done]. }
  case_bool_decide as Hv.
  { split; [|done]. split; [constructor|done]. }
  set (st1 := with_visited (visited st ++ [pnode_idx]) st).
  assert (expands st st1) as H1.
  { split; [constructor|]. split; [|split; [|done]]; simpl.
    - intros x Hx. apply elem_of_app. by left.
    - intros Hnd. apply NoDup_app. split; [done|]. split; [|apply NoDup_singleton].
      intros x Hx Hx'. by apply list_elem_of_singleton in Hx' as ->. }
  pose proof (grow_node_segments_grows pnode_idx
                (default [] (nodesegments !! pnode_idx)) false st1) as H2.
  destruct (grow_node_segments _ _ _ _ _ _ _ st1) as [[cut st2]|e|]; simpl_result;
    [|by subst e|done].
  assert (expands st st2) as H12
    by (eapply expands_trans; [exact H1|by apply grows_expands]).
  destruct cut; [done|].
  destruct (dagnodes !! pnode_idx) as [children|] eqn:Hd; [|done].
  destruct (foldM_children
              (fun st cn_idx => grow_segments loglevel dagnodes nodesegments
                                  scentre sradius options frames cn_idx
                                  (if (0 <? depth)%Z then depth - 1 else -1)%Z st)
              frames children st2) as [F1 F2].
  { intros s c. apply IH. }
  { intros s c. apply IH. }
  split.
  - destruct (foldM _ children st2) as [st'| |]; [|done..]. by eapply expands_trans.
  - intros Hp. apply F2.
    assert (pending dagnodes st2 < pending dagnodes st) as Hlt; [|lia].
    destruct H2 as (_ & B2 & _).
    replace (pending dagnodes st2) with (pending dagnodes st1)
      by (unfold pending; by rewrite B2).
    apply pending_visit; [done|eauto].
Qed.

Lemma foldM_invariant {A : Type} (P : gstate -> Prop) (f : gstate -> A -> result gstate)
    (l : list A) (st : gstate) :
  (forall s a, P s -> match f s a with Ok s' => P s' | Raise _ => True | OutOfFuel => False end) ->
  P st ->
  match foldM f l st with Ok s' => P s' | Raise _ => True | OutOfFuel => False end.
Proof.
  intros Hf. revert st. induction l as [|a l IH]; intros st HP; [done|].
  rewrite foldM_cons. specialize (Hf st a HP).
  destruct (f st a) as [s'| |]; simpl_result; [|done..]. by apply IH.
Qed.

Lemma grow_soma_segment_grown (snode_idx : nat) (st : gstate) (segm : segment) :
  soma_grown options st ->
  match grow_soma_segment loglevel scentre sradius options snode_idx st segm with
  | Ok st' => soma_grown options st'
  | Raise _ => True
  | OutOfFuel => False
  end.
Proof.
  intros (Hs & Hv & Hwf). unfold grow_soma_segment.
  destruct (bool_decide _); simpl_result; [|done].
  destruct (points segm) as [|ndata pts]; [done|].
  destruct (k_INFLATE_SOMA options) eqn:Hinf.
  - split; [|split; [done|by apply morph_wf_sink; [left|]]].
    intros _ k h Hin. simpl in Hin. apply elem_of_cons in Hin as [[= -> ->]|Hin]; [done|].
    by eapply Hs.
  - unfold grow_section. cbv zeta. cbv beta iota.
    split; [rewrite Hinf; intros; discriminate|]. split; [done|]. cbn [morphology].
    apply morph_wf_sink; [by left|].
    exact (morph_wf_grow_section HSoma _ _ (morphology st) Hwf).
Qed.

Lemma grow_soma_grown (somanodes : list nat) (w : warn_counts) :
  match grow_soma loglevel somanodes nodesegments scentre sradius options (empty_gstate w) with
  | Ok st' => soma_grown options st'
  | Raise _ => True
  | OutOfFuel => False
  end.
Proof.
  unfold grow_soma. apply foldM_invariant.
  - intros s n Hs. apply foldM_invariant; [|done].
    intros s' segm Hs'. by apply grow_soma_segment_grown.
  - assert (morph_wf empty_morph) as Hwf.
    { split; [constructor|]. intros i Hi. by apply elem_of_nil in Hi. }
    destruct (loglevel <=? DEBUG)%Z.
    + split; [|split; [done|by apply morph_wf_sink; [left|]]].
      intros _ k h Hin. by apply elem_of_nil in Hin.
    + split; [|done]. intros _ k h Hin. by apply elem_of_nil in Hin.
Qed.

(** *** The sections of the table *)









(** [grow_soma] makes no recursive call. *)
Lemma grow_soma_raises (somanodes : list nat) (st : gstate) :
  match grow_soma loglevel somanodes nodesegments scentre sradius options st with
  | Raise e => e = AssertionError \/ e = IndexError
  | _ => True
  end.
Proof.
  unfold grow_soma.
  apply (foldM_raises (fun e => e = AssertionError \/ e = IndexError)). intros s n _.
  apply (foldM_raises (fun e => e = AssertionError \/ e = IndexError)). intros s' segm _.
  unfold grow_soma_segment. destruct (bool_decide _); simpl_result; [|by left].
  destruct (points segm) as [|ndata pts]; [by right|].
  by destruct (k_INFLATE_SOMA options).
Qed.



End SingleGrowth.




(** Scenario D needs room for three nested calls: with room for two, the
    call for node 3 raises [RuntimeError]. *)
Lemma scenario_D_recursion_limit :
  grow_morphology INFO dag_D node_segments_D (V3 0 0 0) 1 options_D 2 [1] (-1) no_warnings
  = Raise RuntimeError
  /\ visited <$> grow_morphology INFO dag_D node_segments_D (V3 0 0 0) 1 options_D 3 [1] (-1)
                                 no_warnings
     = Ok [1; 2; 3].
Proof. split; vm_compute; reflexivity. Qed.

(** ** create_node_graph *)

Lemma neighbours_of_graph_add (a b k : nat) (g : gmap nat (list nat)) :
  neighbours_of (graph_add a b g) k
  = if bool_decide (k = a) then set_add b (neighbours_of g k) else neighbours_of g k.
Proof.
  unfold neighbours_of, graph_add. case_bool_decide as Hk.
  - subst. by rewrite lookup_insert_eq.
  - by rewrite lookup_insert_ne.
Qed.

Lemma NoDup_set_add (x : nat) (l : list nat) : NoDup l -> NoDup (set_add x l).
Proof.
  intros Hl. unfold set_add. case_bool_decide as Hx; [done|].
  apply NoDup_app. split; [done|]. split.
  - intros y Hy Hy'. apply list_elem_of_singleton in Hy'. by subst.
  - apply NoDup_singleton.
Qed.

Lemma neighbours_of_segment (s : segment) (g : gmap nat (list nat)) (n nn : nat) :
  nn ∈ neighbours_of (graph_add (end_ s) (start s) (graph_add (start s) (end_ s) g)) n
  <-> nn ∈ neighbours_of g n \/ joins s n nn.
Proof.
  rewrite !neighbours_of_graph_add. unfold joins.
  repeat case_bool_decide; rewrite ?elem_of_set_add; naive_solver.
Qed.

Lemma create_node_graph_fold (segments : list segment) (g : gmap nat (list nat)) (n nn : nat) :
  let r := fold_left (fun edges segm =>
                        graph_add (end_ segm) (start segm)
                                  (graph_add (start segm) (end_ segm) edges)) segments g in
  (nn ∈ neighbours_of r n
   <-> nn ∈ neighbours_of g n \/ exists s, s ∈ segments /\ joins s n nn)
  /\ (NoDup (neighbours_of g n) -> NoDup (neighbours_of r n)).
Proof.
  cbv zeta. revert g. induction segments as [|s segments IH]; intros g; cbn [fold_left].
  - split; [|done]. split; [auto|]. intros [?|(s & Hs & _)]; [done|]. by apply elem_of_nil in Hs.
  - destruct (IH (graph_add (end_ s) (start s) (graph_add (start s) (end_ s) g))) as [IH1 IH2].
    split.
    + rewrite IH1, neighbours_of_segment. setoid_rewrite elem_of_cons. naive_solver.
    + intros Hg. apply IH2. rewrite !neighbours_of_graph_add.
      repeat case_bool_decide; repeat apply NoDup_set_add; done.
Qed.

Lemma create_node_graph_joins (segments : list segment) (a b : nat) :
  b ∈ neighbours_of (create_node_graph segments) a <-> exists s, s ∈ segments /\ joins s a b.
Proof.
  destruct (create_node_graph_fold segments ∅ a b) as [H _].
  unfold create_node_graph. rewrite H. unfold neighbours_of at 1.
  rewrite lookup_empty. simpl. split; [|auto]. intros [H'|?]; [|done].
  by apply elem_of_nil in H'.
Qed.

(** X1: [create_node_graph] makes [nn] a neighbour of [n] exactly when a
    segment joins them, whichever way the segment is stored; the relation is
    symmetric, and a node is listed once among the neighbours of another. *)
Theorem create_node_graph_adjacency (segments : list segment) (n nn : nat) :
  (nn ∈ neighbours_of (create_node_graph segments) n
   <-> exists s, s ∈ segments /\ joins s n nn)
  /\ (nn ∈ neighbours_of (create_node_graph segments) n
      <-> n ∈ neighbours_of (create_node_graph segments) nn)
  /\ NoDup (neighbours_of (create_node_graph segments) n).
Proof.
  split; [apply create_node_graph_joins|]. split.
  - rewrite !create_node_graph_joins. unfold joins.
    split; intros (s & Hs & Hj); exists s; tauto.
  - apply (create_node_graph_fold segments ∅ n nn). unfold neighbours_of.
    rewrite lookup_empty. constructor.
Qed.

(** ** create_directed_graph: the edges of the result *)

Lemma cdg_loop_invariant (P : cdg_state -> Prop) options somanodes nodesgraph
    (fuel : nat) (st st' : cdg_state) :
  (forall n rest s, cdg_frontier s = n :: rest -> P s ->
                    P (cdg_step options somanodes nodesgraph n rest s)) ->
  P st -> cdg_loop fuel options somanodes nodesgraph st = Some st' -> P st'.
Proof.
  intros Hstep. revert st. induction fuel as [|fuel IH]; intros st HP; simpl;
    destruct (cdg_frontier st) as [|n rest] eqn:HF; try discriminate.
  - by intros [= <-].
  - by intros [= <-].
  - apply IH. by apply Hstep.
Qed.

(** The state at the end of the loop, for every fuel that suffices. *)
Lemma cdg_loop_returns options somanodes nodesgraph (stats : warn_counts) :
  exists st,
    forall fuel, cdg_fuel nodesgraph somanodes (cdg_init somanodes stats) <= fuel ->
                 cdg_loop fuel options somanodes nodesgraph (cdg_init somanodes stats) = Some st.
Proof.
  set (fuel0 := cdg_fuel nodesgraph somanodes (cdg_init somanodes stats)).
  destruct (cdg_loop_terminates options somanodes nodesgraph fuel0 (cdg_init somanodes stats))
    as [st Hst]; [apply cdg_init_frontier_in_graph | done |].
  exists st. intros fuel Hfuel. by apply (cdg_loop_fuel_mono _ _ _ _ _ _ _ Hst Hfuel).
Qed.

Lemma cdg_edges_init_lookup (n k : nat) (E : gmap nat (list nat)) (l : list nat) :
  cdg_edges_init n E !! k = Some l -> E !! k = Some l \/ (k = n /\ l = [] /\ E !! n = None).
Proof.
  unfold cdg_edges_init. case_bool_decide as Hn; [auto|].
  destruct (decide (k = n)) as [->|Hne].
  - rewrite lookup_insert_eq. intros [= <-]. right. split; [done|]. split; [done|].
    by apply eq_None_not_Some.
  - rewrite lookup_insert_ne by congruence. auto.
Qed.

Lemma cdg_edges_fold_NoDup (accept : nat -> bool) (n k : nat) (nbrs : list nat)
    (E : gmap nat (list nat)) (l : list nat) :
  (forall l0, E !! k = Some l0 -> NoDup l0) ->
  fold_left (fun E nn => if accept nn then graph_add n nn E else E) nbrs E !! k = Some l ->
  NoDup l.
Proof.
  revert E. induction nbrs as [|nn nbrs IH]; intros E HE; simpl; [apply HE|].
  apply IH. destruct (accept nn); [|done]. intros l0. unfold graph_add.
  destruct (decide (n = k)) as [->|Hne].
  - rewrite lookup_insert_eq. intros [= <-]. apply NoDup_set_add.
    destruct (E !! k) as [l1|] eqn:Hl1; simpl; [by apply HE | constructor].
  - rewrite lookup_insert_ne by done. apply HE.
Qed.

(** The lookups in the edges after a step. *)
Lemma cdg_step_edges options somanodes nodesgraph (n : nat) (rest : list nat)
    (st : cdg_state) (a : nat) (l : list nat) :
  cdg_edges (cdg_step options somanodes nodesgraph n rest st) !! a = Some l ->
  (a <> n /\ cdg_edges st !! a = Some l)
  \/ (a = n
      /\ forall x, x ∈ l <-> x ∈ default [] (cdg_edges st !! n)
                             \/ (x ∈ neighbours_of nodesgraph n
                                 /\ cdg_accept options somanodes (cdg_visited st ++ [n]) x
                                    = true)).
Proof.
  destruct (cdg_step_spec options somanodes nodesgraph n rest st) as (_ & _ & -> & _).
  destruct (decide (a = n)) as [->|Hne].
  - intros Hl. right. split; [done|].
    destruct (cdg_edges_init n (cdg_edges st) !! n) as [l0|] eqn:Hl0.
    2:{ apply eq_None_not_Some in Hl0. exfalso. apply Hl0, cdg_edges_init_is_Some. by right. }
    destruct (cdg_edges_fold_self
                (cdg_accept options somanodes (cdg_visited st ++ [n])) n
                (neighbours_of nodesgraph n) _ _ Hl0) as (l' & Hl' & Hin).
    rewrite Hl' in Hl. injection Hl as <-. intros x. rewrite Hin.
    apply cdg_edges_init_lookup in Hl0 as [->|(_ & -> & ->)]; done.
  - rewrite cdg_edges_fold_other by done. intros Hl. left. split; [done|].
    apply cdg_edges_init_lookup in Hl as [?|[? _]]; [done|congruence].
Qed.

(** The edges only grow. *)
Lemma cdg_step_has_edge options somanodes nodesgraph (n : nat) (rest : list nat)
    (st : cdg_state) (a b : nat) :
  has_edge (cdg_edges st) a b = true ->
  has_edge (cdg_edges (cdg_step options somanodes nodesgraph n rest st)) a b = true.
Proof.
  unfold has_edge. destruct (cdg_edges st !! a) as [l|] eqn:Hl; [|done].
  intros Hb. apply bool_decide_eq_true in Hb.
  destruct (cdg_step_spec options somanodes nodesgraph n rest st) as (_ & _ & -> & _).
  destruct (decide (a = n)) as [->|Hne].
  - assert (cdg_edges_init n (cdg_edges st) !! n = Some l) as Hl0.
    { unfold cdg_edges_init. rewrite bool_decide_eq_true_2; [done|]. rewrite Hl. eauto. }
    destruct (cdg_edges_fold_self
                (cdg_accept options somanodes (cdg_visited st ++ [n])) n
                (neighbours_of nodesgraph n) _ _ Hl0) as (l' & -> & Hin).
    apply bool_decide_eq_true. apply Hin. by left.
  - rewrite cdg_edges_fold_other by done.
    assert (cdg_edges_init n (cdg_edges st) !! a = Some l) as ->.
    { unfold cdg_edges_init. case_bool_decide; [done|]. by rewrite lookup_insert_ne. }
    by apply bool_decide_eq_true.
Qed.

Lemma cdg_accept_true options somanodes (V : list nat) (x : nat) :
  cdg_accept options somanodes V x = true
  <-> (k_CONNECT_SOMA_SOMA options = false -> x ∉ somanodes)
      /\ (k_ALLOW_CYCLES options = false -> x ∉ V).
Proof.
  unfold cdg_accept. rewrite andb_true_iff, !orb_true_iff, !negb_true_iff.
  rewrite !bool_decide_eq_false.
  destruct (k_CONNECT_SOMA_SOMA options), (k_ALLOW_CYCLES options); naive_solver.
Qed.

Section DirectedEdges.
Variables (options : morph_options) (somanodes : list nat).
Variable nodesgraph : gmap nat (list nat).

Lemma cdg_step_sound (n : nat) (rest : list nat) (st : cdg_state) :
  cdg_sound options somanodes nodesgraph st ->
  cdg_sound options somanodes nodesgraph (cdg_step options somanodes nodesgraph n rest st).
Proof.
  intros Hs a l Hl.
  destruct (cdg_step_spec options somanodes nodesgraph n rest st) as (Hv & _ & He & _).
  rewrite Hv. split; [|split].
  - apply cdg_step_edges in Hl as [[Hne Hl]|[-> _]].
    + apply elem_of_app. left. by apply (Hs a l).
    + apply elem_of_app. right. apply list_elem_of_here.
  - rewrite He in Hl. eapply cdg_edges_fold_NoDup; [|exact Hl].
    intros l0 Hl0. apply cdg_edges_init_lookup in Hl0 as [Hl0|(_ & -> & _)]; [|constructor].
    by apply (Hs a l0).
  - intros b Hb. apply cdg_step_edges in Hl as [[Hne Hl]|[-> Hin]].
    + by apply (Hs a l).
    + apply Hin in Hb as [Hb|[Hb Hacc]].
      * destruct (cdg_edges st !! n) as [l0|] eqn:Hl0; simpl in Hb.
        -- by apply (Hs n l0).
        -- by apply elem_of_nil in Hb.
      * split; [done|]. by apply cdg_accept_true in Hacc as [? _].
Qed.

Lemma cdg_step_reached (n : nat) (rest : list nat) (st : cdg_state) :
  cdg_frontier st = n :: rest ->
  cdg_reached somanodes nodesgraph st ->
  cdg_reached somanodes nodesgraph (cdg_step options somanodes nodesgraph n rest st).
Proof.
  intros HF Hr x Hx.
  destruct (cdg_step_spec options somanodes nodesgraph n rest st) as (Hv & Hf & _ & _).
  rewrite Hv, Hf in Hx.
  assert (reachable nodesgraph somanodes n) as Hn.
  { apply Hr. right. rewrite HF. apply list_elem_of_here. }
  assert (x ∈ cdg_visited st \/ x ∈ cdg_frontier st
          \/ (x ∈ neighbours_of nodesgraph n /\ x ∉ cdg_visited st ++ [n])) as Hcases.
  { rewrite HF. rewrite !elem_of_app, list_elem_of_singleton, list_elem_of_filter in Hx.
    rewrite elem_of_cons. tauto. }
  assert (x ∈ cdg_visited st \/ x ∈ cdg_frontier st ->
          reachable nodesgraph somanodes x
          /\ (x ∈ somanodes
              \/ exists a, has_edge (cdg_edges (cdg_step options somanodes nodesgraph
                                                         n rest st)) a x = true)) as Hold.
  { intros H. destruct (Hr x H) as [H1 [H2|[a H2]]]; split; auto.
    right. exists a. by apply cdg_step_has_edge. }
  destruct Hcases as [H|[H|[Hnb Hnv]]]; [apply Hold; auto..|].
  split; [by eapply reachable_step|].
  destruct (decide (x ∈ somanodes)) as [Hs|Hs]; [by left|right]. exists n.
  unfold has_edge.
  destruct (cdg_edges (cdg_step options somanodes nodesgraph n rest st) !! n) as [l|] eqn:Hl.
  - apply bool_decide_eq_true.
    apply cdg_step_edges in Hl as [[? _]|[_ Hin]]; [done|]. apply Hin. right.
    split; [done|]. by apply cdg_accept_true.
  - apply eq_None_not_Some in Hl. exfalso. apply Hl.
    destruct (cdg_step_spec options somanodes nodesgraph n rest st) as (_ & _ & -> & _).
    apply cdg_edges_fold_is_Some, cdg_edges_init_is_Some. by right.
Qed.

Lemma cdg_init_sound (stats : warn_counts) :
  cdg_sound options somanodes nodesgraph (cdg_init somanodes stats).
Proof. intros a l Hl. simpl in Hl. by rewrite lookup_empty in Hl. Qed.

Lemma cdg_init_reached (stats : warn_counts) :
  cdg_reached somanodes nodesgraph (cdg_init somanodes stats).
Proof.
  intros x [Hx|Hx]; simpl in Hx; [by apply elem_of_nil in Hx|].
  split; [by apply reachable_root | by left].
Qed.

End DirectedEdges.

(** X2: every edge a -> b of the graph that [create_directed_graph] returns
    is an edge of the node graph; when soma nodes are not connected to each
    other, no edge leads to a soma node; and a child is listed once. *)
Theorem create_directed_graph_edges (somanodes : list nat) (nodesgraph : gmap nat (list nat))
    (options : morph_options) (stats : warn_counts) :
  exists dag w,
    (forall fuel, cdg_fuel nodesgraph somanodes (cdg_init somanodes stats) <= fuel ->
                  create_directed_graph fuel somanodes nodesgraph options stats
                  = Some (dag, w))
    /\ forall a l, dag !! a = Some l ->
         NoDup l
         /\ forall b, b ∈ l ->
              b ∈ neighbours_of nodesgraph a
              /\ (k_CONNECT_SOMA_SOMA options = false -> b ∉ somanodes).
Proof.
  destruct (cdg_loop_returns options somanodes nodesgraph stats) as [st Hst].
  exists (cdg_edges st), (cdg_warn st). split.
  - intros fuel Hfuel. unfold create_directed_graph. by rewrite (Hst fuel Hfuel).
  - intros a l Hl.
    assert (cdg_sound options somanodes nodesgraph st) as Hs.
    { eapply (cdg_loop_invariant (cdg_sound options somanodes nodesgraph));
        [|apply cdg_init_sound|exact (Hst _ (le_n _))].
      intros n rest s _. apply cdg_step_sound. }
    destruct (Hs a l Hl) as (_ & ? & ?). done.
Qed.

(** X3: the keys of the graph that [create_directed_graph] returns are
    exactly the nodes reachable from a soma node in the node graph; every
    child is itself a key, so that a lookup of a child never fails; and every
    key is a soma node or the child of a key. *)
Theorem create_directed_graph_keys (somanodes : list nat) (nodesgraph : gmap nat (list nat))
    (options : morph_options) (stats : warn_counts) :
  exists dag w,
    (forall fuel, cdg_fuel nodesgraph somanodes (cdg_init somanodes stats) <= fuel ->
                  create_directed_graph fuel somanodes nodesgraph options stats
                  = Some (dag, w))
    /\ (forall n, is_Some (dag !! n) <-> reachable nodesgraph somanodes n)
    /\ (forall a b, has_edge dag a b = true -> is_Some (dag !! b))
    /\ (forall n, is_Some (dag !! n) ->
                  n ∈ somanodes \/ exists a, has_edge dag a n = true).
Proof.
  destruct (cdg_loop_returns options somanodes nodesgraph stats) as [st Hst].
  exists (cdg_edges st), (cdg_warn st). split.
  { intros fuel Hfuel. unfold create_directed_graph. by rewrite (Hst fuel Hfuel). }
  pose proof (Hst _ (le_n _)) as Hrun.
  assert (cdg_sound options somanodes nodesgraph st) as Hs.
  { eapply (cdg_loop_invariant (cdg_sound options somanodes nodesgraph));
      [|apply cdg_init_sound|exact Hrun].
    intros n rest s _. apply cdg_step_sound. }
  assert (cdg_reached somanodes nodesgraph st) as Hr.
  { eapply (cdg_loop_invariant (cdg_reached somanodes nodesgraph));
      [|apply cdg_init_reached|exact Hrun].
    intros n rest s. apply cdg_step_reached. }
  destruct (cdg_loop_closed options somanodes nodesgraph _ _ _ Hrun
              (cdg_init_closed somanodes nodesgraph stats)) as [Hc HF].
  assert (forall n, is_Some (cdg_edges st !! n) <-> reachable nodesgraph somanodes n) as Hkeys.
  { intros n. split.
    - intros [l Hl]. apply Hr. left. by apply (Hs n l).
    - intros Hn. pose proof Hc as (_ & _ & He). apply He. by eapply cdg_closed_reachable. }
  split; [done|]. split.
  - intros a b Hab. unfold has_edge in Hab.
    destruct (cdg_edges st !! a) as [l|] eqn:Hl; [|done].
    apply bool_decide_eq_true in Hab. apply Hkeys.
    destruct (Hs a l Hl) as (Ha & _ & Hb). apply (reachable_step _ _ a).
    + apply Hr. by left.
    + by apply Hb.
  - intros n [l Hl]. apply Hr. left. by apply (Hs n l).
Qed.

(** ** create_directed_graph: no cycle unless cycles are allowed *)

Lemma visit_rank_le (x : nat) (V : list nat) : visit_rank x V <= length V.
Proof. induction V as [|y V IH]; simpl; [lia|]. case_bool_decide; lia. Qed.

Lemma visit_rank_in (x : nat) (V : list nat) : x ∈ V -> visit_rank x V < length V.
Proof.
  induction V as [|y V IH]; simpl; intros Hx; [by apply elem_of_nil in Hx|].
  case_bool_decide as Hy; [lia|]. apply elem_of_cons in Hx as [->|Hx]; [done|].
  specialize (IH Hx). lia.
Qed.

Lemma visit_rank_notin (x : nat) (V : list nat) : x ∉ V -> visit_rank x V = length V.
Proof.
  induction V as [|y V IH]; simpl; intros Hx; [done|].
  apply not_elem_of_cons in Hx as [Hne Hx]. rewrite bool_decide_eq_false_2 by congruence.
  by rewrite IH.
Qed.

Lemma visit_rank_app_in (x : nat) (V W : list nat) :
  x ∈ V -> visit_rank x (V ++ W) = visit_rank x V.
Proof.
  induction V as [|y V IH]; simpl; intros Hx; [by apply elem_of_nil in Hx|].
  case_bool_decide as Hy; [done|]. apply elem_of_cons in Hx as [->|Hx]; [done|].
  by rewrite IH.
Qed.

Lemma visit_rank_app_le (x : nat) (V W : list nat) :
  visit_rank x V <= visit_rank x (V ++ W).
Proof.
  induction V as [|y V IH]; simpl; [lia|]. case_bool_decide; lia.
Qed.

Lemma has_edge_true (dgraph : gmap nat (list nat)) (a b : nat) :
  has_edge dgraph a b = true <-> exists l, dgraph !! a = Some l /\ b ∈ l.
Proof.
  unfold has_edge. destruct (dgraph !! a) as [l|]; [|naive_solver].
  rewrite bool_decide_eq_true. naive_solver.
Qed.

Lemma cdg_step_ranked options somanodes nodesgraph (n : nat) (rest : list nat)
    (st : cdg_state) :
  k_ALLOW_CYCLES options = false ->
  cdg_ranked st -> cdg_ranked (cdg_step options somanodes nodesgraph n rest st).
Proof.
  intros Hcyc Hr a b Hab.
  destruct (cdg_step_spec options somanodes nodesgraph n rest st) as (Hv & _ & _ & _).
  rewrite Hv.
  assert (has_edge (cdg_edges st) a b = true ->
          a ∈ cdg_visited st ++ [n]
          /\ visit_rank a (cdg_visited st ++ [n]) < visit_rank b (cdg_visited st ++ [n]))
    as Hold.
  { intros H. destruct (Hr a b H) as [Ha Hlt]. split; [apply elem_of_app; by left|].
    rewrite (visit_rank_app_in a) by done.
    pose proof (visit_rank_app_le b (cdg_visited st) [n]). lia. }
  apply has_edge_true in Hab as (l & Hl & Hb).
  apply cdg_step_edges in Hl as [[Hne Hl]|[-> Hin]].
  - apply Hold. apply has_edge_true. eauto.
  - apply Hin in Hb as [Hb|[Hb Hacc]].
    + apply Hold. apply has_edge_true.
      destruct (cdg_edges st !! n) as [l0|] eqn:Hl0; simpl in Hb; [eauto|].
      by apply elem_of_nil in Hb.
    + apply cdg_accept_true in Hacc as [_ Hnv]. specialize (Hnv Hcyc).
      assert (n ∈ cdg_visited st ++ [n]) as Hn
        by (apply elem_of_app; right; apply list_elem_of_here).
      split; [done|]. rewrite (visit_rank_notin b) by done. by apply visit_rank_in.
Qed.

Lemma cdg_init_ranked (somanodes : list nat) (stats : warn_counts) :
  cdg_ranked (cdg_init somanodes stats).
Proof. intros a b Hab. apply has_edge_true in Hab as (l & Hl & _). simpl in Hl.
       by rewrite lookup_empty in Hl. Qed.

(** X4: with [k_ALLOW_CYCLES] false, the graph that [create_directed_graph]
    returns is acyclic: every edge goes from a node to a node that is first
    visited later, so no path of edges leads from a node back to itself, and
    of the two directions of an edge of the node graph at most one is kept. *)
Theorem create_directed_graph_acyclic (somanodes : list nat)
    (nodesgraph : gmap nat (list nat)) (options : morph_options) (stats : warn_counts) :
  k_ALLOW_CYCLES options = false ->
  exists dag w,
    (forall fuel, cdg_fuel nodesgraph somanodes (cdg_init somanodes stats) <= fuel ->
                  create_directed_graph fuel somanodes nodesgraph options stats
                  = Some (dag, w))
    /\ (exists rank : nat -> nat, forall a b, has_edge dag a b = true -> rank a < rank b)
    /\ (forall n, ~ tc (fun a b => has_edge dag a b = true) n n)
    /\ (forall a b, has_edge dag a b = true -> has_edge dag b a = false).
Proof.
  intros Hcyc.
  destruct (cdg_loop_returns options somanodes nodesgraph stats) as [st Hst].
  exists (cdg_edges st), (cdg_warn st). split.
  { intros fuel Hfuel. unfold create_directed_graph. by rewrite (Hst fuel Hfuel). }
  assert (cdg_ranked st) as Hr.
  { eapply (cdg_loop_invariant cdg_ranked); [|apply cdg_init_ranked|exact (Hst _ (le_n _))].
    intros n rest s _. by apply cdg_step_ranked. }
  set (rank := fun x => visit_rank x (cdg_visited st)).
  assert (forall a b, has_edge (cdg_edges st) a b = true -> rank a < rank b) as Hrank.
  { intros a b Hab. by apply Hr. }
  assert (forall a b, tc (fun a b => has_edge (cdg_edges st) a b = true) a b ->
                      rank a < rank b) as Htc.
  { intros a b Hab. induction Hab as [a b Hab|a b c Hab _ IH].
    - by apply Hrank.
    - apply Hrank in Hab. lia. }
  split; [by exists rank|]. split.
  - intros n Hn. apply Htc in Hn. lia.
  - intros a b Hab. destruct (has_edge (cdg_edges st) b a) eqn:Hba; [|done].
    apply Hrank in Hab, Hba. lia.
Qed.

(** Witness: the triangle of scenario B, with cycles disallowed. *)
Lemma create_directed_graph_acyclic_witness :
  exists dag w,
    (forall fuel, cdg_fuel (create_node_graph segments_B) [1] (cdg_init [1] no_warnings) <= fuel ->
                  create_directed_graph fuel [1] (create_node_graph segments_B)
                                        inflate_options no_warnings
                  = Some (dag, w))
    /\ (exists rank : nat -> nat, forall a b, has_edge dag a b = true -> rank a < rank b)
    /\ (forall n, ~ tc (fun a b => has_edge dag a b = true) n n)
    /\ (forall a b, has_edge dag a b = true -> has_edge dag b a = false).
Proof.
  apply (create_directed_graph_acyclic [1] (create_node_graph segments_B) inflate_options
           no_warnings).
  reflexivity.
Defined.

(** ** create_directed_graph: with cycles allowed *)

Lemma cdg_step_edges_complete options somanodes nodesgraph (n : nat) (rest : list nat)
    (st : cdg_state) :
  edges_complete options somanodes nodesgraph st ->
  edges_complete options somanodes nodesgraph
                 (cdg_step options somanodes nodesgraph n rest st).
Proof.
  intros Hc. destruct (decide (n ∈ cdg_visited st)) as [Hn|Hn].
  - by apply cdg_step_again.
  - by apply cdg_step_first.
Qed.

(** X5: with [k_ALLOW_CYCLES] true, [create_directed_graph] keeps every edge
    of the node graph that leaves a reachable node, in both directions,
    except the edges into soma nodes when [k_CONNECT_SOMA_SOMA] is false. *)
Theorem create_directed_graph_with_cycles (somanodes : list nat)
    (nodesgraph : gmap nat (list nat)) (options : morph_options) (stats : warn_counts) :
  k_ALLOW_CYCLES options = true ->
  exists dag w,
    (forall fuel, cdg_fuel nodesgraph somanodes (cdg_init somanodes stats) <= fuel ->
                  create_directed_graph fuel somanodes nodesgraph options stats
                  = Some (dag, w))
    /\ forall a b, has_edge dag a b = true
                   <-> reachable nodesgraph somanodes a
                       /\ b ∈ neighbours_of nodesgraph a
                       /\ (k_CONNECT_SOMA_SOMA options = false -> b ∉ somanodes).
Proof.
  intros Hcyc.
  destruct (cdg_loop_returns options somanodes nodesgraph stats) as [st Hst].
  exists (cdg_edges st), (cdg_warn st). split.
  { intros fuel Hfuel. unfold create_directed_graph. by rewrite (Hst fuel Hfuel). }
  pose proof (Hst _ (le_n _)) as Hrun.
  assert (cdg_sound options somanodes nodesgraph st) as Hs.
  { eapply (cdg_loop_invariant (cdg_sound options somanodes nodesgraph));
      [|apply cdg_init_sound|exact Hrun].
    intros n rest s _. apply cdg_step_sound. }
  assert (cdg_reached somanodes nodesgraph st) as Hr.
  { eapply (cdg_loop_invariant (cdg_reached somanodes nodesgraph));
      [|apply cdg_init_reached|exact Hrun].
    intros n rest s. apply cdg_step_reached. }
  assert (edges_complete options somanodes nodesgraph st) as Hcomp.
  { eapply (cdg_loop_invariant (edges_complete options somanodes nodesgraph));
      [| |exact Hrun].
    - intros n rest s _. apply cdg_step_edges_complete.
    - intros n Hn. simpl in Hn. by apply elem_of_nil in Hn. }
  destruct (cdg_loop_closed options somanodes nodesgraph _ _ _ Hrun
              (cdg_init_closed somanodes nodesgraph stats)) as [Hc HF].
  intros a b. rewrite has_edge_true. split.
  - intros (l & Hl & Hb). destruct (Hs a l Hl) as (Ha & _ & Hin).
    split; [apply Hr; by left|]. by apply Hin.
  - intros (Ha & Hb & Hsoma).
    assert (a ∈ cdg_visited st) as Hv by (by eapply cdg_closed_reachable).
    destruct (Hcomp a Hv) as (l & Hl & Hin). exists l. split; [done|].
    apply Hin; [done|]. apply cdg_accept_true. split; [done|]. congruence.
Qed.

(** Witness: the triangle of scenario B, with cycles allowed. *)
Lemma create_directed_graph_with_cycles_witness :
  exists dag w,
    (forall fuel, cdg_fuel (create_node_graph segments_B) [1] (cdg_init [1] no_warnings) <= fuel ->
                  create_directed_graph fuel [1] (create_node_graph segments_B)
                                        cyclic_options no_warnings
                  = Some (dag, w))
    /\ forall a b, has_edge dag a b = true
                   <-> reachable (create_node_graph segments_B) [1] a
                       /\ b ∈ neighbours_of (create_node_graph segments_B) a
                       /\ (k_CONNECT_SOMA_SOMA cyclic_options = false -> b ∉ [1]).
Proof.
  apply (create_directed_graph_with_cycles [1] (create_node_graph segments_B)
           cyclic_options no_warnings).
  reflexivity.
Defined.

(** ** create_node_segments_dict: what is filed under a key *)

Lemma elem_of_oriented_copies (dgraph : gmap nat (list nat)) (k : nat) (s s0 : segment) :
  s ∈ oriented_copies dgraph k s0
  <-> (has_edge dgraph (start s0) (end_ s0) = true /\ k = start s0 /\ s = s0)
      \/ (has_edge dgraph (end_ s0) (start s0) = true /\ k = end_ s0
          /\ s = reversed_segment s0).
Proof.
  unfold oriented_copies. rewrite elem_of_app.
  destruct (has_edge dgraph (start s0) (end_ s0)), (has_edge dgraph (end_ s0) (start s0));
    repeat case_bool_decide; simpl; rewrite ?list_elem_of_singleton, ?elem_of_nil;
    naive_solver.
Qed.

Lemma elem_of_flat_map {A B : Type} (f : A -> list B) (l : list A) (y : B) :
  y ∈ flat_map f l <-> exists x, x ∈ l /\ y ∈ f x.
Proof.
  rewrite list_elem_of_In, in_flat_map. setoid_rewrite list_elem_of_In. done.
Qed.

Lemma cnsd_filed (segments : list segment) (dgraph : gmap nat (list nat))
    (stats : warn_counts) (k : nat) (s : segment) :
  s ∈ segments_at (create_node_segments_dict segments dgraph stats).1 k
  <-> exists s0, s0 ∈ segments /\ s ∈ oriented_copies dgraph k s0.
Proof.
  destruct (cnsd_fold_spec dgraph segments ∅ stats) as (Hk & _).
  unfold create_node_segments_dict. rewrite Hk. unfold segments_at at 1.
  rewrite lookup_empty. simpl. apply elem_of_flat_map.
Qed.

Lemma cnsd_fold_is_Some (dgraph : gmap nat (list nat)) (segments : list segment)
    (nodesegments : gmap nat (list segment)) (stats : warn_counts) (k : nat) :
  is_Some ((fold_left (cnsd_step dgraph) segments (nodesegments, stats)).1 !! k)
  <-> is_Some (nodesegments !! k) \/ flat_map (oriented_copies dgraph k) segments <> [].
Proof.
  revert nodesegments stats. induction segments as [|s segments IH]; intros ns w;
    cbn [fold_left flat_map].
  - simpl. split; [auto|]. intros [?|?]; done.
  - destruct (cnsd_step dgraph (ns, w) s) as [ns' w'] eqn:E.
    pose proof (cnsd_step_spec dgraph ns w s) as Hs.
    cbv zeta in Hs. rewrite E in Hs. cbn [fst snd] in Hs. destruct Hs as (_ & Hk & _).
    rewrite IH, Hk. destruct (oriented_copies dgraph k s) as [|s1 l1]; simpl.
    + split; [intros [[?|?]|?]; auto; done|]. intros [?|?]; auto.
    + split; [|auto]. intros _. right. done.
Qed.

Lemma cnsd_keys_nonempty (segments : list segment) (dgraph : gmap nat (list nat))
    (stats : warn_counts) (k : nat) :
  let d := (create_node_segments_dict segments dgraph stats).1 in
  is_Some (d !! k) <-> segments_at d k <> [].
Proof.
  cbv zeta. unfold create_node_segments_dict. rewrite cnsd_fold_is_Some.
  destruct (cnsd_fold_spec dgraph segments ∅ stats) as (Hk & _). rewrite Hk.
  unfold segments_at. rewrite lookup_empty. simpl. split; [|auto].
  intros [H|?]; [|done]. by apply is_Some_None in H.
Qed.

(** X6: every segment that [create_node_segments_dict] files under a key [k]
    starts at [k] and runs along an edge of the directed graph from [k]; it
    is a segment of the input that joins the two nodes, as it is or reversed;
    and no key holds an empty list. *)
Theorem create_node_segments_dict_filed (segments : list segment)
    (dgraph : gmap nat (list nat)) (stats : warn_counts) (k : nat) :
  let d := (create_node_segments_dict segments dgraph stats).1 in
  (forall s, s ∈ segments_at d k ->
     start s = k /\ has_edge dgraph k (end_ s) = true
     /\ exists s0, s0 ∈ segments /\ joins s0 k (end_ s)
                   /\ (s = s0 \/ s = reversed_segment s0))
  /\ (is_Some (d !! k) <-> segments_at d k <> []).
Proof.
  cbv zeta. split; [|apply cnsd_keys_nonempty].
  intros s Hs. apply cnsd_filed in Hs as (s0 & Hs0 & Hs).
  apply elem_of_oriented_copies in Hs as [(He & -> & ->)|(He & -> & ->)]; simpl.
  - split; [done|]. split; [done|]. exists s0. unfold joins. auto.
  - split; [done|]. split; [done|]. exists s0. unfold joins. auto.
Qed.

(** ** validate_graph_segments: when it returns *)

Lemma validate_dag_node_eq (somanodes : option (list nat))
    (ns : gmap nat (list segment)) (nidx : nat) (cnodes : list nat) :
  validate_dag_node somanodes ns (nidx, cnodes)
  = if forallb (fun cidx => bool_decide (cidx ∈ end_ <$> segments_at ns nidx)) cnodes
    then Ok (segments_read nidx ns) else Raise AssertionError.
Proof.
  unfold validate_dag_node, segments_read, segments_at.
  destruct (_ || _ : bool) eqn:E; simpl_result.
  - clear E. destruct (forallb _ cnodes); simpl_result; done.
  - apply orb_false_iff in E as [E _]. apply orb_false_iff in E as [E1 E2].
    apply bool_decide_eq_false in E2. apply eq_None_not_Some in E2. rewrite E2.
    destruct cnodes as [|c cnodes]; [done|]. done.
Qed.

Lemma segments_at_read (k k' : nat) (ns : gmap nat (list segment)) :
  segments_at (segments_read k ns) k' = segments_at ns k'.
Proof.
  unfold segments_read, segments_at. destruct (ns !! k) eqn:E; [done|].
  destruct (decide (k' = k)) as [->|Hne].
  - by rewrite lookup_insert_eq, E.
  - by rewrite lookup_insert_ne.
Qed.

Lemma segments_read_lookup (k k' : nat) (ns : gmap nat (list segment)) :
  segments_read k ns !! k'
  = match ns !! k' with
    | Some l => Some l
    | None => if bool_decide (k' = k) then Some [] else None
    end.
Proof.
  unfold segments_read. destruct (decide (k' = k)) as [->|Hne].
  - rewrite bool_decide_eq_true_2 by done. destruct (ns !! k) eqn:E; [by rewrite E|].
    by rewrite lookup_insert_eq.
  - rewrite bool_decide_eq_false_2 by done. destruct (ns !! k) eqn:E.
    + by destruct (ns !! k').
    + rewrite lookup_insert_ne by done. by destruct (ns !! k').
Qed.

(** The first loop: it returns when every child ends a filed segment, with
    the keys it has read added. *)
Lemma validate_dag_loop (somanodes : option (list nat)) (items : list (nat * list nat))
    (ns : gmap nat (list segment)) :
  foldM (validate_dag_node somanodes) items ns
  = if forallb (fun item : nat * list nat =>
                  forallb (fun cidx => bool_decide (cidx ∈ end_ <$> segments_at ns item.1))
                          item.2) items
    then Ok (fold_left (fun ns (item : nat * list nat) => segments_read item.1 ns) items ns)
    else Raise AssertionError.
Proof.
  revert ns. induction items as [|[k c] items IH]; intros ns; [done|].
  rewrite foldM_cons, validate_dag_node_eq. cbn [forallb fold_left fst snd].
  destruct (forallb _ c); simpl_result; [|done]. rewrite IH. simpl.
  assert (forall l : list (nat * list nat),
    forallb (fun item : nat * list nat =>
               forallb (fun cidx => bool_decide (cidx ∈ end_ <$> segments_at (segments_read k ns) item.1))
                       item.2) l
    = forallb (fun item : nat * list nat =>
               forallb (fun cidx => bool_decide (cidx ∈ end_ <$> segments_at ns item.1))
                       item.2) l) as ->; [|done].
  intros l. induction l as [|i l IHl]; [done|]. simpl. by rewrite IHl, segments_at_read.
Qed.

Lemma segments_read_fold_lookup (items : list (nat * list nat))
    (ns : gmap nat (list segment)) (k : nat) :
  fold_left (fun ns (item : nat * list nat) => segments_read item.1 ns) items ns !! k
  = match ns !! k with
    | Some l => Some l
    | None => if bool_decide (k ∈ items.*1) then Some [] else None
    end.
Proof.
  revert ns. induction items as [|[k' c] items IH]; intros ns; simpl.
  - by destruct (ns !! k).
  - rewrite IH, segments_read_lookup. destruct (ns !! k); [done|].
    destruct (decide (k = k')) as [->|Hne].
    + rewrite !bool_decide_eq_true_2; [done| |done]. apply list_elem_of_here.
    + rewrite (bool_decide_eq_false_2 (k = k')) by done.
      assert (bool_decide (k ∈ items.*1) = bool_decide (k ∈ k' :: items.*1)) as Heq.
      { apply bool_decide_ext. rewrite elem_of_cons. naive_solver. }
      by rewrite Heq.
Qed.

Lemma segments_read_fold_dag (dgraph : gmap nat (list nat)) (ns : gmap nat (list segment)) :
  fold_left (fun ns (item : nat * list nat) => segments_read item.1 ns) (map_to_list dgraph) ns
  = with_dag_keys dgraph ns.
Proof.
  apply map_eq. intros k. rewrite segments_read_fold_lookup. unfold with_dag_keys.
  rewrite lookup_union, lookup_fmap. destruct (ns !! k) as [l|]; simpl.
  - by destruct (dgraph !! k).
  - case_bool_decide as Hk.
    + apply list_elem_of_fmap in Hk as ([k' c] & -> & Hk). apply elem_of_map_to_list in Hk.
      simpl. by rewrite Hk.
    + destruct (dgraph !! k) as [c|] eqn:Hc; [|done]. exfalso. apply Hk.
      apply list_elem_of_fmap. exists (k, c). split; [done|]. by apply elem_of_map_to_list.
Qed.

Lemma dag_covered_forallb (dgraph : gmap nat (list nat)) (ns : gmap nat (list segment)) :
  forallb (fun item : nat * list nat =>
             forallb (fun cidx => bool_decide (cidx ∈ end_ <$> segments_at ns item.1)) item.2)
          (map_to_list dgraph) = true
  <-> dag_covered dgraph ns.
Proof.
  rewrite forallb_forall. unfold dag_covered. split.
  - intros H nidx c Hc. apply has_edge_true in Hc as (l & Hl & Hc).
    apply elem_of_map_to_list in Hl. apply list_elem_of_In in Hl. specialize (H _ Hl).
    simpl in H. rewrite forallb_forall in H. apply list_elem_of_In in Hc.
    specialize (H _ Hc). by apply bool_decide_eq_true in H.
  - intros H [nidx l] Hl. simpl. apply forallb_forall. intros c Hc.
    apply bool_decide_eq_true. apply H. apply has_edge_true. exists l.
    apply list_elem_of_In, elem_of_map_to_list in Hl. split; [done|].
    by apply list_elem_of_In.
Qed.

Lemma validate_node_segments_Ok (dgraph : gmap nat (list nat)) (nidx : nat)
    (csegms : list segment) :
  validate_node_segments dgraph tt (nidx, csegms) = Ok tt
  <-> is_Some (dgraph !! nidx)
      /\ forall s, s ∈ csegms -> start s = nidx /\ is_Some (dgraph !! end_ s).
Proof.
  unfold validate_node_segments.
  assert (is_nil (start <$> csegms)
          || forallb (fun i => bool_decide (i = nidx)) (start <$> csegms)
          = forallb (fun i => bool_decide (i = nidx)) (start <$> csegms)) as ->.
  { by destruct csegms. }
  case_bool_decide as Hk; simpl_result; [|split; [done|tauto]].
  destruct (forallb (fun i => bool_decide (i = nidx)) (start <$> csegms)) eqn:E1; simpl_result.
  - destruct (forallb _ (end_ <$> csegms)) eqn:E2; simpl_result.
    + split; [|done]. intros _. split; [done|]. intros s Hs. split.
      * rewrite forallb_forall in E1.
        assert (In (start s) (start <$> csegms)) as Hin.
        { apply list_elem_of_In, list_elem_of_fmap. eauto. }
        specialize (E1 _ Hin). by apply bool_decide_eq_true in E1.
      * rewrite forallb_forall in E2.
        assert (In (end_ s) (end_ <$> csegms)) as Hin.
        { apply list_elem_of_In, list_elem_of_fmap. eauto. }
        specialize (E2 _ Hin). by apply bool_decide_eq_true in E2.
    + split; [done|]. intros [_ H]. exfalso.
      assert (forallb (fun cidx => bool_decide (is_Some (dgraph !! cidx))) (end_ <$> csegms)
              = true) as E; [|congruence].
      apply forallb_forall. intros x Hx.
      apply list_elem_of_In, list_elem_of_fmap in Hx as (s & -> & Hs).
      apply bool_decide_eq_true. by apply H.
  - split; [done|]. intros [_ H]. exfalso.
    assert (forallb (fun i => bool_decide (i = nidx)) (start <$> csegms) = true) as E;
      [|congruence].
    apply forallb_forall. intros x Hx.
    apply list_elem_of_In, list_elem_of_fmap in Hx as (s & -> & Hs).
    apply bool_decide_eq_true. by apply H.
Qed.

Lemma validate_node_segments_cases (dgraph : gmap nat (list nat))
    (item : nat * list segment) :
  validate_node_segments dgraph tt item = Ok tt
  \/ validate_node_segments dgraph tt item = Raise AssertionError
  \/ validate_node_segments dgraph tt item = Raise TypeError.
Proof.
  destruct item as [nidx csegms]. unfold validate_node_segments.
  case_bool_decide; simpl_result; [|auto].
  destruct (_ || _ : bool); simpl_result; [|auto].
  destruct (forallb _ _); simpl_result; auto.
Qed.

(** The second loop: it returns when every item passes, and raises
    [AssertionError] or [TypeError] otherwise. *)
Lemma validate_segments_loop (dgraph : gmap nat (list nat))
    (items : list (nat * list segment)) :
  (foldM (validate_node_segments dgraph) items tt = Ok tt
   <-> forall item, item ∈ items -> validate_node_segments dgraph tt item = Ok tt)
  /\ (foldM (validate_node_segments dgraph) items tt = Ok tt
      \/ foldM (validate_node_segments dgraph) items tt = Raise AssertionError
      \/ foldM (validate_node_segments dgraph) items tt = Raise TypeError).
Proof.
  induction items as [|item items [IH1 IH2]].
  - split; [|by left]. split; [|done]. intros _ item Hitem. by apply elem_of_nil in Hitem.
  - rewrite foldM_cons.
    destruct (validate_node_segments_cases dgraph item) as [E|[E|E]]; rewrite E; simpl_result.
    + split; [|done]. rewrite IH1. split.
      * intros H i Hi. apply elem_of_cons in Hi as [->|Hi]; auto.
      * intros H i Hi. apply H. by apply list_elem_of_further.
    + split; [|auto]. split; [done|]. intros H.
      specialize (H item (list_elem_of_here _ _)). congruence.
    + split; [|auto]. split; [done|]. intros H.
      specialize (H item (list_elem_of_here _ _)). congruence.
Qed.

Lemma segments_rooted_with_dag_keys (dgraph : gmap nat (list nat))
    (ns : gmap nat (list segment)) :
  segments_rooted dgraph (with_dag_keys dgraph ns) <-> segments_rooted dgraph ns.
Proof.
  unfold segments_rooted, with_dag_keys. split.
  - intros H nidx csegms Hl. apply (H nidx csegms).
    apply lookup_union_Some_raw. by left.
  - intros H nidx csegms Hl. apply lookup_union_Some_raw in Hl as [Hl|[_ Hl]].
    + by apply (H nidx csegms).
    + rewrite lookup_fmap in Hl. destruct (dgraph !! nidx) as [c|] eqn:Hc; [|done].
      injection Hl as <-. split; [eauto|]. intros s Hs. by apply elem_of_nil in Hs.
Qed.

Lemma validate_segments_loop_rooted (dgraph : gmap nat (list nat))
    (ns : gmap nat (list segment)) :
  foldM (validate_node_segments dgraph) (map_to_list ns) tt = Ok tt
  <-> segments_rooted dgraph ns.
Proof.
  rewrite (proj1 (validate_segments_loop dgraph (map_to_list ns))). unfold segments_rooted.
  split.
  - intros H nidx csegms Hl. apply validate_node_segments_Ok, H. by apply elem_of_map_to_list.
  - intros H [nidx csegms] Hl. apply validate_node_segments_Ok, H.
    by apply elem_of_map_to_list.
Qed.

(** The whole function, from the two loops. *)
Lemma validate_graph_segments_eq (dgraph : gmap nat (list nat))
    (ns : gmap nat (list segment)) (somanodes : option (list nat)) :
  validate_graph_segments dgraph ns somanodes
  = if forallb (fun item : nat * list nat =>
                  forallb (fun cidx => bool_decide (cidx ∈ end_ <$> segments_at ns item.1))
                          item.2) (map_to_list dgraph)
    then foldM (validate_node_segments dgraph) (map_to_list (with_dag_keys dgraph ns)) tt
         ≫= fun _ => Ok (with_dag_keys dgraph ns)
    else Raise AssertionError.
Proof.
  unfold validate_graph_segments. rewrite validate_dag_loop.
  destruct (forallb _ (map_to_list dgraph)); simpl_result; [|done].
  by rewrite segments_read_fold_dag.
Qed.

(** X7: [validate_graph_segments] returns exactly when every child of a
    node of the directed graph ends a segment filed under the node, every key
    of the dictionary is a node of the graph, and every filed segment starts
    at its key and ends at a node of the graph; the dictionary then has
    every node of the graph as a key.  Otherwise it raises [AssertionError]
    or [TypeError], and [AssertionError] when a child ends no filed
    segment. *)
Theorem validate_graph_segments_spec (dgraph : gmap nat (list nat))
    (nodesegments : gmap nat (list segment)) (somanodes : option (list nat)) :
  let r := validate_graph_segments dgraph nodesegments somanodes in
  (forall ns', r = Ok ns'
               <-> dag_covered dgraph nodesegments /\ segments_rooted dgraph nodesegments
                   /\ ns' = with_dag_keys dgraph nodesegments)
  /\ (r = Ok (with_dag_keys dgraph nodesegments)
      \/ r = Raise AssertionError \/ r = Raise TypeError)
  /\ (~ dag_covered dgraph nodesegments -> r = Raise AssertionError).
Proof.
  cbv zeta. rewrite validate_graph_segments_eq.
  pose proof (dag_covered_forallb dgraph nodesegments) as Hcov.
  pose proof (validate_segments_loop_rooted dgraph (with_dag_keys dgraph nodesegments))
    as Hroot.
  rewrite segments_rooted_with_dag_keys in Hroot.
  destruct (validate_segments_loop dgraph (map_to_list (with_dag_keys dgraph nodesegments)))
    as [_ Hcases].
  destruct (forallb _ (map_to_list dgraph)).
  - destruct Hcases as [E|[E|E]]; rewrite E in *; simpl_result.
    + split; [|split; [auto|]].
      * intros ns'. split.
        -- intros [= <-]. split; [by apply Hcov|]. split; [by apply Hroot|done].
        -- by intros (_ & _ & ->).
      * intros H. exfalso. by apply H, Hcov.
    + split; [|split; [auto|]].
      * intros ns'. split; [done|]. intros (_ & H & _). by apply Hroot in H.
      * intros H. exfalso. by apply H, Hcov.
    + split; [|split; [auto|]].
      * intros ns'. split; [done|]. intros (_ & H & _). by apply Hroot in H.
      * intros H. exfalso. by apply H, Hcov.
  - split; [|split; [auto|done]].
    intros ns'. split; [done|]. intros (H & _). by apply Hcov in H.
Qed.

(** X8: the argument [somanodes] of [validate_graph_segments] has no effect
    on its result: a node whose children are all soma nodes and that has no
    segments passes the first assertion and fails the second one. *)
Theorem validate_graph_segments_ignores_somanodes (dgraph : gmap nat (list nat))
    (nodesegments : gmap nat (list segment)) (somanodes : option (list nat)) :
  validate_graph_segments dgraph nodesegments somanodes
  = validate_graph_segments dgraph nodesegments None.
Proof. by rewrite !validate_graph_segments_eq. Qed.

(** ** The graph stage of create_morphology *)

(** The state at the end of the loop of [create_directed_graph], with what
    the loop keeps. *)
Lemma cdg_loop_result options somanodes nodesgraph (stats : warn_counts) :
  exists st,
    (forall fuel, cdg_fuel nodesgraph somanodes (cdg_init somanodes stats) <= fuel ->
                  cdg_loop fuel options somanodes nodesgraph (cdg_init somanodes stats)
                  = Some st)
    /\ cdg_sound options somanodes nodesgraph st
    /\ (forall n, is_Some (cdg_edges st !! n) <-> reachable nodesgraph somanodes n)
    /\ (forall a b, has_edge (cdg_edges st) a b = true -> is_Some (cdg_edges st !! b)).
Proof.
  destruct (cdg_loop_returns options somanodes nodesgraph stats) as [st Hst].
  exists st. split; [done|].
  pose proof (Hst _ (le_n _)) as Hrun.
  assert (cdg_sound options somanodes nodesgraph st) as Hs.
  { eapply (cdg_loop_invariant (cdg_sound options somanodes nodesgraph));
      [|apply cdg_init_sound|exact Hrun].
    intros n rest s _. apply cdg_step_sound. }
  assert (cdg_reached somanodes nodesgraph st) as Hr.
  { eapply (cdg_loop_invariant (cdg_reached somanodes nodesgraph));
      [|apply cdg_init_reached|exact Hrun].
    intros n rest s. apply cdg_step_reached. }
  destruct (cdg_loop_closed options somanodes nodesgraph _ _ _ Hrun
              (cdg_init_closed somanodes nodesgraph stats)) as [Hc HF].
  assert (forall n, is_Some (cdg_edges st !! n) <-> reachable nodesgraph somanodes n) as Hkeys.
  { intros n. split.
    - intros [l Hl]. apply Hr. left. by apply (Hs n l).
    - intros Hn. pose proof Hc as (_ & _ & He). apply He. by eapply cdg_closed_reachable. }
  split; [done|]. split; [done|].
  intros a b Hab. apply has_edge_true in Hab as (l & Hl & Hb). apply Hkeys.
  destruct (Hs a l Hl) as (Ha & _ & Hin). apply (reachable_step _ _ a).
  - apply Hr. by left.
  - by apply Hin.
Qed.

(** The dictionary made from the segments and the directed graph of the same
    skeleton agrees with the graph. *)
Lemma graph_stage_agrees (segments : list segment) (somanodes : list nat)
    (options : morph_options) (st : cdg_state) (w : warn_counts) :
  cdg_sound options somanodes (create_node_graph segments) st ->
  (forall a b, has_edge (cdg_edges st) a b = true -> is_Some (cdg_edges st !! b)) ->
  let ns := (create_node_segments_dict segments (cdg_edges st) w).1 in
  dag_covered (cdg_edges st) ns /\ segments_rooted (cdg_edges st) ns.
Proof.
  intros Hs Hchild. cbv zeta. split.
  - intros a b Hab. pose proof Hab as Hab'. apply has_edge_true in Hab' as (l & Hl & Hb).
    destruct (Hs a l Hl) as (_ & _ & Hin). destruct (Hin b Hb) as [Hnb _].
    apply create_node_graph_joins in Hnb as (s0 & Hs0 & [[<- <-]|[<- <-]]).
    + apply list_elem_of_fmap. exists s0. split; [done|]. apply cnsd_filed.
      exists s0. split; [done|]. apply elem_of_oriented_copies. left. done.
    + apply list_elem_of_fmap. exists (reversed_segment s0). split; [done|].
      apply cnsd_filed. exists s0. split; [done|]. apply elem_of_oriented_copies.
      right. done.
  - intros k csegms Hk.
    assert (forall s, s ∈ csegms -> start s = k /\ has_edge (cdg_edges st) k (end_ s) = true)
      as Hfiled.
    { intros s Hin.
      assert (s ∈ segments_at (create_node_segments_dict segments (cdg_edges st) w).1 k)
        as Hin' by (unfold segments_at; by rewrite Hk).
      apply cnsd_filed in Hin' as (s0 & _ & Hin').
      apply elem_of_oriented_copies in Hin' as [(He & -> & ->)|(He & -> & ->)]; done. }
    split.
    + assert (segments_at (create_node_segments_dict segments (cdg_edges st) w).1 k <> [])
        as Hne by (apply cnsd_keys_nonempty; eauto).
      unfold segments_at in Hne. rewrite Hk in Hne. simpl in Hne.
      destruct csegms as [|s csegms]; [done|].
      destruct (Hfiled s (list_elem_of_here _ _)) as [_ He].
      apply has_edge_true in He as (l & Hl & _). eauto.
    + intros s Hin. destruct (Hfiled s Hin) as [? He]. split; [done|]. by eapply Hchild.
Qed.

(** X9: the validation of [create_morphology] always passes: for every list
    of segments, soma nodes and options, the directed graph made from the
    node graph of the segments and the dictionary made from the segments and
    that graph agree, whatever list of soma nodes the validation is given. *)
Theorem graph_stage_validates (segments : list segment) (somanodes : list nat)
    (options : morph_options) (stats : warn_counts) (vsoma : option (list nat)) :
  exists dag w,
    (forall fuel,
        cdg_fuel (create_node_graph segments) somanodes (cdg_init somanodes stats) <= fuel ->
        create_directed_graph fuel somanodes (create_node_graph segments) options stats
        = Some (dag, w))
    /\ validate_graph_segments dag (create_node_segments_dict segments dag w).1 vsoma
       = Ok (with_dag_keys dag (create_node_segments_dict segments dag w).1).
Proof.
  destruct (cdg_loop_result options somanodes (create_node_graph segments) stats)
    as (st & Hst & Hs & _ & Hchild).
  exists (cdg_edges st), (cdg_warn st). split.
  { intros fuel Hfuel. unfold create_directed_graph. by rewrite (Hst fuel Hfuel). }
  destruct (graph_stage_agrees segments somanodes options st (cdg_warn st) Hs Hchild)
    as [Hcov Hroot].
  rewrite validate_graph_segments_eq.
  apply dag_covered_forallb in Hcov. rewrite Hcov.
  apply segments_rooted_with_dag_keys, validate_segments_loop_rooted in Hroot.
  rewrite Hroot. by simpl_result.
Qed.

(** ** grow_soma: when it returns *)

Lemma grow_soma_segment_cases (loglevel : Z) (scentre : vec3) (sradius : float)
    (options : morph_options) (snode_idx : nat) (st : gstate) (segm : segment) :
  let r := grow_soma_segment loglevel scentre sradius options snode_idx st segm in
  (start segm = snode_idx /\ points segm <> []
   /\ exists st', r = Ok st' /\ visited st' = visited st /\ stats st' = stats st
                  /\ length (nodes st') = S (length (nodes st)))
  \/ (start segm <> snode_idx /\ r = Raise AssertionError)
  \/ (points segm = [] /\ r = Raise IndexError).
Proof.
  cbv zeta. unfold grow_soma_segment. case_bool_decide as Hs; simpl_result; [|auto].
  destruct (points segm) as [|ndata pts]; [auto|]. left.
  split; [done|]. split; [done|].
  destruct (k_INFLATE_SOMA options); [by eexists|].
  destruct (grow_section _ _ _ _) as [node m]. by eexists.
Qed.

Lemma grow_soma_segments_cases (loglevel : Z) (scentre : vec3) (sradius : float)
    (options : morph_options) (snode_idx : nat) (segments : list segment) (st : gstate) :
  let r := foldM (grow_soma_segment loglevel scentre sradius options snode_idx) segments st in
  ((forall s, s ∈ segments -> start s = snode_idx /\ points s <> [])
   /\ exists st', r = Ok st' /\ visited st' = visited st /\ stats st' = stats st
                  /\ length (nodes st') = length (nodes st) + length segments)
  \/ (r = Raise AssertionError /\ exists s, s ∈ segments /\ start s <> snode_idx)
  \/ (r = Raise IndexError /\ exists s, s ∈ segments /\ points s = []).
Proof.
  cbv zeta. revert st. induction segments as [|segm segments IH]; intros st.
  - left. split; [intros s Hs; by apply elem_of_nil in Hs|].
    exists st. simpl. split; [done|]. split; [done|]. split; [done|]. lia.
  - rewrite foldM_cons.
    destruct (grow_soma_segment_cases loglevel scentre sradius options snode_idx st segm)
      as [(H1 & H2 & st1 & -> & Hv & Hw & Hn)|[[H ->]|[H ->]]]; simpl_result.
    + destruct (IH st1) as [(Hall & st' & -> & Hv' & Hw' & Hn')|[[-> (s & Hs & Hbad)]
                                                                |[-> (s & Hs & Hbad)]]].
      * left. split.
        -- intros s Hs. apply elem_of_cons in Hs as [->|Hs]; auto.
        -- exists st'. split; [done|]. split; [congruence|]. split; [congruence|].
           simpl. lia.
      * right. left. split; [done|]. exists s. split; [by apply list_elem_of_further|done].
      * right. right. split; [done|]. exists s. split; [by apply list_elem_of_further|done].
    + right. left. split; [done|]. exists segm. split; [apply list_elem_of_here|done].
    + right. right. split; [done|]. exists segm. split; [apply list_elem_of_here|done].
Qed.

Lemma grow_soma_nodes_cases (loglevel : Z) (nodesegments : gmap nat (list segment))
    (scentre : vec3) (sradius : float) (options : morph_options) (somanodes : list nat)
    (st : gstate) :
  let r := foldM (fun st snode_idx =>
                    foldM (grow_soma_segment loglevel scentre sradius options snode_idx)
                          (default [] (nodesegments !! snode_idx)) st) somanodes st in
  ((forall n s, n ∈ somanodes -> s ∈ segments_at nodesegments n ->
                start s = n /\ points s <> [])
   /\ exists st', r = Ok st' /\ visited st' = visited st /\ stats st' = stats st
                  /\ length (nodes st')
                     = length (nodes st) + length (flat_map (segments_at nodesegments) somanodes))
  \/ (r = Raise AssertionError
      /\ exists n s, n ∈ somanodes /\ s ∈ segments_at nodesegments n /\ start s <> n)
  \/ (r = Raise IndexError
      /\ exists n s, n ∈ somanodes /\ s ∈ segments_at nodesegments n /\ points s = []).
Proof.
  cbv zeta. revert st. induction somanodes as [|n somanodes IH]; intros st.
  - left. split; [intros n s Hn; by apply elem_of_nil in Hn|].
    exists st. simpl. split; [done|]. split; [done|]. split; [done|]. lia.
  - rewrite foldM_cons.
    destruct (grow_soma_segments_cases loglevel scentre sradius options n
                (default [] (nodesegments !! n)) st)
      as [(Hall & st1 & -> & Hv & Hw & Hn)|[[-> (s & Hs & Hbad)]|[-> (s & Hs & Hbad)]]];
      simpl_result.
    + destruct (IH st1) as [(Hall' & st' & -> & Hv' & Hw' & Hlen)
                           |[[-> (n' & s & Hn' & Hs & Hbad)]|[-> (n' & s & Hn' & Hs & Hbad)]]].
      * left. split.
        -- intros n' s Hn' Hs. apply elem_of_cons in Hn' as [->|Hn']; auto.
        -- exists st'. split; [done|]. split; [congruence|]. split; [congruence|].
           simpl. rewrite length_app. unfold segments_at at 1. lia.
      * right. left. split; [done|]. exists n', s. split; [by apply list_elem_of_further|done].
      * right. right. split; [done|]. exists n', s.
        split; [by apply list_elem_of_further|done].
    + right. left. split; [done|]. exists n, s. split; [apply list_elem_of_here|done].
    + right. right. split; [done|]. exists n, s. split; [apply list_elem_of_here|done].
Qed.

(** X10: [grow_soma] returns exactly when every segment filed under a soma
    node starts at that node and has a sample; it then binds one position
    per such segment and leaves [visited] and the counters alone.  Otherwise
    it raises [AssertionError] for a segment filed under another node than
    its start, or [IndexError] for a segment without samples. *)
Theorem grow_soma_returns (loglevel : Z) (somanodes : list nat)
    (nodesegments : gmap nat (list segment)) (scentre : vec3) (sradius : float)
    (options : morph_options) (st : gstate) :
  let r := grow_soma loglevel somanodes nodesegments scentre sradius options st in
  ((forall n s, n ∈ somanodes -> s ∈ segments_at nodesegments n ->
                start s = n /\ points s <> [])
   /\ exists st', r = Ok st' /\ visited st' = visited st /\ stats st' = stats st
                  /\ length (nodes st')
                     = length (nodes st) + length (flat_map (segments_at nodesegments) somanodes))
  \/ (r = Raise AssertionError
      /\ exists n s, n ∈ somanodes /\ s ∈ segments_at nodesegments n /\ start s <> n)
  \/ (r = Raise IndexError
      /\ exists n s, n ∈ somanodes /\ s ∈ segments_at nodesegments n /\ points s = []).
Proof.
  cbv zeta. unfold grow_soma.
  destruct (loglevel <=? DEBUG)%Z.
  - exact (grow_soma_nodes_cases loglevel nodesegments scentre sradius options somanodes
             (GState (nodes st) (visited st) _ (stats st) (node_grow_stats st))).
  - apply grow_soma_nodes_cases.
Qed.

(** ** The walk over the interior samples *)

Section GrowthOutcome.
Variables (loglevel : Z) (dagnodes : gmap nat (list nat)).
Variables (nodesegments : gmap nat (list segment)) (scentre : vec3) (sradius : float).
Variable options : morph_options.

Lemma walk_interior_stops (node : handle) (pre : list point) (pt : point)
    (post : list point) (section : option (handle * vec3)) (is_cut : bool) (st : gstate) :
  is_cut_point (position pt) (k_CUTPOINT_AABB options) = true ->
  walk_interior loglevel scentre sradius options node (pre ++ pt :: post) section is_cut st
  = walk_interior loglevel scentre sradius options node (pre ++ [pt]) section is_cut st.
Proof.
  intros Hcut. revert section is_cut st.
  induction pre as [|p pre IH]; intros section is_cut st; cbn [app walk_interior].
  - rewrite Hcut, orb_true_r. by destruct (grow_interior_point _ _ _ _ _ _ _ _ _).
  - destruct (grow_interior_point _ _ _ _ _ _ _ _ _) as [s' st'].
    destruct (is_cut || _); [done|]. apply IH.
Qed.

Lemma walk_interior_spec (node : handle) (pts : list point)
    (section : option (handle * vec3)) (st : gstate) :
  let r := walk_interior loglevel scentre sradius options node pts section false st in
  nodes r.2 = nodes st /\ visited r.2 = visited st
  /\ r.1.2 = existsb (fun pt => is_cut_point (position pt) (k_CUTPOINT_AABB options)) pts
  /\ cut_nodes_found (stats r.2) = (if r.1.2 then 1 else 0) + cut_nodes_found (stats st)
  /\ grown_points r.2 + ignored_positions (stats r.2)
     <= length pts + (grown_points st + ignored_positions (stats st)).
Proof.
  cbv zeta. revert section st. induction pts as [|pt pts IH]; intros section st;
    cbn [walk_interior existsb length orb].
  - simpl. repeat split; lia.
  - set (c := is_cut_point (position pt) (k_CUTPOINT_AABB options)).
    pose proof (grow_interior_point_frame loglevel scentre sradius options node pt c
                  section st) as (Hn & Hv & Hc).
    pose proof (grow_interior_point_balance loglevel scentre sradius options node pt c
                  section st) as (Hb & _).
    destruct (grow_interior_point _ _ _ _ _ _ _ section st) as [s' st'].
    cbn [fst snd] in Hn, Hv, Hc, Hb.
    assert (grown_points st' + ignored_positions (stats st')
            <= 1 + (grown_points st + ignored_positions (stats st))) as Hle.
    { rewrite Hb. destruct (is_Some_dec section); [lia|]. destruct (_ || _); lia. }
    destruct c; cbn [fst snd orb].
    + rewrite grown_points_with_stats. simpl. repeat split; try done; lia.
    + destruct (IH s' st') as (IHn & IHv & IHc & IHk & IHb).
      split; [congruence|]. split; [congruence|]. split; [done|]. split; [|lia].
      rewrite IHk. lia.
Qed.

(** X11: the walk over the interior samples of a segment never touches the
    table of grown nodes nor [visited]; it handles each sample at most once
    (a sample is grown, dropped or skipped); it reports a cut exactly when a
    sample is a cut point, counts it once, and stops at that sample: the
    samples after the first cut point have no effect. *)
Theorem walk_interior_outcome (node : handle) (pts : list point)
    (section : option (handle * vec3)) (st : gstate) :
  let walk pts := walk_interior loglevel scentre sradius options node pts section false st in
  nodes (walk pts).2 = nodes st /\ visited (walk pts).2 = visited st
  /\ (walk pts).1.2
     = existsb (fun pt => is_cut_point (position pt) (k_CUTPOINT_AABB options)) pts
  /\ cut_nodes_found (stats (walk pts).2)
     = (if (walk pts).1.2 then 1 else 0) + cut_nodes_found (stats st)
  /\ grown_points (walk pts).2 + ignored_positions (stats (walk pts).2)
     <= length pts + (grown_points st + ignored_positions (stats st))
  /\ (forall pre pt post,
        pts = pre ++ pt :: post ->
        is_cut_point (position pt) (k_CUTPOINT_AABB options) = true ->
        walk pts = walk (pre ++ [pt])).
Proof.
  cbv zeta. destruct (walk_interior_spec node pts section st) as (H1 & H2 & H3 & H4 & H5).
  repeat (split; [done|]). intros pre pt post -> Hcut. by apply walk_interior_stops.
Qed.

(** ** A node at a cut point *)

Lemma grow_node_segments_cut_start (pnode_idx : nat) (segments : list segment)
    (pos : vec3) (node : handle) (st : gstate) :
  (forall s, s ∈ segments ->
             start s = pnode_idx /\ exists pt tl, points s = pt :: tl /\ position pt = pos) ->
  dict_get pos (nodes st) = Some node ->
  is_cut_point pos (k_CUTPOINT_AABB options) = true ->
  grow_node_segments loglevel scentre sradius options pnode_idx segments false st
  = Ok (existsb (fun s => bool_decide (2 <= length (points s))) segments, st).
Proof.
  intros Hall Hnode Hcut. induction segments as [|segm segments IH]; [done|].
  cbn [grow_node_segments existsb].
  destruct (Hall segm (list_elem_of_here _ _)) as (Hs & pt & tl & Hp & Hpos).
  rewrite bool_decide_eq_true_2 by done. simpl_result. rewrite Hp.
  destruct tl as [|p1 tl].
  - rewrite IH; [done|]. intros s Hin. apply Hall. by apply list_elem_of_further.
  - rewrite Hpos, Hnode, Hcut. cbn [orb]. rewrite bool_decide_eq_true_2 by (simpl; lia).
    done.
Qed.

(** X12: when the position of a node is a cut point (outside the AABB),
    [grow_segments] grows none of its segments, counts no cut node and does
    not descend into its children: the node is only added to [visited]. *)
Theorem cut_start_grows_nothing (frames : nat) (pnode_idx : nat) (depth : Z) (st : gstate)
    (segments : list segment) (pos : vec3) (node : handle) :
  depth <> 0%Z -> pnode_idx ∉ visited st ->
  nodesegments !! pnode_idx = Some segments ->
  (forall s, s ∈ segments ->
             start s = pnode_idx /\ exists pt tl, points s = pt :: tl /\ position pt = pos) ->
  (exists s, s ∈ segments /\ 2 <= length (points s)) ->
  dict_get pos (nodes st) = Some node ->
  is_cut_point pos (k_CUTPOINT_AABB options) = true ->
  grow_segments loglevel dagnodes nodesegments scentre sradius options
                (S frames) pnode_idx depth st
  = Ok (with_visited (visited st ++ [pnode_idx]) st).
Proof.
  intros Hd Hv Hsegs Hall (s & Hs & Hlen) Hnode Hcut. cbn [grow_segments].
  apply Z.eqb_neq in Hd. rewrite Hd. rewrite bool_decide_eq_false_2 by done.
  rewrite Hsegs. simpl.
  rewrite (grow_node_segments_cut_start pnode_idx segments pos node); [|done..].
  simpl_result.
  assert (existsb (fun s => bool_decide (2 <= length (points s))) segments = true) as ->;
    [|done].
  apply existsb_exists. exists s. split; [by apply list_elem_of_In|].
  by apply bool_decide_eq_true.
Qed.

End GrowthOutcome.

(** Witness: a root at x = 20, outside the box of scenario D. *)
Lemma cut_start_grows_nothing_witness :
  grow_segments INFO dag_D node_segments_outside (V3 0 0 0) 1 options_D 1 1 (-1) root_outside
  = Ok (with_visited (visited root_outside ++ [1]) root_outside).
Proof.
  apply (cut_start_grows_nothing INFO dag_D node_segments_outside (V3 0 0 0) 1 options_D
           0 1 (-1) root_outside [Segment 1 2 [sample 20; sample 21]]
           (position (sample 20)) HSoma).
  - discriminate.
  - apply not_elem_of_nil.
  - reflexivity.
  - intros s Hs. apply list_elem_of_singleton in Hs as ->. split; [reflexivity|].
    eexists _, _. split; reflexivity.
  - eexists. split; [apply list_elem_of_here|]. simpl. lia.
  - vm_compute. reflexivity.
  - vm_compute. reflexivity.
Defined.

(** ** Growth: the counters it leaves alone *)

Lemma keeps_graph_counters_refl (b : bool) (st : gstate) : keeps_graph_counters b st st.
Proof. by repeat split. Qed.

Lemma keeps_graph_counters_trans (b : bool) (st1 st2 st3 : gstate) :
  keeps_graph_counters b st1 st2 -> keeps_graph_counters b st2 st3 ->
  keeps_graph_counters b st1 st3.
Proof.
  intros (A1 & A2 & A3) (B1 & B2 & B3). split; [congruence|]. split; [congruence|].
  intros Hb. rewrite B3, A3; done.
Qed.

Lemma keeps_graph_counters_stats (b : bool) (st st' : gstate) :
  unconnected_segments (stats st') = unconnected_segments (stats st) ->
  ignored_edges (stats st') = ignored_edges (stats st) ->
  max_grow_depth_reached (stats st') = max_grow_depth_reached (stats st) ->
  keeps_graph_counters b st st'.
Proof. by repeat split. Qed.

(** A loop whose body keeps a reflexive and transitive relation. *)
Lemma foldM_related {A S : Type} (R : S -> S -> Prop) (f : S -> A -> result S)
    (l : list A) (s : S) :
  (forall s, R s s) -> (forall s1 s2 s3, R s1 s2 -> R s2 s3 -> R s1 s3) ->
  (forall s a, a ∈ l -> match f s a with Ok s' => R s s' | _ => True end) ->
  match foldM f l s with Ok s' => R s s' | _ => True end.
Proof.
  intros Hrefl Htrans. revert s. induction l as [|a l IH]; intros s Hf; [apply Hrefl|].
  rewrite foldM_cons. pose proof (Hf s a (list_elem_of_here _ _)) as Ha.
  destruct (f s a) as [s1| |]; simpl_result; [|done..].
  specialize (IH s1). destruct (foldM f l s1) as [s2| |]; [|done..].
  eapply Htrans; [exact Ha|]. apply IH. intros s' a' Ha'. apply Hf.
  by apply list_elem_of_further.
Qed.

Section GraphCounters.
Variables (loglevel : Z) (dagnodes : gmap nat (list nat)).
Variables (nodesegments : gmap nat (list segment)) (scentre : vec3) (sradius : float).
Variable options : morph_options.

Lemma grow_interior_point_counters (node : handle) (pt : point) (is_cut : bool)
    (section : option (handle * vec3)) (st : gstate) :
  keeps_graph_counters true st
    (grow_interior_point loglevel scentre sradius options node pt is_cut section st).2.
Proof.
  unfold grow_interior_point. destruct section as [[sec prev]|]; cbn zeta.
  - destruct (_ <=? _)%float; by apply keeps_graph_counters_stats.
  - destruct (negb _ || _); by apply keeps_graph_counters_stats.
Qed.

Lemma walk_interior_counters (node : handle) (pts : list point)
    (section : option (handle * vec3)) (is_cut : bool) (st : gstate) :
  keeps_graph_counters true st
    (walk_interior loglevel scentre sradius options node pts section is_cut st).2.
Proof.
  revert section is_cut st. induction pts as [|pt pts IH]; intros section is_cut st;
    [apply keeps_graph_counters_refl|].
  cbn [walk_interior]. set (c := is_cut || _).
  pose proof (grow_interior_point_counters node pt c section st) as H.
  destruct (grow_interior_point _ _ _ _ _ _ _ section st) as [s' st']. cbn [snd] in H.
  destruct c; cbn [snd].
  - eapply keeps_graph_counters_trans; [exact H|]. by apply keeps_graph_counters_stats.
  - eapply keeps_graph_counters_trans; [exact H|]. apply IH.
Qed.

Lemma grow_end_node_counters (node : handle) (ndata : point) (section : option handle)
    (is_cut : bool) (st : gstate) :
  keeps_graph_counters true st
    (grow_end_node loglevel scentre sradius options node ndata section is_cut st).
Proof.
  unfold grow_end_node. cbv zeta. set (cut := is_cut || _).
  set (st1 := if cut then _ else st).
  assert (keeps_graph_counters true st st1) as H1
    by (subst st1; destruct cut; by apply keeps_graph_counters_stats).
  eapply keeps_graph_counters_trans; [exact H1|].
  destruct (dict_mem (position ndata) (nodes st1)); [apply keeps_graph_counters_refl|].
  destruct (match section with Some _ => section | None => _ end) as [sec|];
    by apply keeps_graph_counters_stats.
Qed.

Lemma grow_node_segments_counters (pnode_idx : nat) (segments : list segment)
    (is_parent_cut : bool) (st : gstate) :
  match grow_node_segments loglevel scentre sradius options pnode_idx segments
                           is_parent_cut st with
  | Ok (_, st') => keeps_graph_counters true st st'
  | Raise e => e = AssertionError
  | OutOfFuel => False
  end.
Proof.
  revert is_parent_cut st. induction segments as [|segm segments IH];
    intros is_parent_cut st; cbn [grow_node_segments]; [apply keeps_graph_counters_refl|].
  destruct (bool_decide (start segm = pnode_idx)); simpl_result; [|done].
  destruct (points segm) as [|ndata [|p1 tl]]; [apply IH..|].
  destruct (dict_get (position ndata) (nodes st)) as [node|]; [|done].
  destruct (is_parent_cut || _); [apply keeps_graph_counters_refl|].
  pose proof (walk_interior_counters node (removelast (p1 :: tl)) None false st) as Hw.
  destruct (walk_interior _ _ _ _ _ _ None false st) as [[section is_cut] st1].
  cbn [snd] in Hw.
  pose proof (grow_end_node_counters node (List.last (p1 :: tl) p1) (fst <$> section)
                is_cut st1) as He.
  specialize (IH false (grow_end_node loglevel scentre sradius options node
                          (List.last (p1 :: tl) p1) (fst <$> section) is_cut st1)).
  destruct (grow_node_segments _ _ _ _ _ _ _ _) as [[b st']| |]; [|done|done].
  eapply keeps_graph_counters_trans; [exact Hw|].
  eapply keeps_graph_counters_trans; [exact He|]. exact IH.
Qed.

Lemma keeps_graph_counters_weaken (b : bool) (st st' : gstate) :
  keeps_graph_counters true st st' -> keeps_graph_counters b st st'.
Proof. intros (H1 & H2 & H3). split; [done|]. split; [done|]. auto. Qed.

Lemma grow_segments_counters (frames : nat) (pnode_idx : nat) (depth : Z) (st : gstate) :
  match grow_segments loglevel dagnodes nodesegments scentre sradius options
                      frames pnode_idx depth st with
  | Ok st' => keeps_graph_counters (depth <? 0)%Z st st'
  | _ => True
  end.
Proof.
  revert pnode_idx depth st. induction frames as [|frames IH]; intros pnode_idx depth st;
    [done|].
  cbn [grow_segments].
  destruct (depth =? 0)%Z eqn:Hd.
  { apply Z.eqb_eq in Hd as ->. split; [done|]. split; [done|]. discriminate. }
  case_bool_decide as Hv; [apply keeps_graph_counters_refl|].
  set (st1 := with_visited (visited st ++ [pnode_idx]) st).
  pose proof (grow_node_segments_counters pnode_idx
                (default [] (nodesegments !! pnode_idx)) false st1) as H2.
  destruct (grow_node_segments _ _ _ _ _ _ _ st1) as [[cut st2]| |]; simpl_result;
    [|done|done].
  assert (keeps_graph_counters (depth <? 0)%Z st st2) as H12.
  { apply keeps_graph_counters_weaken. destruct H2 as (A1 & A2 & A3). by repeat split. }
  destruct cut; [done|].
  destruct (dagnodes !! pnode_idx) as [children|]; [|done].
  set (d := (if (0 <? depth)%Z then depth - 1 else -1)%Z).
  pose proof (foldM_related (keeps_graph_counters (depth <? 0)%Z)
                (fun st cn_idx => grow_segments loglevel dagnodes nodesegments scentre
                                    sradius options frames cn_idx d st) children st2
                (keeps_graph_counters_refl _) (keeps_graph_counters_trans _)) as HF.
  destruct (foldM _ children st2) as [st'| |]; [|done..].
  eapply keeps_graph_counters_trans; [exact H12|]. apply HF.
  intros s c _. specialize (IH c d s).
  destruct (grow_segments _ _ _ _ _ _ frames c d s) as [s'| |]; [|done..].
  destruct IH as (A1 & A2 & A3). split; [done|]. split; [done|].
  intros Hneg. apply A3. subst d. apply Z.ltb_lt in Hneg. apply Z.ltb_lt.
  destruct (0 <? depth)%Z eqn:Hpos; [apply Z.ltb_lt in Hpos|]; lia.
Qed.

End GraphCounters.

(** X13: the growth never changes the counters of the graph stage
    (unconnected segments, ignored edges), and with a negative depth, the
    default -1 that stands for no limit, it never counts a reached depth
    limit. *)
Theorem growth_keeps_graph_counters (loglevel : Z) (dagnodes : gmap nat (list nat))
    (nodesegments : gmap nat (list segment)) (scentre : vec3) (sradius : float)
    (options : morph_options) (frames : nat) (soma_node_idxs : list nat) (depth : Z)
    (w : warn_counts) :
  match grow_morphology loglevel dagnodes nodesegments scentre sradius options
                        frames soma_node_idxs depth w with
  | Ok st =>
      unconnected_segments (stats st) = unconnected_segments w
      /\ ignored_edges (stats st) = ignored_edges w
      /\ ((depth < 0)%Z -> max_grow_depth_reached (stats st) = max_grow_depth_reached w)
  | _ => True
  end.
Proof.
  unfold grow_morphology.
  destruct (grow_soma_nodes_cases loglevel nodesegments scentre sradius options
              soma_node_idxs
              (if (loglevel <=? DEBUG)%Z
               then GState (nodes (empty_gstate w)) (visited (empty_gstate w))
                           (sink (DebugSoma (sradius * k_SCALING_FACTOR options))
                                 (morphology (empty_gstate w)))
                           (stats (empty_gstate w)) (node_grow_stats (empty_gstate w))
               else empty_gstate w))
    as [(_ & st0 & H0 & _ & Hw & _)|[[H0 _]|[H0 _]]]; unfold grow_soma; rewrite H0;
    simpl_result; [|done..].
  assert (stats st0 = w) as Hst0 by (rewrite Hw; by destruct (loglevel <=? DEBUG)%Z).
  pose proof (foldM_related (keeps_graph_counters (depth <? 0)%Z)
                (fun st snidx => grow_segments loglevel dagnodes nodesegments scentre
                                   sradius options frames snidx depth st) soma_node_idxs st0
                (keeps_graph_counters_refl _) (keeps_graph_counters_trans _)) as HF.
  destruct (foldM _ soma_node_idxs st0) as [st| |]; [|done..].
  destruct HF as (A1 & A2 & A3).
  { intros s c _. apply grow_segments_counters. }
  rewrite Hst0 in A1, A2, A3. split; [done|]. split; [done|].
  intros Hneg. apply A3. by apply Z.ltb_lt.
Qed.

(** ** create_morphology: its outcome *)

(** More room for the recursion does not change a result that is not the
    recursion error. *)
Lemma foldM_frames_mono {A S : Type} (f g : S -> A -> result S) (l : list A) (s : S) :
  (forall s a, f s a <> Raise RuntimeError -> g s a = f s a) ->
  foldM f l s <> Raise RuntimeError -> foldM g l s = foldM f l s.
Proof.
  intros Hfg. revert s. induction l as [|a l IH]; intros s; [done|].
  rewrite !foldM_cons. intros Hne.
  assert (f s a <> Raise RuntimeError) as Ha by (intros E; by rewrite E in Hne).
  rewrite (Hfg s a Ha). destruct (f s a) as [s1| |]; simpl_result; [|done..].
  apply IH. by simpl_result.
Qed.

Section Outcome.
Variables (loglevel : Z) (dagnodes : gmap nat (list nat)).
Variables (nodesegments : gmap nat (list segment)) (scentre : vec3) (sradius : float).
Variable options : morph_options.

Lemma grow_segments_frames_mono (frames frames' : nat) (pnode_idx : nat) (depth : Z)
    (st : gstate) :
  frames <= frames' ->
  grow_segments loglevel dagnodes nodesegments scentre sradius options
                frames pnode_idx depth st <> Raise RuntimeError ->
  grow_segments loglevel dagnodes nodesegments scentre sradius options
                frames' pnode_idx depth st
  = grow_segments loglevel dagnodes nodesegments scentre sradius options
                  frames pnode_idx depth st.
Proof.
  revert frames' pnode_idx depth st. induction frames as [|frames IH];
    intros frames' pnode_idx depth st Hle Hne; [done|].
  destruct frames' as [|frames']; [lia|]. cbn [grow_segments] in *.
  destruct (depth =? 0)%Z; [done|]. case_bool_decide; [done|].
  destruct (grow_node_segments _ _ _ _ _ _ _ _) as [[cut st2]| |]; simpl_result; [|done..].
  simpl_result. destruct cut; [done|].
  destruct (dagnodes !! pnode_idx) as [children|]; [|done].
  revert Hne. simpl_result. intros Hne. apply foldM_frames_mono; [|done].
  intros s c Hc. apply IH; [lia|done].
Qed.

Lemma grow_morphology_frames_mono (frames frames' : nat) (soma_node_idxs : list nat)
    (depth : Z) (w : warn_counts) :
  frames <= frames' ->
  grow_morphology loglevel dagnodes nodesegments scentre sradius options
                  frames soma_node_idxs depth w <> Raise RuntimeError ->
  grow_morphology loglevel dagnodes nodesegments scentre sradius options
                  frames' soma_node_idxs depth w
  = grow_morphology loglevel dagnodes nodesegments scentre sradius options
                    frames soma_node_idxs depth w.
Proof.
  intros Hle. unfold grow_morphology.
  destruct (grow_soma _ _ _ _ _ _ _) as [st0| |]; simpl_result; [|done..].
  intros Hne. apply foldM_frames_mono; [|done].
  intros s c Hc. by apply grow_segments_frames_mono.
Qed.

(** The growth never runs out of fuel: it has no loop of the model. *)
Lemma grow_morphology_total (frames : nat) (soma_node_idxs : list nat) (depth : Z)
    (w : warn_counts) :
  grow_morphology loglevel dagnodes nodesegments scentre sradius options
                  frames soma_node_idxs depth w <> OutOfFuel.
Proof.
  unfold grow_morphology.
  pose proof (grow_soma_grown loglevel nodesegments scentre sradius options
                soma_node_idxs w) as H0.
  destruct (grow_soma _ _ _ _ _ _ _) as [st0| |]; simpl_result; [|done..].
  destruct (foldM_children dagnodes
              (fun st snidx => grow_segments loglevel dagnodes nodesegments scentre sradius
                                 options frames snidx depth st)
              frames soma_node_idxs st0) as [F1 _].
  { intros s c. apply grow_segments_expands. }
  { intros s c. apply grow_segments_expands. }
  intros E. by rewrite E in F1.
Qed.

(** With room for more nested calls than the directed graph has nodes, the
    growth does not exceed the recursion limit. *)
Lemma grow_morphology_room (frames : nat) (soma_node_idxs : list nat) (depth : Z)
    (w : warn_counts) :
  size (dom dagnodes) < frames ->
  grow_morphology loglevel dagnodes nodesegments scentre sradius options
                  frames soma_node_idxs depth w <> Raise RuntimeError.
Proof.
  intros Hroom. unfold grow_morphology.
  pose proof (grow_soma_grown loglevel nodesegments scentre sradius options
                soma_node_idxs w) as H0.
  pose proof (grow_soma_raises loglevel nodesegments scentre sradius options
                soma_node_idxs (empty_gstate w)) as Hr0.
  destruct (grow_soma _ _ _ _ _ _ _) as [st0|e|]; simpl_result;
    [|intros [= ->]; by destruct Hr0|done].
  destruct H0 as (_ & Hv & _).
  destruct (foldM_children dagnodes
              (fun st snidx => grow_segments loglevel dagnodes nodesegments scentre sradius
                                 options frames snidx depth st)
              frames soma_node_idxs st0) as [_ F2].
  { intros s c. apply grow_segments_expands. }
  { intros s c. apply grow_segments_expands. }
  apply F2. unfold pending. rewrite Hv. simpl.
  replace (dom dagnodes ∖ ∅) with (dom dagnodes) by set_solver. done.
Qed.

(** Whatever the room, the growth gives the outcome that it has with room
    for more nested calls than the graph has nodes, or the recursion
    error. *)
Lemma grow_morphology_limited (frames frames' : nat) (soma_node_idxs : list nat)
    (depth : Z) (w : warn_counts) :
  size (dom dagnodes) < frames' ->
  grow_morphology loglevel dagnodes nodesegments scentre sradius options
                  frames soma_node_idxs depth w
  = grow_morphology loglevel dagnodes nodesegments scentre sradius options
                    frames' soma_node_idxs depth w
  \/ grow_morphology loglevel dagnodes nodesegments scentre sradius options
                     frames soma_node_idxs depth w
     = Raise RuntimeError.
Proof.
  intros Hroom.
  assert (grow_morphology loglevel dagnodes nodesegments scentre sradius options
                          frames soma_node_idxs depth w = Raise RuntimeError
          \/ grow_morphology loglevel dagnodes nodesegments scentre sradius options
                             frames soma_node_idxs depth w <> Raise RuntimeError)
    as [E|E]; [|by right|left].
  { destruct (grow_morphology _ _ _ _ _ _ frames _ _ _) as [st|[]|]; auto. }
  destruct (Nat.le_ge_cases frames frames') as [Hle|Hle].
  - symmetry. by apply grow_morphology_frames_mono.
  - apply grow_morphology_frames_mono; [done|]. by apply grow_morphology_room.
Qed.

Hypothesis dag_closed : forall a b, has_edge dagnodes a b = true -> is_Some (dagnodes !! b).

Lemma grow_segments_raises (frames : nat) (pnode_idx : nat) (depth : Z) (st : gstate) :
  is_Some (dagnodes !! pnode_idx) ->
  match grow_segments loglevel dagnodes nodesegments scentre sradius options
                      frames pnode_idx depth st with
  | Raise e => e = AssertionError \/ e = RuntimeError
  | _ => True
  end.
Proof.
  revert pnode_idx depth st. induction frames as [|frames IH]; intros pnode_idx depth st Hp;
    [by right|].
  cbn [grow_segments].
  destruct (depth =? 0)%Z; [done|]. case_bool_decide; [done|].
  pose proof (grow_node_segments_counters loglevel scentre sradius options pnode_idx
                (default [] (nodesegments !! pnode_idx)) false
                (with_visited (visited st ++ [pnode_idx]) st)) as H2.
  destruct (grow_node_segments _ _ _ _ _ _ _ _) as [[cut st2]| |]; simpl_result;
    [|by left|done].
  destruct cut; [done|].
  destruct Hp as [children Hc]. rewrite Hc.
  apply (foldM_raises (fun e => e = AssertionError \/ e = RuntimeError)).
  intros s c Hin. apply IH. apply (dag_closed pnode_idx). apply has_edge_true. eauto.
Qed.

Lemma grow_morphology_raises (frames : nat) (soma_node_idxs : list nat) (depth : Z)
    (w : warn_counts) :
  (forall r, r ∈ soma_node_idxs -> is_Some (dagnodes !! r)) ->
  match grow_morphology loglevel dagnodes nodesegments scentre sradius options
                        frames soma_node_idxs depth w with
  | Raise e => e = AssertionError \/ e = IndexError \/ e = RuntimeError
  | _ => True
  end.
Proof.
  intros Hroots. unfold grow_morphology.
  destruct (grow_soma_nodes_cases loglevel nodesegments scentre sradius options
              soma_node_idxs
              (if (loglevel <=? DEBUG)%Z
               then GState (nodes (empty_gstate w)) (visited (empty_gstate w))
                           (sink (DebugSoma (sradius * k_SCALING_FACTOR options))
                                 (morphology (empty_gstate w)))
                           (stats (empty_gstate w)) (node_grow_stats (empty_gstate w))
               else empty_gstate w))
    as [(_ & st0 & H0 & _)|[[H0 _]|[H0 _]]]; unfold grow_soma; rewrite H0;
    simpl_result; [|auto..].
  apply (foldM_raises (fun e => e = AssertionError \/ e = IndexError \/ e = RuntimeError)).
  intros s r Hr. pose proof (grow_segments_raises frames r depth s (Hroots r Hr)) as H.
  destruct (grow_segments _ _ _ _ _ _ _ _ _ _); [done| |done]. destruct H; auto.
Qed.

End Outcome.

Lemma validate_graph_stage (segments : list segment) (somanodes : list nat)
    (options : morph_options) (st : cdg_state) (w : warn_counts)
    (vsoma : option (list nat)) :
  cdg_sound options somanodes (create_node_graph segments) st ->
  (forall a b, has_edge (cdg_edges st) a b = true -> is_Some (cdg_edges st !! b)) ->
  validate_graph_segments (cdg_edges st)
                          (create_node_segments_dict segments (cdg_edges st) w).1 vsoma
  = Ok (with_dag_keys (cdg_edges st) (create_node_segments_dict segments (cdg_edges st) w).1).
Proof.
  intros Hs Hchild.
  destruct (graph_stage_agrees segments somanodes options st w Hs Hchild) as [Hcov Hroot].
  rewrite validate_graph_segments_eq.
  apply dag_covered_forallb in Hcov. rewrite Hcov.
  apply segments_rooted_with_dag_keys, validate_segments_loop_rooted in Hroot.
  rewrite Hroot. by simpl_result.
Qed.

Lemma show_grow_stats_cases (grow_stats : list (handle * vec3)) :
  show_grow_stats grow_stats = Ok tt \/ show_grow_stats grow_stats = Raise ValueError.
Proof.
  unfold show_grow_stats. destruct (is_nil (_ <$> grow_stats)); [auto|].
  destruct (is_nil _); auto.
Qed.

(** X14: [create_morphology] always ends.  From some fuel on, and when the
    recursion limit leaves room for enough nested calls of [grow_segments],
    the model gives one and the same outcome, which is a morphology or a
    raised exception, and the exception is neither the recursion error nor
    [KeyError]: the soma nodes and every child that [grow_segments] looks
    up in the directed graph are keys of it.  With less room, the outcome is
    that one or [RuntimeError], and it does not depend on the fuel either. *)
Theorem create_morphology_outcome (skel : skeleton) (soma : soma_data) (o : options) :
  exists fuel0 frames0 r,
    (forall fuel frames, fuel0 <= fuel -> frames0 <= frames ->
       create_morphology fuel frames skel soma o = r)
    /\ r <> OutOfFuel /\ r <> Raise KeyError /\ r <> Raise RuntimeError
    /\ forall frames, exists r',
         (forall fuel, fuel0 <= fuel -> create_morphology fuel frames skel soma o = r')
         /\ (r' = r \/ r' = Raise RuntimeError).
Proof.
  unfold create_morphology. cbv zeta.
  destruct (show_node_pos_stats _ _) as [[]|e|] eqn:Hshow; simpl_result.
  2:{ assert (e <> KeyError /\ e <> RuntimeError) as [He1 He2].
      { unfold show_node_pos_stats in Hshow.
        destruct (collect_node_positions _), (stack_AABB o); by simplify_eq. }
      exists 0, 0, (Raise e). split; [done|]. split; [done|].
      split; [congruence|]. split; [congruence|]. intros frames. exists (Raise e). auto. }
  2:{ unfold show_node_pos_stats in Hshow.
      destruct (collect_node_positions _), (stack_AABB o); discriminate. }
  set (somanodes := collect_soma_nodes (centre soma) (radius soma) (skel_nodes skel)).
  set (morph := make_morph_options o).
  destruct (cdg_loop_result morph somanodes (create_node_graph (skel_segments skel))
              no_warnings) as (st & Hst & Hs & Hkeys & Hchild).
  set (dag := cdg_edges st) in *.
  pose proof (validate_graph_stage (skel_segments skel) somanodes morph st (cdg_warn st)
                (validate_somanodes morph somanodes) Hs Hchild) as Hval.
  fold dag in Hval.
  destruct (create_node_segments_dict (skel_segments skel) dag (cdg_warn st))
    as [ns w'] eqn:Hns.
  cbn [fst] in Hval.
  set (F1 := cdg_fuel (create_node_graph (skel_segments skel)) somanodes
                      (cdg_init somanodes no_warnings)) in *.
  set (F2 := S (size (dom dag))).
  set (grow frames := grow_morphology (verbosity_level o) dag (with_dag_keys dag ns)
                        (centre soma) (radius soma) morph frames somanodes
                        (graph_depth o) w').
  set (finish (g : result gstate) :=
         g ≫= fun st => show_grow_stats (node_grow_stats st) ≫= fun _ => Ok st).
  assert (grow F2 <> Raise RuntimeError) as Hroom
    by (apply grow_morphology_room; unfold F2; lia).
  assert (grow F2 <> OutOfFuel) as Htotal by apply grow_morphology_total.
  assert (forall r, r ∈ somanodes -> is_Some (dag !! r)) as Hroots.
  { intros r Hr. apply Hkeys. by apply reachable_root. }
  pose proof (grow_morphology_raises (verbosity_level o) dag (with_dag_keys dag ns)
                (centre soma) (radius soma) morph Hchild F2 somanodes (graph_depth o) w'
                Hroots) as Hraise.
  fold (grow F2) in Hraise.
  assert (forall fuel frames, F1 <= fuel ->
            match create_directed_graph fuel somanodes
                    (create_node_graph (skel_segments skel)) morph no_warnings with
            | Some (dag_nodes, w) =>
                let '(node_segments, w0) :=
                  create_node_segments_dict (skel_segments skel) dag_nodes w in
                validate_graph_segments dag_nodes node_segments
                                        (validate_somanodes morph somanodes)
                ≫= fun node_segments0 =>
                     grow_morphology (verbosity_level o) dag_nodes node_segments0
                                     (centre soma) (radius soma) morph frames somanodes
                                     (graph_depth o) w0
                     ≫= fun st0 => show_grow_stats (node_grow_stats st0) ≫= fun _ => Ok st0
            | None => OutOfFuel
            end = finish (grow frames)) as Hrun.
  { intros fuel frames Hfuel. unfold create_directed_graph. rewrite (Hst fuel) by lia.
    fold dag. rewrite Hns, Hval. by simpl_result. }
  exists F1, F2, (finish (grow F2)).
  split; [|split; [|split; [|split]]].
  - intros fuel frames Hfuel Hframes. rewrite Hrun by done.
    assert (grow frames = grow F2) as ->; [|done].
    by apply grow_morphology_frames_mono.
  - unfold finish. destruct (grow F2) as [st'| |]; simpl_result; [|done..].
    destruct (show_grow_stats_cases (node_grow_stats st')) as [-> | ->]; by simpl_result.
  - unfold finish. destruct (grow F2) as [st'|e|]; simpl_result; [| |done].
    + destruct (show_grow_stats_cases (node_grow_stats st')) as [-> | ->]; by simpl_result.
    + intros [= ->]. by destruct Hraise as [?|[?|?]].
  - unfold finish. destruct (grow F2) as [st'|e|]; simpl_result; [|congruence|done].
    destruct (show_grow_stats_cases (node_grow_stats st')) as [-> | ->]; by simpl_result.
  - intros frames. exists (finish (grow frames)). split; [intros fuel Hfuel; by apply Hrun|].
    destruct (grow_morphology_limited (verbosity_level o) dag (with_dag_keys dag ns)
                (centre soma) (radius soma) morph frames F2 somanodes (graph_depth o) w')
      as [E|E]; [unfold F2; lia| |].
    + left. fold (grow frames) (grow F2) in E. by rewrite E.
    + right. fold (grow frames) in E. by rewrite E.
Qed.

(** ** Box corners *)

Lemma fltb_asym (x y : float) : (x <? y)%float = true -> (y <? x)%float = false.
Proof.
  rewrite !FloatAxioms.ltb_spec. unfold SFltb.
  rewrite (SFcompare_antisym (Prim2SF x) (Prim2SF y)).
  destruct (SFcompare (Prim2SF x) (Prim2SF y)) as [[]|]; simpl; congruence.
Qed.

(** One coordinate: the open interval between the two corners does not
    depend on their order. *)
Lemma between_corners (a b v : float) :
  ((fmin a b <? v) && (v <? fmax a b) = (fmin b a <? v) && (v <? fmax b a))%float.
Proof.
  unfold fmin, fmax.
  destruct (b <? a)%float eqn:Hba, (a <? b)%float eqn:Hab; try reflexivity.
  - apply fltb_asym in Hba. congruence.
  - destruct (a <? v)%float eqn:Hav, (b <? v)%float eqn:Hbv; simpl;
      rewrite ?(fltb_asym _ _ Hav), ?(fltb_asym _ _ Hbv), ?andb_false_r; reflexivity.
Qed.

(** X15: the test [inside_aabb] does not depend on the order in which the two
    corners are given to [v3_to_aabb], even for corners that are not the
    minimal and maximal ones or that have NaN coordinates; [v3_to_aabb]
    applied to the corners of a box that it made gives the same box back;
    and no coordinate of its max corner is below that of its min corner.
    So [adjust_aabb], which ends with [v3_to_aabb], never makes an empty box
    when it shrinks a box by more than half its width: the unit cube shrunk
    by 1 on every side, the amount that [set_annotation_data] uses, is the
    unit cube again. *)
Theorem v3_to_aabb_corner_order (v1 v2 p : vec3) :
  inside_aabb (v3_to_aabb v1 v2) p = inside_aabb (v3_to_aabb v2 v1) p
  /\ v3_to_aabb (aabb_min (v3_to_aabb v1 v2)) (aabb_max (v3_to_aabb v1 v2))
     = v3_to_aabb v1 v2
  /\ ((vx (aabb_max (v3_to_aabb v1 v2)) <? vx (aabb_min (v3_to_aabb v1 v2)))%float = false
      /\ (vy (aabb_max (v3_to_aabb v1 v2)) <? vy (aabb_min (v3_to_aabb v1 v2)))%float = false
      /\ (vz (aabb_max (v3_to_aabb v1 v2)) <? vz (aabb_min (v3_to_aabb v1 v2)))%float = false)
  /\ adjust_aabb unit_box (-1) = unit_box.
Proof.
  split; [|split; [|split; [|vm_compute; reflexivity]]].
  3:{ assert (forall a b, (fmax a b <? fmin a b)%float = false) as H.
      { intros a b. unfold fmin, fmax.
        destruct (b <? a)%float eqn:Hba, (a <? b)%float eqn:Hab; try done.
        - apply fltb_asym in Hba. congruence.
        - destruct (a <? a)%float eqn:E; [|done]. pose proof (fltb_asym _ _ E). congruence. }
      unfold v3_to_aabb, vmin3, vmax3. cbn [aabb_min aabb_max vx vy vz]. by rewrite !H. }
  - unfold inside_aabb, v3_to_aabb, vmin3, vmax3. cbn [aabb_min aabb_max vx vy vz].
    pose proof (between_corners (vx v1) (vx v2) (vx p)) as Hx.
    pose proof (between_corners (vy v1) (vy v2) (vy p)) as Hy.
    pose proof (between_corners (vz v1) (vz v2) (vz p)) as Hz.
    destruct (fmin (vx v1) (vx v2) <? vx p)%float, (vx p <? fmax (vx v1) (vx v2))%float,
             (fmin (vy v1) (vy v2) <? vy p)%float, (vy p <? fmax (vy v1) (vy v2))%float,
             (fmin (vz v1) (vz v2) <? vz p)%float, (vz p <? fmax (vz v1) (vz v2))%float;
      simpl in *;
      destruct (fmin (vx v2) (vx v1) <? vx p)%float, (vx p <? fmax (vx v2) (vx v1))%float;
      simpl in *; try discriminate;
      destruct (fmin (vy v2) (vy v1) <? vy p)%float, (vy p <? fmax (vy v2) (vy v1))%float;
      simpl in *; try discriminate;
      destruct (fmin (vz v2) (vz v1) <? vz p)%float, (vz p <? fmax (vz v2) (vz v1))%float;
      simpl in *; try discriminate; reflexivity.
  - unfold v3_to_aabb, vmin3, vmax3. cbn [aabb_min aabb_max vx vy vz].
    assert (forall a b, fmin (fmin a b) (fmax a b) = fmin a b
                        /\ fmax (fmin a b) (fmax a b) = fmax a b) as H.
    { intros a b. unfold fmin, fmax.
      destruct (b <? a)%float eqn:Hba, (a <? b)%float eqn:Hab; rewrite ?Hba, ?Hab;
        try (split; reflexivity).
      - apply fltb_asym in Hba. congruence.
      - destruct (a <? a)%float; split; reflexivity. }
    destruct (H (vx v1) (vx v2)) as [-> ->], (H (vy v1) (vy v2)) as [-> ->],
             (H (vz v1) (vz v2)) as [-> ->]. reflexivity.
Qed.

(** ** show_grow_stats *)

Lemma grow_count_absent (h : handle) (gs : list (handle * vec3)) :
  h ∉ gs.*1 -> filter (fun item' : handle * vec3 => item'.1 = h) gs = [].
Proof.
  induction gs as [|[h' p] gs IH]; [done|]. rewrite fmap_cons, not_elem_of_cons.
  intros [Hne Hin]. simpl in Hne. rewrite filter_cons. simpl.
  rewrite decide_False by congruence. auto.
Qed.

Lemma grow_count_present (item : handle * vec3) (gs : list (handle * vec3)) :
  item ∈ gs -> 1 <= length (filter (fun item' : handle * vec3 => item'.1 = item.1) gs).
Proof.
  induction gs as [|i gs IH]; intros Hin; [by apply elem_of_nil in Hin|].
  rewrite filter_cons. destruct (decide (i.1 = item.1)); [simpl; lia|].
  apply elem_of_cons in Hin as [->|Hin]; [done|]. by apply IH.
Qed.

Lemma grow_counts_NoDup (gs : list (handle * vec3)) :
  NoDup gs.*1
  <-> forall item, item ∈ gs ->
        length (filter (fun item' : handle * vec3 => item'.1 = item.1) gs) <= 1.
Proof.
  induction gs as [|[h p] gs IH].
  - split; [|constructor]. intros _ item Hin. by apply elem_of_nil in Hin.
  - rewrite fmap_cons, NoDup_cons, IH. simpl. split.
    + intros [Hh Hall] item Hin. rewrite filter_cons. simpl.
      apply elem_of_cons in Hin as [->|Hin]; simpl.
      * rewrite decide_True by done. rewrite (grow_count_absent h gs Hh). simpl. lia.
      * rewrite decide_False; [by apply Hall|]. intros ->. apply Hh.
        apply list_elem_of_fmap. by exists item.
    + intros Hall. split.
      * intros Hh. apply list_elem_of_fmap in Hh as (item & Heq & Hin). simpl in Heq.
        pose proof (Hall (h, p) (list_elem_of_here _ _)) as H. simpl in H.
        rewrite filter_cons in H. simpl in H. rewrite decide_True in H by done.
        pose proof (grow_count_present item gs Hin) as H'. rewrite <- Heq in H'.
        simpl in H. lia.
      * intros item Hin. specialize (Hall item (list_elem_of_further _ _ _ Hin)).
        rewrite filter_cons in Hall. simpl in Hall.
        destruct (decide (h = item.1)); simpl in Hall; lia.
Qed.

Lemma show_grow_stats_raises (grow_stats : list (handle * vec3)) :
  show_grow_stats grow_stats = Raise ValueError <-> grow_stats <> [] /\ NoDup grow_stats.*1.
Proof.
  unfold show_grow_stats. destruct grow_stats as [|i gs]; [simpl; split; [done|tauto]|].
  set (l := i :: gs). rewrite grow_counts_NoDup.
  assert (is_nil ((fun item : handle * vec3 =>
                     length (filter (fun item' : handle * vec3 => item'.1 = item.1) l)) <$> l)
          = false) as -> by done.
  set (cnts := (fun item : handle * vec3 =>
                  length (filter (fun item' : handle * vec3 => item'.1 = item.1) l)) <$> l).
  assert (filter (fun i => 1 < i) cnts = []
          <-> forall item, item ∈ l ->
                length (filter (fun item' : handle * vec3 => item'.1 = item.1) l) <= 1) as H.
  { split.
    - intros Hnil item Hin.
      assert (~ 1 < length (filter (fun item' : handle * vec3 => item'.1 = item.1) l));
        [|lia].
      intros Hlt. apply (filter_nil_not_elem_of _ _ _ Hnil Hlt).
      subst cnts. apply list_elem_of_fmap. by exists item.
    - intros Hall. destruct (filter (fun i => 1 < i) cnts) as [|c cs] eqn:E; [done|].
      assert (c ∈ filter (fun i => 1 < i) cnts) as Hc by (rewrite E; apply list_elem_of_here).
      apply list_elem_of_filter in Hc as [Hlt Hc]. subst cnts.
      apply list_elem_of_fmap in Hc as (item & -> & Hin). specialize (Hall item Hin). lia. }
  destruct (filter (fun i => 1 < i) cnts) as [|c cs] eqn:E; simpl.
  - split; [|done]. intros _. split; [done|]. by apply H.
  - split; [done|]. intros [_ Hall]. apply H in Hall. discriminate.
Qed.

(** X16: [show_grow_stats], called at the end of [create_morphology], raises
    [ValueError] exactly when something was grown and no node or section
    has two positions grown from it ([min] of an empty list of branching
    counts); it returns in every other case.  A skeleton without branches,
    such as the path 1-2-3 from a soma node, makes [create_morphology] fail
    in this way after the morphology is built. *)
Theorem show_grow_stats_needs_a_branch (grow_stats : list (handle * vec3)) :
  (show_grow_stats grow_stats = Raise ValueError
   <-> grow_stats <> [] /\ NoDup grow_stats.*1)
  /\ (show_grow_stats grow_stats = Ok tt
      <-> grow_stats = [] \/ ~ NoDup grow_stats.*1)
  /\ create_morphology 3 3 skel_path soma_unit options_box = Raise ValueError.
Proof.
  split; [apply show_grow_stats_raises|]. split; [|vm_compute; reflexivity].
  pose proof (show_grow_stats_raises grow_stats) as H.
  destruct (show_grow_stats_cases grow_stats) as [E|E]; rewrite E in *.
  - split; [|done]. intros _. destruct grow_stats as [|i gs]; [by left|right].
    intros Hnd. assert (Ok tt = Raise ValueError) as [=]. apply H. done.
  - split; [done|]. destruct H as [H _]. specialize (H eq_refl) as [H1 H2].
    intros [?|?]; done.
Qed.

(** ** create_morphology: edge cases *)

Lemma create_node_segments_dict_empty (segments : list segment)
    (nodesegments : gmap nat (list segment)) (stats : warn_counts) :
  fold_left (cnsd_step ∅) segments (nodesegments, stats)
  = (nodesegments,
     WarnCounts (length segments + unconnected_segments stats) (ignored_edges stats)
                (max_grow_depth_reached stats) (cut_nodes_found stats)
                (ignored_positions stats)).
Proof.
  revert stats. induction segments as [|s segments IH]; intros stats; simpl.
  - by destruct stats.
  - unfold has_edge. rewrite !lookup_empty. simpl. rewrite IH. simpl.
    f_equal. f_equal. lia.
Qed.

(** X17: when no node lies within the soma radius of the soma centre,
    [create_morphology] returns, for every fuel and whatever the recursion
    limit, a morphology without any section ([debug_soma] aside): nothing is
    bound or visited, and every segment is counted as unconnected. *)
Theorem create_morphology_no_soma_nodes (fuel frames : nat) (skel : skeleton)
    (soma : soma_data) (o : options) (bb : aabb) :
  collect_soma_nodes (centre soma) (radius soma) (skel_nodes skel) = [] ->
  skel_nodes skel <> [] ->
  stack_AABB o = Some bb ->
  create_morphology fuel frames skel soma o
  = Ok (GState [] []
          (if (verbosity_level o <=? DEBUG)%Z
           then Morph [DebugSoma (radius soma * scaling_factor o)] 0
           else empty_morph)
          (WarnCounts (length (skel_segments skel)) 0 0 0 0) []).
Proof.
  intros Hsoma Hnodes Hbb. unfold create_morphology. cbv zeta. rewrite Hsoma, Hbb.
  assert (show_node_pos_stats (collect_node_positions (skel_nodes skel)) (Some bb) = Ok tt)
    as ->.
  { unfold collect_node_positions. by destruct (skel_nodes skel). }
  simpl_result.
  assert (create_directed_graph fuel [] (create_node_graph (skel_segments skel))
                                (make_morph_options o) no_warnings
          = Some (∅, no_warnings)) as -> by (by destruct fuel).
  unfold create_node_segments_dict. rewrite create_node_segments_dict_empty. simpl.
  unfold validate_graph_segments. rewrite map_to_list_empty. simpl. simpl_result.
  rewrite map_to_list_empty. simpl. simpl_result.
  unfold grow_morphology, grow_soma. simpl. simpl_result. simpl.
  rewrite Nat.add_0_r. by destruct (verbosity_level o <=? DEBUG)%Z.
Qed.

(** Witness: the skeleton far from the soma. *)
Lemma create_morphology_no_soma_nodes_witness :
  create_morphology 0 0 skel_far soma_unit options_box
  = Ok (GState [] []
          (if (verbosity_level options_box <=? DEBUG)%Z
           then Morph [DebugSoma (radius soma_unit * scaling_factor options_box)] 0
           else empty_morph)
          (WarnCounts (length (skel_segments skel_far)) 0 0 0 0) []).
Proof.
  apply (create_morphology_no_soma_nodes 0 0 skel_far soma_unit options_box box_D).
  - vm_compute. reflexivity.
  - discriminate.
  - reflexivity.
Defined.

(** X18: [create_morphology] fails before it builds any graph when the
    skeleton has no node ([ValueError], from [min] of an empty list) and,
    for a skeleton with nodes, when no stack AABB is configured, which is
    the default ([TypeError], from [inside_aabb] applied to [None]). *)
Theorem create_morphology_needs_nodes_and_aabb (fuel frames : nat) (skel : skeleton)
    (soma : soma_data) (o : options) :
  (skel_nodes skel = [] -> create_morphology fuel frames skel soma o = Raise ValueError)
  /\ (skel_nodes skel <> [] -> stack_AABB o = None ->
      create_morphology fuel frames skel soma o = Raise TypeError)
  /\ stack_AABB default_options = None.
Proof.
  unfold create_morphology, show_node_pos_stats, collect_node_positions. cbv zeta.
  split; [|split; [|done]].
  - intros ->. done.
  - intros Hne ->. by destruct (skel_nodes skel).
Qed.

(** ** create_directed_graph: the segments that are kept *)

Lemma cdg_step_oriented options somanodes nodesgraph (n : nat) (rest : list nat)
    (st : cdg_state) :
  (forall a b, b ∈ neighbours_of nodesgraph a -> a ∈ neighbours_of nodesgraph b) ->
  cdg_oriented options somanodes nodesgraph st ->
  cdg_oriented options somanodes nodesgraph (cdg_step options somanodes nodesgraph n rest st).
Proof.
  intros Hsym Ho a b Ha Hb Hmay.
  destruct (cdg_step_spec options somanodes nodesgraph n rest st) as (Hv & _ & _ & _).
  rewrite Hv in Ha.
  assert (forall x y, x ∈ cdg_visited st -> y ∈ neighbours_of nodesgraph x ->
                      may_connect options somanodes x y ->
                      has_edge (cdg_edges (cdg_step options somanodes nodesgraph n rest st))
                               x y = true
                      \/ has_edge (cdg_edges (cdg_step options somanodes nodesgraph n rest st))
                                  y x = true) as Hold.
  { intros x y Hx Hy Hxy. destruct (Ho x y Hx Hy Hxy) as [H|H]; [left|right];
      by apply cdg_step_has_edge. }
  apply elem_of_app in Ha as [Ha|Ha]; [by apply Hold|].
  apply list_elem_of_singleton in Ha as ->.
  destruct (decide (b ∈ cdg_visited st)) as [Hbv|Hbv].
  - destruct (Hold b n Hbv (Hsym _ _ Hb)) as [H|H]; [|by right|by left].
    destruct Hmay as [Hne Hsoma]. split; [done|]. intros Hc. by destruct (Hsoma Hc).
  - left. apply has_edge_true.
    destruct (cdg_edges (cdg_step options somanodes nodesgraph n rest st) !! n) as [l|] eqn:Hl.
    + exists l. split; [done|].
      apply cdg_step_edges in Hl as [[? _]|[_ Hin]]; [done|]. apply Hin. right.
      split; [done|]. apply cdg_accept_true. destruct Hmay as [Hne Hsoma]. split.
      * intros Hc. by destruct (Hsoma Hc).
      * intros _. rewrite elem_of_app, list_elem_of_singleton. intros [?|?]; done.
    + apply eq_None_not_Some in Hl. exfalso. apply Hl.
      destruct (cdg_step_spec options somanodes nodesgraph n rest st) as (_ & _ & -> & _).
      apply cdg_edges_fold_is_Some, cdg_edges_init_is_Some. by right.
Qed.

(** X19: every segment that joins two different nodes reachable from the
    soma is kept by [create_directed_graph] in one direction at least, and
    so is not counted as unconnected by [create_node_segments_dict], unless
    one of its ends is a soma node and soma nodes must stay apart; and every
    segment whose start is not reachable from the soma is unconnected. *)
Theorem reachable_segments_are_connected (segments : list segment) (somanodes : list nat)
    (options : morph_options) (stats : warn_counts) :
  exists dag w,
    (forall fuel,
        cdg_fuel (create_node_graph segments) somanodes (cdg_init somanodes stats) <= fuel ->
        create_directed_graph fuel somanodes (create_node_graph segments) options stats
        = Some (dag, w))
    /\ (forall s, s ∈ segments ->
          reachable (create_node_graph segments) somanodes (start s) ->
          may_connect options somanodes (start s) (end_ s) ->
          unconnected dag s = false)
    /\ (forall s, s ∈ segments ->
          ~ reachable (create_node_graph segments) somanodes (start s) ->
          unconnected dag s = true).
Proof.
  destruct (cdg_loop_result options somanodes (create_node_graph segments) stats)
    as (st & Hst & Hsound & Hkeys & _).
  exists (cdg_edges st), (cdg_warn st). split.
  { intros fuel Hfuel. unfold create_directed_graph. by rewrite (Hst fuel Hfuel). }
  pose proof (Hst _ (le_n _)) as Hrun.
  split; [|intros s Hs Hnot; unfold unconnected;
           destruct (has_edge (cdg_edges st) (start s) (end_ s)) eqn:E1;
           [exfalso; apply Hnot, Hkeys; apply has_edge_true in E1 as (l & Hl & _); eauto|];
           destruct (has_edge (cdg_edges st) (end_ s) (start s)) eqn:E2; [|done];
           exfalso; apply Hnot, Hkeys; apply has_edge_true in E2 as (l & Hl & Hin);
           destruct (Hsound _ _ Hl) as (Hv & _ & Hnb); destruct (Hnb _ Hin) as [Hnb' _];
           apply Hkeys; apply (reachable_step _ _ (end_ s));
           [apply Hkeys; eauto|done]].
  assert (cdg_oriented options somanodes (create_node_graph segments) st) as Ho.
  { eapply (cdg_loop_invariant (cdg_oriented options somanodes (create_node_graph segments)));
      [| |exact Hrun].
    - intros n rest s _. apply cdg_step_oriented.
      intros a b. rewrite !create_node_graph_joins. unfold joins.
      intros (s' & Hs' & Hj). exists s'. tauto.
    - intros a b Ha. simpl in Ha. by apply elem_of_nil in Ha. }
  destruct (cdg_loop_closed options somanodes (create_node_graph segments) _ _ _ Hrun
              (cdg_init_closed somanodes (create_node_graph segments) stats)) as [Hc HF].
  intros s Hs Hreach Hmay.
  assert (start s ∈ cdg_visited st) as Hv by (by eapply cdg_closed_reachable).
  assert (end_ s ∈ neighbours_of (create_node_graph segments) (start s)) as Hnb.
  { apply create_node_graph_joins. exists s. split; [done|]. by left. }
  unfold unconnected. destruct (Ho _ _ Hv Hnb Hmay) as [-> | ->]; [done|].
  apply andb_false_r.
Qed.

(** ** Segments inside the soma *)

Section Clipping.
Variables (loglevel : Z) (scentre : vec3) (sradius : float) (options : morph_options).

Lemma walk_interior_inside (node : handle) (pts : list point) (st : gstate) :
  k_CLIP_INSIDE_SOMA options = true ->
  (forall pt, pt ∈ pts ->
              is_cut_point (position pt) (k_CUTPOINT_AABB options) = false
              /\ leaves_soma scentre sradius pt = false) ->
  walk_interior loglevel scentre sradius options node pts None false st = (None, false, st).
Proof.
  intros Hclip Hall. induction pts as [|pt pts IH]; [done|].
  cbn [walk_interior]. destruct (Hall pt (list_elem_of_here _ _)) as [Hcut Hin].
  rewrite Hcut. cbn [orb]. unfold grow_interior_point. cbv zeta.
  unfold leaves_soma in Hin. rewrite Hclip, Hin. cbn [negb orb]. apply IH.
  intros p Hp. apply Hall. by apply list_elem_of_further.
Qed.

(** X20: with [k_CLIP_INSIDE_SOMA], a segment that stays inside the soma is
    not grown: when no sample is a cut point, no interior sample passes the
    test that starts a section and the end node does not pass its own test,
    [grow_segments] makes no call to the morphology for the segment and
    binds the position of the end node to the handle of the start node. *)
Theorem segment_inside_soma_is_not_grown (pnode_idx : nat) (segm : segment) (st : gstate)
    (p0 : point) (mid : list point) (pn : point) (node : handle) :
  k_CLIP_INSIDE_SOMA options = true ->
  start segm = pnode_idx ->
  points segm = p0 :: mid ++ [pn] ->
  dict_get (position p0) (nodes st) = Some node ->
  (forall pt, pt ∈ p0 :: mid ++ [pn] ->
              is_cut_point (position pt) (k_CUTPOINT_AABB options) = false) ->
  (forall pt, pt ∈ mid -> leaves_soma scentre sradius pt = false) ->
  end_leaves_soma scentre sradius pn = false ->
  dict_mem (position pn) (nodes st) = false ->
  grow_node_segments loglevel scentre sradius options pnode_idx [segm] false st
  = Ok (false, with_nodes (dict_set (position pn) node (nodes st)) st).
Proof.
  intros Hclip Hs Hp Hnode Hcut Hmid Hend Hmem. cbn [grow_node_segments].
  rewrite bool_decide_eq_true_2 by done. simpl_result. rewrite Hp.
  assert (exists p1 tl, mid ++ [pn] = p1 :: tl) as (p1 & tl & Heq).
  { destruct mid as [|m mid]; simpl; eauto. }
  rewrite Heq, Hnode.
  rewrite (Hcut p0) by apply list_elem_of_here. cbn [orb].
  rewrite <- Heq.
  assert (removelast (mid ++ [pn]) = mid) as -> by apply removelast_last.
  assert (List.last (mid ++ [pn]) p1 = pn) as -> by apply last_last.
  rewrite walk_interior_inside; [|done|].
  2:{ intros pt Hpt. split; [|by apply Hmid]. apply Hcut.
      apply list_elem_of_further, elem_of_app. by left. }
  cbn [fmap option_fmap option_map]. unfold grow_end_node. cbv zeta.
  rewrite (Hcut pn)
    by (apply list_elem_of_further, elem_of_app; right; apply list_elem_of_here).
  cbn [orb]. unfold end_leaves_soma in Hend. rewrite Hclip, Hend, Hmem.
  cbn [negb orb]. reflexivity.
Qed.

End Clipping.

(** Witness: a segment from x = 0.5 to x = 0.75 in the unit ball. *)
Lemma segment_inside_soma_is_not_grown_witness :
  grow_node_segments INFO (V3 0 0 0) 1 options_D 1 [segment_inside] false root_inside
  = Ok (false, with_nodes (dict_set (position (sample 0.75)) HSoma (nodes root_inside))
                          root_inside).
Proof.
  apply (segment_inside_soma_is_not_grown INFO (V3 0 0 0) 1 options_D 1 segment_inside
           root_inside (sample 0.5) [sample 0.625] (sample 0.75) HSoma).
  - reflexivity.
  - reflexivity.
  - reflexivity.
  - vm_compute. reflexivity.
  - intros pt Hpt. repeat (apply elem_of_cons in Hpt as [->|Hpt]; [vm_compute; reflexivity|]).
    by apply elem_of_nil in Hpt.
  - intros pt Hpt. apply list_elem_of_singleton in Hpt as ->. vm_compute. reflexivity.
  - vm_compute. reflexivity.
  - vm_compute. reflexivity.
Defined.

(** ** create_morphology on segments that have samples *)

Lemma segments_at_with_dag_keys (dgraph : gmap nat (list nat))
    (ns : gmap nat (list segment)) (k : nat) :
  segments_at (with_dag_keys dgraph ns) k = segments_at ns k.
Proof.
  unfold segments_at, with_dag_keys. rewrite lookup_union, lookup_fmap.
  destruct (ns !! k), (dgraph !! k); done.
Qed.

Lemma grow_morphology_raises_sampled (loglevel : Z) (dagnodes : gmap nat (list nat))
    (nodesegments : gmap nat (list segment)) (scentre : vec3) (sradius : float)
    (options : morph_options) (frames : nat) (soma_node_idxs : list nat) (depth : Z)
    (w : warn_counts) :
  (forall a b, has_edge dagnodes a b = true -> is_Some (dagnodes !! b)) ->
  (forall r, r ∈ soma_node_idxs -> is_Some (dagnodes !! r)) ->
  (forall n s, n ∈ soma_node_idxs -> s ∈ segments_at nodesegments n -> points s <> []) ->
  match grow_morphology loglevel dagnodes nodesegments scentre sradius options
                        frames soma_node_idxs depth w with
  | Raise e => e = AssertionError \/ e = RuntimeError
  | _ => True
  end.
Proof.
  intros Hclosed Hroots Hsampled. unfold grow_morphology.
  destruct (grow_soma_nodes_cases loglevel nodesegments scentre sradius options
              soma_node_idxs
              (if (loglevel <=? DEBUG)%Z
               then GState (nodes (empty_gstate w)) (visited (empty_gstate w))
                           (sink (DebugSoma (sradius * k_SCALING_FACTOR options))
                                 (morphology (empty_gstate w)))
                           (stats (empty_gstate w)) (node_grow_stats (empty_gstate w))
               else empty_gstate w))
    as [(_ & st0 & H0 & _)|[[H0 _]|[H0 (n & s & Hn & Hs & Hp)]]]; unfold grow_soma;
    rewrite H0; simpl_result; [|by left|by destruct (Hsampled n s Hn Hs)].
  apply (foldM_raises (fun e => e = AssertionError \/ e = RuntimeError)).
  intros s r Hr. by apply grow_segments_raises, Hroots.
Qed.

(** X21: on a skeleton with nodes whose segments all have a sample, and
    with a stack AABB, [create_morphology] ends, whatever the recursion
    limit, with a morphology or raises [AssertionError] (a start node that
    was not grown), [ValueError] (no branch to report) or [RuntimeError]
    (the recursion limit exceeded by [grow_segments]): the start of a
    segment always matches the node under which it is filed, no lookup
    fails, and the validation passes. *)
Theorem create_morphology_on_sampled_segments (frames : nat) (skel : skeleton)
    (soma : soma_data) (o : options) (bb : aabb) :
  skel_nodes skel <> [] ->
  stack_AABB o = Some bb ->
  (forall s, s ∈ skel_segments skel -> points s <> []) ->
  exists fuel0 r,
    (forall fuel, fuel0 <= fuel -> create_morphology fuel frames skel soma o = r)
    /\ match r with
       | Ok _ => True
       | Raise e => e = AssertionError \/ e = ValueError \/ e = RuntimeError
       | OutOfFuel => False
       end.
Proof.
  intros Hnodes Hbb Hsampled. unfold create_morphology. cbv zeta. rewrite Hbb.
  assert (show_node_pos_stats (collect_node_positions (skel_nodes skel)) (Some bb) = Ok tt)
    as ->.
  { unfold collect_node_positions. by destruct (skel_nodes skel). }
  simpl_result.
  set (somanodes := collect_soma_nodes (centre soma) (radius soma) (skel_nodes skel)).
  set (morph := make_morph_options o).
  destruct (cdg_loop_result morph somanodes (create_node_graph (skel_segments skel))
              no_warnings) as (st & Hst & Hs & Hkeys & Hchild).
  set (dag := cdg_edges st) in *.
  pose proof (validate_graph_stage (skel_segments skel) somanodes morph st (cdg_warn st)
                (validate_somanodes morph somanodes) Hs Hchild) as Hval.
  fold dag in Hval.
  pose proof (cnsd_filed (skel_segments skel) dag (cdg_warn st)) as Hfiled.
  destruct (create_node_segments_dict (skel_segments skel) dag (cdg_warn st))
    as [ns w'] eqn:Hns.
  cbn [fst] in Hval, Hfiled.
  set (F1 := cdg_fuel (create_node_graph (skel_segments skel)) somanodes
                      (cdg_init somanodes no_warnings)) in *.
  set (grow := grow_morphology (verbosity_level o) dag (with_dag_keys dag ns)
                 (centre soma) (radius soma) morph frames somanodes (graph_depth o) w').
  assert (grow <> OutOfFuel) as Htotal by apply grow_morphology_total.
  assert (forall r, r ∈ somanodes -> is_Some (dag !! r)) as Hroots.
  { intros r Hr. apply Hkeys. by apply reachable_root. }
  assert (forall n s, n ∈ somanodes -> s ∈ segments_at (with_dag_keys dag ns) n ->
                      points s <> []) as Hpts.
  { intros n s _. rewrite segments_at_with_dag_keys. intros Hin.
    apply Hfiled in Hin as (s0 & Hs0 & Hin). specialize (Hsampled s0 Hs0).
    apply elem_of_oriented_copies in Hin as [(_ & _ & ->)|(_ & _ & ->)]; [done|].
    simpl. intros Hrev. apply Hsampled. by rewrite <- (rev_involutive (points s0)), Hrev. }
  pose proof (grow_morphology_raises_sampled (verbosity_level o) dag (with_dag_keys dag ns)
                (centre soma) (radius soma) morph frames somanodes (graph_depth o) w'
                Hchild Hroots Hpts) as Hraise.
  fold grow in Hraise.
  exists F1, (grow ≫= fun st => show_grow_stats (node_grow_stats st) ≫= fun _ => Ok st).
  split.
  - intros fuel Hfuel. unfold create_directed_graph. rewrite (Hst fuel) by lia.
    fold dag. rewrite Hns, Hval. by simpl_result.
  - destruct grow as [st'|e|]; simpl_result; [|destruct Hraise; auto|done].
    destruct (show_grow_stats_cases (node_grow_stats st')) as [-> | ->]; simpl_result;
      [done|auto].
Qed.

(** Witness: the fork at the soma, with room for three nested calls. *)
Lemma create_morphology_on_sampled_segments_witness :
  exists fuel0 r,
    (forall fuel, fuel0 <= fuel -> create_morphology fuel 3 skel_fork soma_unit options_box = r)
    /\ match r with
       | Ok _ => True
       | Raise e => e = AssertionError \/ e = ValueError \/ e = RuntimeError
       | OutOfFuel => False
       end.
Proof.
  apply (create_morphology_on_sampled_segments 3 skel_fork soma_unit options_box box_D).
  - discriminate.
  - reflexivity.
  - intros s Hs. unfold skel_fork, segments_fork in Hs. simpl in Hs.
    repeat (apply elem_of_cons in Hs as [->|Hs]; [discriminate|]).
    by apply elem_of_nil in Hs.
Defined.

(** The fork is grown: the outcome above is a morphology.  With room for a
    single call, the call for node 2 exceeds the recursion limit. *)
Lemma create_morphology_fork :
  (fun st => (visited st, grown_sections (calls (morphology st))))
    <$> create_morphology 3 3 skel_fork soma_unit options_box
  = Ok ([1; 2; 3], [1; 0])
  /\ create_morphology 3 1 skel_fork soma_unit options_box = Raise RuntimeError.
Proof. split; vm_compute; reflexivity. Qed.
